(** * SDA: License Detection & Risk Intelligence Engine

    A shallow embedding of
      - [src/core/services/license-detector.ts]        (class [LicenseDetector])
      - the license intelligence service               (class [LicenseIntelligenceServiceImpl])
    together with the properties stated about them.

    Conventions of the embedding.
      - The project risk score is computed as the code computes it, in
        IEEE 754 doubles: Rocq's primitive [float], with the processor's
        [+], [/] and comparisons.  Confidences are only compared with one
        another and are kept as exact rationals ([Q]).  Integer scores
        are [Z].
      - A [Map] is an association list in insertion order; [Map.set] on a
        key that is present replaces the value where it stands.
      - Arrays are lists.  Where the source sorts an array in place the
        function returns the array after the call next to its result.
      - Host services that are not part of the repository (license store,
        file system, regular-expression engine, clock, compatibility
        engine, JSON printer) are the fields of a [Host] record. *)

From Stdlib Require Import Floats.
From Stdlib Require Import List String Ascii ZArith QArith Lia Bool Permutation.
From Stdlib Require Import DecimalString Lqa.
From Equations Require Import Equations.
Import ListNotations.

Local Open Scope Z_scope.
Local Open Scope list_scope.

(** ** Enumerations of [types/license] *)

(** Modelled from the spec: [types/license.ts] is not part of the sources;
    the seven categories are those of the data model (section 3), and the
    string value of each member is the lower-case name the spec lists
    (the service compares a category with the literal ['copyleft']). *)
Module LicenseCategory.
Inductive t : Set :=
  | PERMISSIVE | WEAK_COPYLEFT | COPYLEFT | PROPRIETARY
  | CUSTOM | UNKNOWN | PUBLIC_DOMAIN.

Definition eqb (a b : t) : bool :=
  match a, b with
  | PERMISSIVE, PERMISSIVE | WEAK_COPYLEFT, WEAK_COPYLEFT
  | COPYLEFT, COPYLEFT | PROPRIETARY, PROPRIETARY
  | CUSTOM, CUSTOM | UNKNOWN, UNKNOWN | PUBLIC_DOMAIN, PUBLIC_DOMAIN => true
  | _, _ => false
  end.

Definition value (c : t) : string :=
  match c with
  | PERMISSIVE => "permissive"
  | WEAK_COPYLEFT => "weak_copyleft"
  | COPYLEFT => "copyleft"
  | PROPRIETARY => "proprietary"
  | CUSTOM => "custom"
  | UNKNOWN => "unknown"
  | PUBLIC_DOMAIN => "public_domain"
  end.
End LicenseCategory.

(** Modelled from the spec: the closed set of obligation types of the data
    model, with the string values the service compares against
    (['patent_grant'], ['attribution'], ['disclose_source']). *)
Module ObligationType.
Inductive t : Set :=
  | ATTRIBUTION | COPYLEFT | DISCLOSE_SOURCE | SAME_LICENSE
  | PATENT_GRANT | NO_COMMERCIAL_USE | SHARE_ALIKE | NOTICE_PRESERVATION.

Definition eqb (a b : t) : bool :=
  match a, b with
  | ATTRIBUTION, ATTRIBUTION | COPYLEFT, COPYLEFT
  | DISCLOSE_SOURCE, DISCLOSE_SOURCE | SAME_LICENSE, SAME_LICENSE
  | PATENT_GRANT, PATENT_GRANT | NO_COMMERCIAL_USE, NO_COMMERCIAL_USE
  | SHARE_ALIKE, SHARE_ALIKE | NOTICE_PRESERVATION, NOTICE_PRESERVATION => true
  | _, _ => false
  end.

Definition value (o : t) : string :=
  match o with
  | ATTRIBUTION => "attribution"
  | COPYLEFT => "copyleft"
  | DISCLOSE_SOURCE => "disclose_source"
  | SAME_LICENSE => "same_license"
  | PATENT_GRANT => "patent_grant"
  | NO_COMMERCIAL_USE => "no_commercial_use"
  | SHARE_ALIKE => "share_alike"
  | NOTICE_PRESERVATION => "notice_preservation"
  end.
End ObligationType.

(** Modelled from the spec: the ordinal [RiskLevel] of the data model,
    [VERY_LOW < LOW < MEDIUM < HIGH < VERY_HIGH < CRITICAL]. *)
Module LegalRiskLevel.
Inductive t : Set := VERY_LOW | LOW | MEDIUM | HIGH | VERY_HIGH | CRITICAL.

Definition eqb (a b : t) : bool :=
  match a, b with
  | VERY_LOW, VERY_LOW | LOW, LOW | MEDIUM, MEDIUM
  | HIGH, HIGH | VERY_HIGH, VERY_HIGH | CRITICAL, CRITICAL => true
  | _, _ => false
  end.

(** Position in the total order of the spec. *)
Definition rank (r : t) : nat :=
  match r with
  | VERY_LOW => 0 | LOW => 1 | MEDIUM => 2
  | HIGH => 3 | VERY_HIGH => 4 | CRITICAL => 5
  end%nat.

Definition le (a b : t) : Prop := (rank a <= rank b)%nat.
End LegalRiskLevel.

(** The literal union ['low' | 'medium' | 'high' | 'critical']. *)
Inductive Severity : Set := sev_low | sev_medium | sev_high | sev_critical.

(** The literal union of obligation scopes used by [createObligation]. *)
Inductive ObligationScope : Set :=
  scope_distribution | scope_project | scope_component | scope_file.

(** ** Records *)

(** Modelled from the spec: [License] of the data model (section 3). *)
Record License : Type := mkLicense {
  spdxId : string;
  name : string;
  category : LicenseCategory.t;
  obligations : list ObligationType.t;
  confidence : Q;
  deprecatedIds : option (list string);
  fullText : option string;
  url : option string
}.

(** [{ ...license, confidence: c }] *)
Definition withConfidence (l : License) (c : Q) : License :=
  {| spdxId := spdxId l; name := name l; category := category l;
     obligations := obligations l; confidence := c;
     deprecatedIds := deprecatedIds l; fullText := fullText l; url := url l |}.

(** Modelled from the spec: [Package] of the data model; [pkg_license] is
    the declared license expression and [pkg_path] the filesystem root. *)
Record Package : Type := mkPackage {
  pkg_name : string;
  pkg_version : string;
  pkg_license : option string;
  pkg_path : option string
}.

Record LicenseObligation : Type := mkObligation {
  ob_type : ObligationType.t;
  ob_description : string;
  ob_severity : Severity;
  ob_scope : ObligationScope
}.

Record LicenseFile : Type := mkLicenseFile {
  lf_path : string;
  lf_license : License;
  lf_confidence : Q
}.

Inductive IssueType : Set :=
  missing_license | conflicting_licenses | deprecated_license | unrecognized_license.

Inductive IssueSeverity : Set := warning | error | critical.

Record Issue : Type := mkIssue {
  issue_type : IssueType;
  issue_severity : IssueSeverity;
  issue_description : string
}.

Inductive DetectionMethod : Set := declared | file_analysis | heuristic | manual.

Record AnalysisMetadata : Type := mkMetadata {
  analyzedAt : Z;
  analyzer : string;
  analyzer_version : string;
  scanDuration : Z
}.

Record LicenseAnalysis : Type := mkAnalysis {
  an_name : string;                      (* package.name *)
  an_version : string;                   (* package.version *)
  licenses : list License;
  primaryLicense : option License;
  detectionMethod : DetectionMethod;
  licenseFiles : list LicenseFile;
  copyrightStatements : list string;
  an_obligations : list LicenseObligation;
  riskLevel : LegalRiskLevel.t;
  issues : list Issue;
  metadata : AnalysisMetadata
}.

(** ** JavaScript values and library functions used by the code *)

(** Truthiness of a string: the empty string is falsy. *)
Definition truthy (s : string) : bool :=
  match s with EmptyString => false | _ => true end.

(** Truthiness of an optional string ([undefined] is falsy). *)
Definition truthy_opt (s : option string) : bool :=
  match s with Some s => truthy s | None => false end.

(** [x || 0] on a number. *)
Definition orZero (x : Q) : Q := if Qeq_bool x 0 then 0%Q else x.

(** [Array.prototype.includes] on strings. *)
Definition includes (l : list string) (s : string) : bool :=
  existsb (String.eqb s) l.

(** [Array.prototype.join]. *)
Definition join (sep : string) (l : list string) : string := String.concat sep l.

(** [Array.prototype.sort] with a comparator: the sort is stable, an
    element stays in front of a later one unless the comparator is
    positive on the pair. *)
Section ArraySort.
Context {A : Type} (cmp : A -> A -> Q).

Fixpoint sort_insert (x : A) (l : list A) : list A :=
  match l with
  | [] => [x]
  | y :: ys => if Qle_bool (cmp x y) 0 then x :: y :: ys
               else y :: sort_insert x ys
  end.

Definition Array_sort (l : list A) : list A := fold_right sort_insert [] l.
End ArraySort.

(** A JavaScript number is an IEEE 754 binary64 value, a [float]; sums,
    quotients and comparisons are the primitive ones. *)

(** An integer (a literal, an array length) as a number; the conversion
    is exact below 2^53. *)
Definition js_of_Z (z : Z) : float :=
  if (z <? 0)%Z then PrimFloat.opp (PrimFloat.of_uint63 (Uint63.of_Z (- z)))
  else PrimFloat.of_uint63 (Uint63.of_Z z).

Definition js_of_nat (n : nat) : float := js_of_Z (Z.of_nat n).

(** [Math.round]: the integer closest to [x], a tie going towards
    +Infinity; [x] itself when it is integral, infinite or NaN; [-0] for
    [-0.5 <= x <= -0].  The double [x] is the rational [(+/-) m * 2^e],
    and the integer is [floor (x + 1/2)], computed exactly. *)
Definition Math_round (x : float) : float :=
  match Prim2SF x with
  | S754_finite s m e =>
      if (0 <=? e)%Z then x
      else
        let scale := (2 ^ (- e))%Z in
        let numerator := if s then Z.neg m else Z.pos m in
        let r := ((2 * numerator + scale) / (2 * scale))%Z in
        if (r =? 0)%Z then (if s then PrimFloat.neg_zero else PrimFloat.zero)
        else js_of_Z r
  | _ => x
  end.

(** [Math.min] of two numbers: NaN when either is; [-0] is below [+0]. *)
Definition Math_min (a b : float) : float :=
  if PrimFloat.is_nan a || PrimFloat.is_nan b then PrimFloat.nan
  else if (a <? b)%float then a
  else if (b <? a)%float then b
  else if PrimFloat.get_sign a then a else b.

(** [Math.max] of two numbers. *)
Definition Math_max (a b : float) : float :=
  if PrimFloat.is_nan a || PrimFloat.is_nan b then PrimFloat.nan
  else if (b <? a)%float then a
  else if (a <? b)%float then b
  else if PrimFloat.get_sign a then b else a.

(** [x >= k]. *)
Definition js_ge (x k : float) : bool := (k <=? x)%float.

(** The double of a positive integer [c] below 2^53: its bits shifted to
    a mantissa of 53 bits, and the exponent that undoes the shift. *)
Definition shiftP (p : positive) (k : Z) : positive :=
  match k with Z.pos n => Pos.iter xO p n | _ => p end.

Definition intMantissa (c : positive) : positive :=
  shiftP c (53 - Z.pos (digits2_pos c)).

Definition intExponent (c : positive) : Z := (Z.pos (digits2_pos c) - 53)%Z.

(** A length or a count interpolated into a template string. *)
Definition nat_to_string (n : nat) : string :=
  NilZero.string_of_uint (Nat.to_uint n).

(** The line feed and the double quote of string literals. *)
Definition LF : string := String (ascii_of_nat 10) EmptyString.
Definition DQ : string := String (ascii_of_nat 34) EmptyString.

(** [String.prototype.repeat]. *)
Fixpoint String_repeat (s : string) (n : nat) : string :=
  match n with
  | O => EmptyString
  | S n' => (s ++ String_repeat s n')%string
  end.

(** [String.prototype.includes]. *)
Fixpoint String_includes (s sub : string) : bool :=
  if String.prefix sub s then true
  else match s with
       | EmptyString => false
       | String _ rest => String_includes rest sub
       end.

(** [Map] with insertion order. *)
Section JsMap.
Context {K V : Type} (keq : K -> K -> bool).

Fixpoint Map_get (m : list (K * V)) (k : K) : option V :=
  match m with
  | [] => None
  | (k', v) :: m' => if keq k k' then Some v else Map_get m' k
  end.

Definition Map_has (m : list (K * V)) (k : K) : bool :=
  match Map_get m k with Some _ => true | None => false end.

Fixpoint Map_set (m : list (K * V)) (k : K) (v : V) : list (K * V) :=
  match m with
  | [] => [(k, v)]
  | (k', v') :: m' => if keq k k' then (k', v) :: m'
                      else (k', v') :: Map_set m' k v
  end.

Definition Map_values (m : list (K * V)) : list V := map snd m.
End JsMap.

(** ** Exceptions, promises and the outside world *)

(** A thrown value: an [Error] object with its message, or anything else
    ([error instanceof Error] is false). *)
Inductive Thrown : Type := JsError (message : string) | JsValue.

(** The state a promise settles in; also the result of a block that may
    throw. *)
Inductive Outcome (A : Type) : Type :=
| Fulfilled (value : A)
| Rejected (reason : Thrown).
Arguments Fulfilled {A} value.
Arguments Rejected {A} reason.

Definition isFulfilled {A} (o : Outcome A) : bool :=
  match o with Fulfilled _ => true | Rejected _ => false end.

(** [LicenseScanOptions], with the fields [getDefaultOptions] fills in. *)
Record LicenseScanOptions : Type := mkScanOptions {
  scanDepth : string;
  includeDevDependencies : bool;
  scanPatterns : list string;
  ignorePatterns : list string;
  confidenceThreshold : Q;
  useCache : bool;
  failOnPolicyViolation : bool
}.

(** Modelled from the spec: the consumed shape of [CompatibilityReport],
    [{conflicts, overallCompatibility, summary.riskScore}]; a conflict is
    only counted, so it is kept as its description. *)
Record CompatibilityReport : Type := mkCompatibilityReport {
  conflicts : list string;
  overallCompatibility : string;
  summary_riskScore : float
}.

(** One entry per call of the logger, carrying the interpolated values. *)
Inductive LogEvent : Type :=
| DetectorAnalyzing (pkg version : string)
| DetectorCompleted (duration : Z) (found : nat)
| DetectorFailed (error : Thrown)
| AnalyzeStart (pkg version : string)
| AnalyzeCompleted (pkg : string) (found : nat)
| AnalyzeFailed (pkg : string) (error : Thrown)
| BatchStart (packages : nat)
| BatchItemFailed (reason : Thrown)
| BatchCompleted (duration : Z) (analysed packages : nat)
| BatchFailed (error : Thrown)
| RiskStart (packages : nat)
| RiskCompleted (duration : Z) (risk : LegalRiskLevel.t)
| RiskFailed (error : Thrown)
| DocumentStart (packages : nat)
| DocumentCompleted (duration : Z) (format : string)
| DocumentFailed (error : Thrown)
| PolicyStart (packages : nat) (policy : string)
| PolicyCompleted (duration : Z) (compliant : bool) (violations : nat)
| PolicyFailed (error : Thrown).

(** The object [generateJsonDocument] hands to [JSON.stringify]. *)
Record JsonLicense : Type := mkJsonLicense {
  jl_spdxId : string;
  jl_name : string;
  jl_category : LicenseCategory.t;
  jl_url : option string
}.

Record JsonPackage : Type := mkJsonPackage {
  jp_name : string;
  jp_version : string;
  jp_licenses : list JsonLicense;
  jp_copyrightStatements : list string;
  jp_riskLevel : LegalRiskLevel.t
}.

Record JsonReport : Type := mkJsonReport {
  generatedAt : string;
  jr_packages : list JsonPackage
}.

(** What the code reaches outside the repository, fixed during a call. *)
Record Host : Type := mkHost {
  (** [licenseDb.getLicense]; a fault of the store is a throw. *)
  getLicense : string -> Outcome (option License);
  (** [access] then [readFile(join(root, name), 'utf-8')]; [None] when
      either rejects. *)
  readUtf8 : string -> string -> option string;
  (** [new RegExp(source, 'i').test(text)]. *)
  regex_test : string -> string -> bool;
  (** [String.prototype.trim]. *)
  trim : string -> string;
  (** [content.replace(/\s+/g, ' ').trim()]. *)
  normalizeSpace : string -> string;
  (** The three [replace] calls of [detectDeclaredLicense] followed by
      [split(/\s+(?:OR|AND)\s+/)]. *)
  splitExpression : string -> list string;
  (** [match[0]] of the successive [copyrightPattern.exec(content)]. *)
  copyrightMatches : string -> list string;
  (** [compatibilityEngine.generateCompatibilityReport]. *)
  generateCompatibilityReport :
    list Package -> list LicenseAnalysis -> option LicenseScanOptions ->
    Outcome CompatibilityReport;
  (** [Date.prototype.toISOString]. *)
  toISOString : Z -> string;
  (** [JSON.stringify(report, null, 2)]. *)
  JSON_stringify : JsonReport -> string
}.

(** The order in which the event loop lets pending calls finish: some
    permutation of them, which may depend on the time. *)
Record Scheduler : Type := mkScheduler {
  settle_order : forall A : Type, nat -> list A -> list A;
  settle_order_perm :
    forall (A : Type) (t : nat) (l : list A), Permutation (settle_order A t l) l
}.

(** What may differ between two calls on the same input: the clock (the
    value of the [k]-th reading) and the scheduling. *)
Record Run : Type := mkRun {
  clock : nat -> Z;
  scheduler : Scheduler
}.

(** The state threaded through a call: clock readings taken so far and the
    log written so far, oldest entry first. *)
Record World : Type := mkWorld {
  ticks : nat;
  log : list LogEvent
}.

(** Computations that read the clock, write the log and may throw. *)
Definition M (A : Type) : Type := World -> Outcome A * World.

Definition ret {A} (a : A) : M A := fun w => (Fulfilled a, w).

Definition bind {A B} (m : M A) (k : A -> M B) : M B :=
  fun w =>
    match m w with
    | (Fulfilled a, w') => k a w'
    | (Rejected e, w') => (Rejected e, w')
    end.

Definition throw {A} (e : Thrown) : M A := fun w => (Rejected e, w).

(** [try { body } catch (error) { handler }]. *)
Definition try_catch {A} (body : M A) (handler : Thrown -> M A) : M A :=
  fun w =>
    match body w with
    | (Fulfilled a, w') => (Fulfilled a, w')
    | (Rejected e, w') => handler e w'
    end.

(** A block whose only effect is to return or throw. *)
Definition lift {A} (o : Outcome A) : M A := fun w => (o, w).

Definition logger (e : LogEvent) : M unit :=
  fun w => (Fulfilled tt, mkWorld (ticks w) (log w ++ [e])).

(** [Date.now()] and [new Date()]. *)
Definition Date_now (run : Run) : M Z :=
  fun w => (Fulfilled (clock run (ticks w)), mkWorld (S (ticks w)) (log w)).

Declare Scope io_scope.
Delimit Scope io_scope with io.
Notation "x <- c ;; k" := (bind c (fun x => k))
  (at level 100, c at next level, right associativity) : io_scope.
Notation "c ;; k" := (bind c (fun _ => k))
  (at level 100, right associativity) : io_scope.

(** ** License detector: the pure steps *)

Module Detector.

(** [consolidateLicenses]: the declared license first, then each file's
    license where the key is new or the file's confidence is higher. *)
Definition consolidateLicenses
    (declaredLicense : option License) (licenseFiles : list LicenseFile)
    : list License :=
  let licenseMap : list (string * License) :=
    match declaredLicense with
    | Some d => Map_set String.eqb [] (spdxId d) d
    | None => []
    end in
  let licenseMap :=
    fold_left
      (fun m fileInfo =>
         let key := spdxId (lf_license fileInfo) in
         match Map_get String.eqb m key with
         | None => Map_set String.eqb m key (lf_license fileInfo)
         | Some existing =>
             if Qlt_le_dec (orZero (confidence existing)) (lf_confidence fileInfo)
             then Map_set String.eqb m key (lf_license fileInfo)
             else m
         end)
      licenseFiles licenseMap in
  Map_values licenseMap.

(** The comparator [(a, b) => (b.confidence || 0) - (a.confidence || 0)]. *)
Definition byConfidenceDesc (a b : License) : Q :=
  (orZero (confidence b) - orZero (confidence a))%Q.

Definition isPermissive (l : License) : bool :=
  LicenseCategory.eqb (category l) LicenseCategory.PERMISSIVE.

(** [determinePrimaryLicense].  The last rule sorts [licenses] itself, so
    the array the caller holds is returned as the second component. *)
Definition determinePrimaryLicense
    (licenses : list License) (declaredLicense : option License)
    : option License * list License :=
  match licenses with
  | [] => (None, licenses)
  | [l] => (Some l, licenses)
  | _ =>
      let found :=
        match declaredLicense with
        | Some d => find (fun l => String.eqb (spdxId l) (spdxId d)) licenses
        | None => None
        end in
      match found with
      | Some f => (Some f, licenses)
      | None =>
          let permissive := filter isPermissive licenses in
          match permissive with
          | _ :: _ => (hd_error (Array_sort byConfidenceDesc permissive), licenses)
          | [] =>
              let sorted := Array_sort byConfidenceDesc licenses in
              (hd_error sorted, sorted)
          end
      end
  end.

(** [createObligation]: the static obligation-detail table. *)
Definition createObligation (type : ObligationType.t) (_license : License)
    : LicenseObligation :=
  match type with
  | ObligationType.ATTRIBUTION =>
      mkObligation type "Must include attribution to original authors"
                   sev_medium scope_distribution
  | ObligationType.COPYLEFT =>
      mkObligation type "Must release derivative works under same license"
                   sev_high scope_project
  | ObligationType.DISCLOSE_SOURCE =>
      mkObligation type "Must make source code available"
                   sev_high scope_distribution
  | ObligationType.SAME_LICENSE =>
      mkObligation type "Must use same license for derivative works"
                   sev_high scope_project
  | ObligationType.PATENT_GRANT =>
      mkObligation type "Includes patent grant and termination clauses"
                   sev_medium scope_component
  | ObligationType.NO_COMMERCIAL_USE =>
      mkObligation type "Prohibits commercial use" sev_critical scope_project
  | ObligationType.SHARE_ALIKE =>
      mkObligation type "Must share adaptations under same license"
                   sev_high scope_project
  | ObligationType.NOTICE_PRESERVATION =>
      mkObligation type "Must preserve copyright and license notices"
                   sev_medium scope_file
  end.

(** [calculateObligations]: first license to carry a type creates it. *)
Definition calculateObligations (licenses : list License) : list LicenseObligation :=
  let obligationMap :=
    fold_left
      (fun m license =>
         fold_left
           (fun m obligationType =>
              if Map_has ObligationType.eqb m obligationType then m
              else Map_set ObligationType.eqb m obligationType
                           (createObligation obligationType license))
           (obligations license) m)
      licenses ([] : list (ObligationType.t * LicenseObligation)) in
  Map_values obligationMap.

(** [assessLegalRisk]: two accumulation loops and the breakpoint chain. *)
Definition assessLegalRisk
    (licenses : list License) (obligations : list LicenseObligation)
    : LegalRiskLevel.t :=
  let riskScore := 0 in
  let riskScore :=
    fold_left
      (fun riskScore license =>
         match category license with
         | LicenseCategory.PERMISSIVE => riskScore + 1
         | LicenseCategory.WEAK_COPYLEFT => riskScore + 3
         | LicenseCategory.COPYLEFT => riskScore + 5
         | LicenseCategory.PROPRIETARY => riskScore + 10
         | LicenseCategory.CUSTOM => riskScore + 7
         | LicenseCategory.UNKNOWN => riskScore + 8
         | LicenseCategory.PUBLIC_DOMAIN => riskScore + 0
         end)
      licenses riskScore in
  let riskScore :=
    fold_left
      (fun riskScore obligation =>
         match ob_severity obligation with
         | sev_critical => riskScore + 10
         | sev_high => riskScore + 5
         | sev_medium => riskScore + 2
         | sev_low => riskScore + 1
         end)
      obligations riskScore in
  if 20 <=? riskScore then LegalRiskLevel.CRITICAL
  else if 15 <=? riskScore then LegalRiskLevel.VERY_HIGH
  else if 10 <=? riskScore then LegalRiskLevel.HIGH
  else if 5 <=? riskScore then LegalRiskLevel.MEDIUM
  else if 2 <=? riskScore then LegalRiskLevel.LOW
  else LegalRiskLevel.VERY_LOW.

(** [hasIncompatibleLicenses]. *)
Definition hasIncompatibleLicenses (licenses : list License) : bool :=
  let categories := map category licenses in
  let hasProprietary :=
    existsb (LicenseCategory.eqb LicenseCategory.PROPRIETARY) categories in
  if hasProprietary && (1 <? List.length licenses)%nat then true
  else
    let copyleftCount :=
      List.length (filter (fun c => LicenseCategory.eqb c LicenseCategory.COPYLEFT)
                     categories) in
    if (1 <? copyleftCount)%nat then true else false.

(** [detectIssues]: four independent checks, pushed in this order. *)
Definition detectIssues
    (pkg : Package) (licenses : list License)
    (declaredLicense : option License) (_licenseFiles : list LicenseFile)
    : list Issue :=
  let issues : list Issue := [] in
  let issues :=
    if (List.length licenses =? 0)%nat
    then issues ++ [mkIssue missing_license error "No license detected in package"]
    else issues in
  let issues :=
    if (1 <? List.length licenses)%nat
    then if hasIncompatibleLicenses licenses
         then issues ++
              [mkIssue conflicting_licenses critical
                 ("Potentially incompatible licenses: "
                    ++ join ", " (map spdxId licenses))%string]
         else issues
    else issues in
  let issues :=
    fold_left
      (fun issues license =>
         match deprecatedIds license with
         | Some (_ :: _) =>
             issues ++
             [mkIssue deprecated_license warning
                ("License " ++ spdxId license ++ " has deprecated identifiers")%string]
         | _ => issues
         end)
      licenses issues in
  let issues :=
    match declaredLicense with
    | None =>
        if truthy_opt (pkg_license pkg)
        then issues ++
             [mkIssue unrecognized_license warning
                ("Unrecognized license identifier: "
                   ++ match pkg_license pkg with Some s => s | None => EmptyString end)%string]
        else issues
    | Some _ => issues
    end in
  issues.

(** [determineDetectionMethod]. *)
Definition determineDetectionMethod
    (declaredLicense : option License) (licenseFiles : list LicenseFile)
    : DetectionMethod :=
  match declaredLicense, licenseFiles with
  | Some _, _ :: _ => declared
  | _, _ :: _ => file_analysis
  | Some _, [] => heuristic
  | None, [] => manual
  end.

(** [LICENSE_FILE_PATTERNS]. *)
Definition LICENSE_FILE_PATTERNS : list string :=
  [ "LICENSE"; "LICENSE.txt"; "LICENSE.md";
    "LICENCE"; "LICENCE.txt"; "LICENCE.md";
    "COPYING"; "COPYING.txt"; "COPYRIGHT"; "COPYRIGHT.txt";
    "NOTICE"; "NOTICE.txt" ]%string.

Record TextPattern : Type := mkTextPattern {
  tp_pattern : string;      (* source of the regular expression, flag [i] *)
  tp_spdxId : string;
  tp_confidence : Q
}.

(** [LICENSE_TEXT_PATTERNS]. *)
Definition LICENSE_TEXT_PATTERNS : list TextPattern :=
  [ mkTextPattern "MIT License|Permission is hereby granted, free of charge"
                  "MIT" (9 # 10);
    mkTextPattern "Apache License.*Version 2\.0" "Apache-2.0" (9 # 10);
    mkTextPattern "GNU GENERAL PUBLIC LICENSE.*Version 3" "GPL-3.0-only" (9 # 10);
    mkTextPattern "GNU GENERAL PUBLIC LICENSE.*Version 2" "GPL-2.0-only" (9 # 10);
    mkTextPattern "GNU LESSER GENERAL PUBLIC LICENSE.*Version 3"
                  "LGPL-3.0-only" (9 # 10);
    mkTextPattern "GNU LESSER GENERAL PUBLIC LICENSE.*Version 2\.1"
                  "LGPL-2.1-only" (9 # 10);
    mkTextPattern "Mozilla Public License.*Version 2\.0" "MPL-2.0" (9 # 10);
    mkTextPattern
      "BSD.*3.*Clause|Redistribution and use in source and binary forms.*with or without modification"
      "BSD-3-Clause" (8 # 10);
    mkTextPattern "BSD.*2.*Clause" "BSD-2-Clause" (8 # 10);
    mkTextPattern "ISC License|Permission to use, copy, modify.*is hereby granted"
                  "ISC" (8 # 10);
    mkTextPattern "Creative Commons Zero.*Universal|CC0" "CC0-1.0" (8 # 10);
    mkTextPattern
      "This is free and unencumbered software released into the public domain"
      "Unlicense" (9 # 10) ]%string.

(** *** The strategies and [detectLicense] *)

Section Strategies.
Context (host : Host) (run : Run).

(** [detectDeclaredLicense]. *)
Definition detectDeclaredLicense (pkg : Package) : Outcome (option License) :=
  match pkg_license pkg with
  | None => Fulfilled None
  | Some license_ =>
      if negb (truthy license_) then Fulfilled None
      else
        let licenseExpression := trim host license_ in
        match getLicense host licenseExpression with
        | Rejected e => Rejected e
        | Fulfilled (Some license) => Fulfilled (Some (withConfidence license 1))
        | Fulfilled None =>
            let parts := splitExpression host licenseExpression in
            (fix loop (parts : list string) : Outcome (option License) :=
               match parts with
               | [] => Fulfilled None
               | part :: rest =>
                   match getLicense host (trim host part) with
                   | Rejected e => Rejected e
                   | Fulfilled (Some partLicense) =>
                       Fulfilled (Some (withConfidence partLicense (8 # 10)))
                   | Fulfilled None => loop rest
                   end
               end) parts
        end
  end.

(** [analyzeLicenseText]: the first pattern that matches and whose
    identifier the store knows. *)
Definition analyzeLicenseText (content : string) : Outcome (option (License * Q)) :=
  let normalizedContent := normalizeSpace host content in
  (fix loop (patterns : list TextPattern) : Outcome (option (License * Q)) :=
     match patterns with
     | [] => Fulfilled None
     | pattern :: rest =>
         if regex_test host (tp_pattern pattern) normalizedContent
         then match getLicense host (tp_spdxId pattern) with
              | Rejected e => Rejected e
              | Fulfilled (Some license) =>
                  Fulfilled (Some (withConfidence license (tp_confidence pattern),
                                   tp_confidence pattern))
              | Fulfilled None => loop rest
              end
         else loop rest
     end) LICENSE_TEXT_PATTERNS.

(** [analyzeLicenseFiles]: whatever is thrown while a file is handled,
    the store's faults included, skips that file. *)
Definition analyzeLicenseFiles (pkg : Package) (_options : LicenseScanOptions)
    : list LicenseFile :=
  match pkg_path pkg with
  | None => []
  | Some path =>
      if negb (truthy path) then []
      else
        fold_left
          (fun licenseFiles pattern =>
             match readUtf8 host path pattern with
             | None => licenseFiles
             | Some content =>
                 match analyzeLicenseText content with
                 | Fulfilled (Some (license, confidence)) =>
                     licenseFiles ++ [mkLicenseFile pattern license confidence]
                 | Fulfilled None => licenseFiles
                 | Rejected _ => licenseFiles
                 end
             end)
          LICENSE_FILE_PATTERNS []
  end.

(** [extractCopyrightStatements]. *)
Definition extractCopyrightStatements (pkg : Package) (_options : LicenseScanOptions)
    : list string :=
  match pkg_path pkg with
  | None => []
  | Some path =>
      if negb (truthy path) then []
      else
        fold_left
          (fun copyrightStatements pattern =>
             match readUtf8 host path pattern with
             | None => copyrightStatements
             | Some content =>
                 fold_left
                   (fun copyrightStatements match0 =>
                      let statement := trim host match0 in
                      if truthy statement && negb (includes copyrightStatements statement)
                      then copyrightStatements ++ [statement]
                      else copyrightStatements)
                   (copyrightMatches host content) copyrightStatements
             end)
          LICENSE_FILE_PATTERNS []
  end.

(** [getDefaultOptions]. *)
Definition getDefaultOptions : LicenseScanOptions :=
  mkScanOptions "direct" true
    ["LICENSE*"; "COPYING*"; "COPYRIGHT*"; "NOTICE*"]%string
    ["node_modules/**"; ".git/**"]%string
    (7 # 10) true false.

Local Open Scope io_scope.

(** [detectLicense] up to its first [await]: the clock is read and the
    start is logged. *)
Definition detectLicense_begin (pkg : Package) : World -> Z * World :=
  fun w =>
    let startTime := clock run (ticks w) in
    (startTime,
     mkWorld (S (ticks w))
             (log w ++ [DetectorAnalyzing (pkg_name pkg) (pkg_version pkg)])).

(** The steps of [detectLicense] between the declared-license lookup and
    the final log entry: strategies 2 and 3, consolidation, primary
    license, obligations, risk, issues, and the [analysis] literal. *)
Definition analysisOf
    (pkg : Package) (options : LicenseScanOptions)
    (declaredLicense : option License) (scanDuration analyzedAt : Z)
    : LicenseAnalysis :=
  let licenseFiles := analyzeLicenseFiles pkg options in
  let copyrightStatements := extractCopyrightStatements pkg options in
  let licenses := consolidateLicenses declaredLicense licenseFiles in
  let '(primaryLicense, licenses) :=
    determinePrimaryLicense licenses declaredLicense in
  let obligations := calculateObligations licenses in
  let riskLevel := assessLegalRisk licenses obligations in
  let issues := detectIssues pkg licenses declaredLicense licenseFiles in
  mkAnalysis (pkg_name pkg) (pkg_version pkg) licenses primaryLicense
    (determineDetectionMethod declaredLicense licenseFiles)
    licenseFiles copyrightStatements obligations riskLevel issues
    (mkMetadata analyzedAt "LicenseDetector" "1.0.0" scanDuration).

(** The message of the error [detectLicense] rethrows. *)
Definition detectionFailed (pkg : Package) (error : Thrown) : Thrown :=
  JsError ("License detection failed for " ++ pkg_name pkg ++ ": "
           ++ match error with
              | JsError message => message
              | JsValue => "Unknown error"
              end)%string.

(** [detectLicense] from its first [await] on. *)
Definition detectLicense_resume
    (pkg : Package) (options : LicenseScanOptions) (startTime : Z)
    : M LicenseAnalysis :=
  try_catch
    (declaredLicense <- lift (detectDeclaredLicense pkg) ;;
     now <- Date_now run ;;
     let scanDuration := now - startTime in
     analyzedAt <- Date_now run ;;
     let analysis := analysisOf pkg options declaredLicense scanDuration analyzedAt in
     logger (DetectorCompleted scanDuration (List.length (licenses analysis))) ;;
     ret analysis)
    (fun error =>
       logger (DetectorFailed error) ;;
       throw (detectionFailed pkg error)).

(** [detectLicense]; an absent [options] is [getDefaultOptions()]. *)
Definition detectLicense (pkg : Package) (options : option LicenseScanOptions)
    : M LicenseAnalysis :=
  fun w =>
    let options := match options with Some o => o | None => getDefaultOptions end in
    let '(startTime, w) := detectLicense_begin pkg w in
    detectLicense_resume pkg options startTime w.

End Strategies.

End Detector.

(** ** License objects by reference *)

(** In the program a [License] is an object: the store returns a
    reference to its own record, and an analysis holds references.  This
    module keeps the objects on a heap, to tell a copy from a write. *)
Module Refs.

Definition Heap : Type := list License.
Definition Ref : Type := nat.

Definition deref (h : Heap) (r : Ref) : option License := nth_error h r.

(** An object literal makes a new object. *)
Definition alloc (h : Heap) (l : License) : Ref * Heap :=
  (List.length h, h ++ [l]).

(** The store hands out references to its records. *)
Definition RefStore : Type := string -> Outcome (option Ref).

(** What a lookup gives when the record is read at once.  A reference to
    no object does not arise; it is read as an absent entry. *)
Definition view (store : RefStore) (h : Heap) (id : string)
    : Outcome (option License) :=
  match store id with
  | Fulfilled (Some r) => Fulfilled (deref h r)
  | Fulfilled None => Fulfilled None
  | Rejected e => Rejected e
  end.

(** [{ ...license, confidence: c }]: the fields of [license] are read and
    a new object is made; the object read is not written to. *)
Definition spread (h : Heap) (license : License) (c : Q) : Ref * Heap :=
  alloc h (withConfidence license c).

(** [detectDeclaredLicense], returning a reference. *)
Definition detectDeclaredLicense
    (host : Host) (store : RefStore) (pkg : Package) (h : Heap)
    : Outcome (option Ref) * Heap :=
  match pkg_license pkg with
  | None => (Fulfilled None, h)
  | Some license_ =>
      if negb (truthy license_) then (Fulfilled None, h)
      else
        let licenseExpression := trim host license_ in
        match view store h licenseExpression with
        | Rejected e => (Rejected e, h)
        | Fulfilled (Some license) =>
            let '(r, h) := spread h license 1 in (Fulfilled (Some r), h)
        | Fulfilled None =>
            let parts := splitExpression host licenseExpression in
            (fix loop (parts : list string) : Outcome (option Ref) * Heap :=
               match parts with
               | [] => (Fulfilled None, h)
               | part :: rest =>
                   match view store h (trim host part) with
                   | Rejected e => (Rejected e, h)
                   | Fulfilled (Some partLicense) =>
                       let '(r, h) := spread h partLicense (8 # 10) in
                       (Fulfilled (Some r), h)
                   | Fulfilled None => loop rest
                   end
               end) parts
        end
  end.

End Refs.

(** ** License intelligence service: batch analysis and policy validation *)

(** Modelled from the spec: [LicensePolicy] of the data model; an action
    is kept as the string the code compares with ['prohibit']. *)
Record CategoryRule : Type := mkCategoryRule {
  cr_category : LicenseCategory.t;
  cr_action : string
}.

Record LicensePolicy : Type := mkPolicy {
  policy_name : string;
  prohibitedLicenses : list string;
  reviewRequiredLicenses : list string;
  allowedLicenses : list string;
  categoryRules : list CategoryRule;
  maximumRiskLevel : LegalRiskLevel.t      (* riskTolerance.maximumRiskLevel *)
}.

Record Violation : Type := mkViolation {
  v_package : string;
  v_license : string;
  v_violation : string;
  v_severity : IssueSeverity
}.

Record PolicyResult : Type := mkPolicyResult {
  compliant : bool;
  violations : list Violation
}.

(** A call of [analyzeLicense] that was started in a batch and has not
    settled: its position, its package, and the start time it read. *)
Record Pending : Type := mkPending {
  position : nat;
  pending_pkg : Package;
  pending_start : Z
}.

(** [Array.prototype.slice(start, end)]. *)
Definition slice {A} (l : list A) (start end_ : nat) : list A :=
  firstn (end_ - start) (skipn start l).

(** [ComplianceDocumentOptions]; [format] is kept as a string, the
    dispatch has a branch for a value outside the four literals. *)
Record ComplianceDocumentOptions : Type := mkDocumentOptions {
  format : string;
  groupByLicense : bool;
  includeLicenseTexts : bool;
  includeCopyrightNotices : bool;
  customHeader : option string;
  customFooter : option string
}.

(** The string interpolated for an optional string known to be truthy. *)
Definition or_empty (s : option string) : string :=
  match s with Some s => s | None => EmptyString end.

Module Service.
Import Detector.

(** [calculateRiskScore]. *)
Definition calculateRiskScore
    (licenseAnalyses : list LicenseAnalysis) (compatibilityReport : CompatibilityReport)
    : float :=
  let riskScore : float := 0%float in
  let riskScore :=
    fold_left
      (fun riskScore analysis =>
         match riskLevel analysis with
         | LegalRiskLevel.CRITICAL => riskScore + 20
         | LegalRiskLevel.VERY_HIGH => riskScore + 15
         | LegalRiskLevel.HIGH => riskScore + 10
         | LegalRiskLevel.MEDIUM => riskScore + 5
         | LegalRiskLevel.LOW => riskScore + 2
         | LegalRiskLevel.VERY_LOW => riskScore + 1
         end%float)
      licenseAnalyses riskScore in
  let riskScore := (riskScore + summary_riskScore compatibilityReport)%float in
  Math_min (Math_round (riskScore / js_of_nat (List.length licenseAnalyses))%float)
           100%float.

(** [determineOverallRisk]. *)
Definition determineOverallRisk (riskScore : float) : LegalRiskLevel.t :=
  if js_ge riskScore 80 then LegalRiskLevel.CRITICAL
  else if js_ge riskScore 60 then LegalRiskLevel.VERY_HIGH
  else if js_ge riskScore 40 then LegalRiskLevel.HIGH
  else if js_ge riskScore 20 then LegalRiskLevel.MEDIUM
  else if js_ge riskScore 10 then LegalRiskLevel.LOW
  else LegalRiskLevel.VERY_LOW.

Inductive RiskCategory : Set :=
  license_compatibility | patent_risk | compliance | litigation | governance.

Inductive Likelihood : Set :=
  lk_very_low | lk_low | lk_medium | lk_high | lk_very_high.

Record RiskFactor : Type := mkRiskFactor {
  rf_category : RiskCategory;
  rf_description : string;
  rf_impact : Severity;
  rf_likelihood : Likelihood;
  rf_riskScore : nat;
  rf_mitigation : string
}.

(** [identifyRiskFactors]. *)
Definition identifyRiskFactors
    (licenseAnalyses : list LicenseAnalysis) (compatibilityReport : CompatibilityReport)
    : list RiskFactor :=
  let riskFactors : list RiskFactor := [] in
  let nConflicts := List.length (conflicts compatibilityReport) in
  let riskFactors :=
    if (0 <? nConflicts)%nat
    then riskFactors ++
         [mkRiskFactor license_compatibility
            (nat_to_string nConflicts
               ++ " license compatibility conflicts detected")%string
            sev_critical lk_high (nConflicts * 20)%nat
            "Remove conflicting dependencies or find compatible alternatives"]
    else riskFactors in
  let copyleftLicenses :=
    filter (fun a =>
              existsb (fun l => String.eqb (LicenseCategory.value (category l))
                                           "copyleft")
                      (licenses a))
           licenseAnalyses in
  let riskFactors :=
    if (0 <? List.length copyleftLicenses)%nat
    then riskFactors ++
         [mkRiskFactor compliance
            (nat_to_string (List.length copyleftLicenses)
               ++ " packages with copyleft licenses requiring compliance")%string
            sev_high lk_medium (List.length copyleftLicenses * 10)%nat
            "Implement proper compliance procedures for license obligations"]
    else riskFactors in
  let unknownLicenses :=
    filter (fun a => (List.length (licenses a) =? 0)%nat) licenseAnalyses in
  let riskFactors :=
    if (0 <? List.length unknownLicenses)%nat
    then riskFactors ++
         [mkRiskFactor governance
            (nat_to_string (List.length unknownLicenses)
               ++ " packages with unknown or missing licenses")%string
            sev_high lk_high (List.length unknownLicenses * 15)%nat
            "Contact package maintainers to clarify licensing or find alternatives"]
    else riskFactors in
  riskFactors.

Record JurisdictionRisk : Type := mkJurisdictionRisk {
  jurisdiction : string;
  jr_riskLevel : LegalRiskLevel.t;
  specificRisks : list string
}.

(** [assessJurisdictionRisks]. *)
Definition assessJurisdictionRisks (licenseAnalyses : list LicenseAnalysis)
    : list JurisdictionRisk :=
  let hasAGPL :=
    existsb (fun a => existsb (fun l => String_includes (spdxId l) "AGPL")
                              (licenses a))
            licenseAnalyses in
  if hasAGPL
  then [mkJurisdictionRisk "Global" LegalRiskLevel.HIGH
          ["AGPL network copyleft obligations for web services"%string]]
  else [].

Record PatentRisk : Type := mkPatentRisk {
  pr_license : License;
  patentClauses : list string;
  riskDescription : string;
  pr_riskLevel : LegalRiskLevel.t
}.

(** [assessPatentRisks]. *)
Definition assessPatentRisks (licenseAnalyses : list LicenseAnalysis)
    : list PatentRisk :=
  fold_left
    (fun patentRisks analysis =>
       fold_left
         (fun patentRisks license =>
            if existsb (fun o => String.eqb (ObligationType.value o) "patent_grant")
                       (obligations license)
            then patentRisks ++
                 [mkPatentRisk license
                    ["Patent grant and termination clauses"%string]
                    "License includes patent provisions that may affect patent strategy"
                    LegalRiskLevel.MEDIUM]
            else patentRisks)
         (licenses analysis) patentRisks)
    licenseAnalyses [].

Inductive RequirementStatus : Set :=
  rs_pending | rs_in_progress | rs_completed | rs_overdue.

Record ComplianceRequirement : Type := mkRequirement {
  requirement : string;
  responsible : string;
  status : RequirementStatus
}.

(** [generateComplianceRequirements]. *)
Definition generateComplianceRequirements (licenseAnalyses : list LicenseAnalysis)
    : list ComplianceRequirement :=
  let requirements : list ComplianceRequirement := [] in
  let hasAttribution :=
    existsb (fun a =>
               existsb (fun o => String.eqb (ObligationType.value (ob_type o))
                                            "attribution")
                       (an_obligations a))
            licenseAnalyses in
  let requirements :=
    if hasAttribution
    then requirements ++
         [mkRequirement "Create and maintain attribution documentation"
                        "Development Team" rs_pending]
    else requirements in
  let hasSourceDisclosure :=
    existsb (fun a =>
               existsb (fun o => String.eqb (ObligationType.value (ob_type o))
                                            "disclose_source")
                       (an_obligations a))
            licenseAnalyses in
  let requirements :=
    if hasSourceDisclosure
    then requirements ++
         [mkRequirement "Implement source code disclosure procedures"
                        "Legal Team" rs_pending]
    else requirements in
  requirements.

Inductive Urgency : Set := urg_low | urg_medium | urg_high | urg_urgent.

Record LegalReview : Type := mkLegalReview {
  required : bool;
  urgency : Urgency;
  scope : list string;
  estimatedHours : nat
}.

(** [assessLegalReviewNeeds]. *)
Definition assessLegalReviewNeeds
    (overallRisk : LegalRiskLevel.t) (riskFactors : list RiskFactor)
    : LegalReview :=
  let criticalFactors :=
    filter (fun f => match rf_impact f with sev_critical => true | _ => false end)
           riskFactors in
  let compatibilityFactors :=
    filter (fun f => match rf_category f with
                     | license_compatibility => true
                     | _ => false
                     end)
           riskFactors in
  let required := false in
  let urgency := urg_low in
  let scope : list string := [] in
  let '(required, urgency, scope) :=
    if LegalRiskLevel.eqb overallRisk LegalRiskLevel.CRITICAL
       || (0 <? List.length criticalFactors)%nat
    then (true, urg_urgent, scope ++ ["Critical risk mitigation"%string])
    else (required, urgency, scope) in
  let '(required, urgency, scope) :=
    if (0 <? List.length compatibilityFactors)%nat
    then (true,
          match urgency with urg_urgent => urg_urgent | _ => urg_high end,
          scope ++ ["License compatibility analysis"%string])
    else (required, urgency, scope) in
  let '(required, urgency, scope) :=
    if LegalRiskLevel.eqb overallRisk LegalRiskLevel.HIGH
       || LegalRiskLevel.eqb overallRisk LegalRiskLevel.VERY_HIGH
    then (true,
          match urgency with
          | urg_urgent => urg_urgent
          | urg_high => urg_high
          | _ => urg_medium
          end,
          scope ++ ["General license compliance review"%string])
    else (required, urgency, scope) in
  mkLegalReview required urgency scope (List.length scope * 4)%nat.

Record LegalRiskReport : Type := mkLegalRiskReport {
  project_name : string;
  project_version : option string;
  overallRisk : LegalRiskLevel.t;
  riskScore : float;
  riskFactors : list RiskFactor;
  jurisdictionRisks : list JurisdictionRisk;
  patentRisks : list PatentRisk;
  complianceRequirements : list ComplianceRequirement;
  legalReview : LegalReview
}.

(** The key under which [groupAnalysesByLicense] files an analysis:
    [analysis.licenses[0]?.spdxId || 'Unknown']. *)
Definition groupKey (analysis : LicenseAnalysis) : string :=
  match licenses analysis with
  | l :: _ => if truthy (spdxId l) then spdxId l else "Unknown"
  | [] => "Unknown"
  end.

(** [groupAnalysesByLicense]. *)
Definition groupAnalysesByLicense (licenseAnalyses : list LicenseAnalysis)
    : list (string * list LicenseAnalysis) :=
  fold_left
    (fun groups analysis =>
       let primaryLicense := groupKey analysis in
       let groups :=
         if negb (Map_has String.eqb groups primaryLicense)
         then Map_set String.eqb groups primaryLicense []
         else groups in
       match Map_get String.eqb groups primaryLicense with
       | Some members =>
           Map_set String.eqb groups primaryLicense (members ++ [analysis])
       | None => groups
       end)
    licenseAnalyses [].

Section Services.
Context (host : Host) (run : Run).

Local Open Scope io_scope.

(** [analyzeLicense] up to the first [await] of the detector. *)
Definition analyzeLicense_begin (pkg : Package) : World -> Z * World :=
  fun w =>
    detectLicense_begin run pkg
      (mkWorld (ticks w) (log w ++ [AnalyzeStart (pkg_name pkg) (pkg_version pkg)])).

(** [analyzeLicense] from there on. *)
Definition analyzeLicense_resume
    (pkg : Package) (options : option LicenseScanOptions) (startTime : Z)
    : M LicenseAnalysis :=
  let detectorOptions :=
    match options with Some o => o | None => getDefaultOptions end in
  try_catch
    (analysis <- detectLicense_resume host run pkg detectorOptions startTime ;;
     logger (AnalyzeCompleted (pkg_name pkg) (List.length (licenses analysis))) ;;
     ret analysis)
    (fun error =>
       logger (AnalyzeFailed (pkg_name pkg) error) ;;
       throw error).

(** [analyzeLicense]. *)
Definition analyzeLicense (pkg : Package) (options : option LicenseScanOptions)
    : M LicenseAnalysis :=
  fun w =>
    let '(startTime, w) := analyzeLicense_begin pkg w in
    analyzeLicense_resume pkg options startTime w.

Definition batchSize : nat := 10.

(** [batch.map(pkg => this.analyzeLicense(pkg, options))]: every call
    runs to its first [await], in the order of the batch. *)
Fixpoint startBatch (batch : list Package) (pos : nat) (w : World)
    : list Pending * World :=
  match batch with
  | [] => ([], w)
  | pkg :: rest =>
      let '(startTime, w) := analyzeLicense_begin pkg w in
      let '(pending, w) := startBatch rest (S pos) w in
      (mkPending pos pkg startTime :: pending, w)
  end.

(** The pending calls finish one after the other in the given order.  A
    call is resumed in one piece, so the entries it writes from its first
    [await] on stay together; in the program the entries of the calls of
    one batch may alternate.  What is stated about a batch does not depend
    on this: it is stated of the results, of the start and the end of
    each call, of the failures a batch reports and of the last entry. *)
Fixpoint settleBatch
    (options : option LicenseScanOptions) (order : list Pending) (w : World)
    : list (nat * Outcome LicenseAnalysis) * World :=
  match order with
  | [] => ([], w)
  | p :: rest =>
      let '(result, w) :=
        analyzeLicense_resume (pending_pkg p) options (pending_start p) w in
      let '(settled, w) := settleBatch options rest w in
      ((position p, result) :: settled, w)
  end.

(** [Promise.allSettled]: the results by position, whatever the order in
    which they arrived. *)
Definition allSettled (n : nat) (settled : list (nat * Outcome LicenseAnalysis))
    : list (Outcome LicenseAnalysis) :=
  flat_map
    (fun i => match Map_get Nat.eqb settled i with
              | Some result => [result]
              | None => []
              end)
    (seq 0 n).

(** The loop over [batchResults]. *)
Definition collectBatch
    (batchResults : list (Outcome LicenseAnalysis))
    (st : list LicenseAnalysis * World) : list LicenseAnalysis * World :=
  fold_left
    (fun st result =>
       let '(analyses, w) := st in
       match result with
       | Fulfilled value => (analyses ++ [value], w)
       | Rejected reason =>
           (analyses, mkWorld (ticks w) (log w ++ [BatchItemFailed reason]))
       end)
    batchResults st.

(** One turn of the loop of [analyzeLicenses]. *)
Definition processBatch
    (batch : list Package) (options : option LicenseScanOptions)
    (st : list LicenseAnalysis * World) : list LicenseAnalysis * World :=
  let '(analyses, w) := st in
  let '(pending, w) := startBatch batch 0 w in
  let order := settle_order (scheduler run) Pending (ticks w) pending in
  let '(settled, w) := settleBatch options order w in
  let batchResults := allSettled (List.length batch) settled in
  collectBatch batchResults (analyses, w).

(** [for (let i = 0; i < packages.length; i += batchSize)]. *)
Equations? analyzeLicenses_loop
    (packages : list Package) (options : option LicenseScanOptions)
    (i : nat) (st : list LicenseAnalysis * World)
    : list LicenseAnalysis * World by wf (List.length packages - i)%nat lt :=
  analyzeLicenses_loop packages options i st with lt_dec i (List.length packages) => {
    | left _ =>
        analyzeLicenses_loop packages options (i + batchSize)%nat
          (processBatch (slice packages i (i + batchSize)) options st);
    | right _ => st }.
Proof. unfold batchSize. lia. Qed.

(** [analyzeLicenses]. *)
Definition analyzeLicenses
    (packages : list Package) (options : option LicenseScanOptions)
    : M (list LicenseAnalysis) :=
  startTime <- Date_now run ;;
  logger (BatchStart (List.length packages)) ;;
  try_catch
    (analyses <- (fun w =>
                    let '(analyses, w) :=
                      analyzeLicenses_loop packages options 0 ([], w) in
                    (Fulfilled analyses, w)) ;;
     now <- Date_now run ;;
     logger (BatchCompleted (now - startTime)
                            (List.length analyses) (List.length packages)) ;;
     ret analyses)
    (fun error =>
       logger (BatchFailed error) ;;
       throw error).

(** The body of the inner loop of [validatePolicy], for one license of
    one analysis. *)
Definition checkLicense
    (policy : LicensePolicy) (analysis : LicenseAnalysis)
    (violations : list Violation) (license : License) : list Violation :=
  let violations :=
    if includes (prohibitedLicenses policy) (spdxId license)
    then violations ++
         [mkViolation (an_name analysis) (spdxId license)
            "License is explicitly prohibited" critical]
    else violations in
  let violations :=
    if includes (reviewRequiredLicenses policy) (spdxId license)
       && negb (includes (allowedLicenses policy) (spdxId license))
    then violations ++
         [mkViolation (an_name analysis) (spdxId license)
            "License requires legal review" warning]
    else violations in
  let categoryRule :=
    find (fun rule => LicenseCategory.eqb (cr_category rule) (category license))
         (categoryRules policy) in
  let violations :=
    match categoryRule with
    | Some rule =>
        if String.eqb (cr_action rule) "prohibit"
        then violations ++
             [mkViolation (an_name analysis) (spdxId license)
                ("License category '" ++ LicenseCategory.value (category license)
                   ++ "' is prohibited")%string error]
        else violations
    | None => violations
    end in
  let violations :=
    if LegalRiskLevel.eqb (riskLevel analysis) LegalRiskLevel.CRITICAL
       && negb (LegalRiskLevel.eqb (maximumRiskLevel policy) LegalRiskLevel.CRITICAL)
    then violations ++
         [mkViolation (an_name analysis) (spdxId license)
            "License risk level exceeds policy tolerance" critical]
    else violations in
  violations.

(** The two nested loops of [validatePolicy]. *)
Definition checkAnalyses
    (policy : LicensePolicy) (licenseAnalyses : list LicenseAnalysis)
    : list Violation :=
  fold_left
    (fun violations analysis =>
       fold_left (checkLicense policy analysis) (licenses analysis) violations)
    licenseAnalyses [].

(** [validatePolicy]. *)
Definition validatePolicy (packages : list Package) (policy : LicensePolicy)
    : M PolicyResult :=
  startTime <- Date_now run ;;
  logger (PolicyStart (List.length packages) (policy_name policy)) ;;
  try_catch
    (licenseAnalyses <- analyzeLicenses packages None ;;
     let violations := checkAnalyses policy licenseAnalyses in
     let compliant := (List.length violations =? 0)%nat in
     now <- Date_now run ;;
     let scanDuration := now - startTime in
     logger (PolicyCompleted scanDuration compliant (List.length violations)) ;;
     ret (mkPolicyResult compliant violations))
    (fun error =>
       logger (PolicyFailed error) ;;
       throw error).

(** [assessLegalRisk] of the service. *)
Definition assessLegalRisk
    (packages : list Package) (options : option LicenseScanOptions)
    : M LegalRiskReport :=
  startTime <- Date_now run ;;
  logger (RiskStart (List.length packages)) ;;
  try_catch
    (licenseAnalyses <- analyzeLicenses packages options ;;
     compatibilityReport <-
       lift (generateCompatibilityReport host packages licenseAnalyses options) ;;
     let riskScore := calculateRiskScore licenseAnalyses compatibilityReport in
     let overallRisk := determineOverallRisk riskScore in
     let riskFactors := identifyRiskFactors licenseAnalyses compatibilityReport in
     let jurisdictionRisks := assessJurisdictionRisks licenseAnalyses in
     let patentRisks := assessPatentRisks licenseAnalyses in
     let complianceRequirements := generateComplianceRequirements licenseAnalyses in
     let legalReview := assessLegalReviewNeeds overallRisk riskFactors in
     let riskReport :=
       mkLegalRiskReport
         (match packages with
          | p :: _ => if truthy (pkg_name p) then pkg_name p else "Unknown Project"
          | [] => "Unknown Project"
          end)
         (match packages with
          | p :: _ => if truthy (pkg_version p) then Some (pkg_version p) else None
          | [] => None
          end)
         overallRisk riskScore riskFactors jurisdictionRisks patentRisks
         complianceRequirements legalReview in
     now <- Date_now run ;;
     logger (RiskCompleted (now - startTime) overallRisk) ;;
     ret riskReport)
    (fun error =>
       logger (RiskFailed error) ;;
       throw error).

(** [`${analysis.package.name}@${analysis.package.version}`]. *)
Definition nameAtVersion (analysis : LicenseAnalysis) : string :=
  (an_name analysis ++ "@" ++ an_version analysis)%string.

(** [analysis.licenses.map(l => l.spdxId).join(sep)]. *)
Definition licenseIds (sep : string) (analysis : LicenseAnalysis) : string :=
  join sep (map spdxId (licenses analysis)).

(** [generateTextDocument]. *)
Definition generateTextDocument
    (licenseAnalyses : list LicenseAnalysis) (options : ComplianceDocumentOptions)
    : M string :=
  let document := EmptyString in
  let document :=
    if truthy_opt (customHeader options)
    then (document ++ or_empty (customHeader options) ++ LF ++ LF)%string
    else document in
  let document := (document ++ "LICENSE COMPLIANCE REPORT" ++ LF)%string in
  let document := (document ++ String_repeat "=" 24 ++ LF ++ LF)%string in
  now <- Date_now run ;;
  let document :=
    (document ++ "Generated: " ++ toISOString host now ++ LF ++ LF)%string in
  let document :=
    if groupByLicense options
    then
      let licenseGroups := groupAnalysesByLicense licenseAnalyses in
      fold_left
        (fun document group =>
           let '(licenseId, analyses) := group in
           let document := (document ++ "LICENSE: " ++ licenseId ++ LF)%string in
           let document := (document ++ String_repeat "-" 20 ++ LF)%string in
           let document :=
             fold_left
               (fun document analysis =>
                  (document ++ "- " ++ nameAtVersion analysis ++ LF)%string)
               analyses document in
           let firstText :=
             match analyses with
             | a :: _ => match licenses a with
                         | l :: _ => fullText l
                         | [] => None
                         end
             | [] => None
             end in
           let document :=
             if includeLicenseTexts options && truthy_opt firstText
             then (document ++ LF ++ "License Text:" ++ LF
                     ++ or_empty firstText ++ LF)%string
             else document in
           (document ++ LF)%string)
        licenseGroups document
    else
      fold_left
        (fun document analysis =>
           let document :=
             (document ++ "Package: " ++ nameAtVersion analysis ++ LF)%string in
           let document :=
             (document ++ "Licenses: " ++ licenseIds ", " analysis ++ LF)%string in
           let document :=
             if includeCopyrightNotices options
                && (0 <? List.length (copyrightStatements analysis))%nat
             then (document ++ "Copyright: "
                     ++ join "; " (copyrightStatements analysis) ++ LF)%string
             else document in
           (document ++ LF)%string)
        licenseAnalyses document in
  let document :=
    if truthy_opt (customFooter options)
    then (document ++ or_empty (customFooter options))%string
    else document in
  ret document.

(** [generateHtmlDocument]. *)
Definition generateHtmlDocument
    (licenseAnalyses : list LicenseAnalysis) (options : ComplianceDocumentOptions)
    : M string :=
  let html := ("<!DOCTYPE html>" ++ LF ++ "<html>" ++ LF ++ "<head>" ++ LF)%string in
  let html := (html ++ "<title>License Compliance Report</title>" ++ LF)%string in
  let html :=
    (html ++ "<style>body { font-family: Arial, sans-serif; margin: 20px; }</style>"
       ++ LF)%string in
  let html := (html ++ "</head>" ++ LF ++ "<body>" ++ LF)%string in
  let html :=
    if truthy_opt (customHeader options)
    then (html ++ or_empty (customHeader options) ++ LF)%string
    else html in
  let html := (html ++ "<h1>License Compliance Report</h1>" ++ LF)%string in
  now <- Date_now run ;;
  let html :=
    (html ++ "<p>Generated: " ++ toISOString host now ++ "</p>" ++ LF)%string in
  let html :=
    if groupByLicense options
    then
      let licenseGroups := groupAnalysesByLicense licenseAnalyses in
      fold_left
        (fun html group =>
           let '(licenseId, analyses) := group in
           let html :=
             (html ++ "<h2>" ++ licenseId ++ "</h2>" ++ LF ++ "<ul>" ++ LF)%string in
           let html :=
             fold_left
               (fun html analysis =>
                  (html ++ "<li>" ++ nameAtVersion analysis ++ "</li>" ++ LF)%string)
               analyses html in
           (html ++ "</ul>" ++ LF)%string)
        licenseGroups html
    else
      let html :=
        (html ++ "<table border=" ++ DQ ++ "1" ++ DQ ++ ">" ++ LF
           ++ "<tr><th>Package</th><th>Version</th><th>License</th></tr>"
           ++ LF)%string in
      let html :=
        fold_left
          (fun html analysis =>
             (html ++ "<tr><td>" ++ an_name analysis ++ "</td><td>"
                ++ an_version analysis ++ "</td><td>"
                ++ licenseIds ", " analysis ++ "</td></tr>" ++ LF)%string)
          licenseAnalyses html in
      (html ++ "</table>" ++ LF)%string in
  let html :=
    if truthy_opt (customFooter options)
    then (html ++ or_empty (customFooter options))%string
    else html in
  ret (html ++ "</body>" ++ LF ++ "</html>")%string.

(** [generateMarkdownDocument]. *)
Definition generateMarkdownDocument
    (licenseAnalyses : list LicenseAnalysis) (options : ComplianceDocumentOptions)
    : M string :=
  let markdown := EmptyString in
  let markdown :=
    if truthy_opt (customHeader options)
    then (markdown ++ or_empty (customHeader options) ++ LF ++ LF)%string
    else markdown in
  let markdown := (markdown ++ "# License Compliance Report" ++ LF ++ LF)%string in
  now <- Date_now run ;;
  let markdown :=
    (markdown ++ "Generated: " ++ toISOString host now ++ LF ++ LF)%string in
  let markdown :=
    if groupByLicense options
    then
      let licenseGroups := groupAnalysesByLicense licenseAnalyses in
      fold_left
        (fun markdown group =>
           let '(licenseId, analyses) := group in
           let markdown := (markdown ++ "## " ++ licenseId ++ LF ++ LF)%string in
           let markdown :=
             fold_left
               (fun markdown analysis =>
                  (markdown ++ "- " ++ nameAtVersion analysis ++ LF)%string)
               analyses markdown in
           (markdown ++ LF)%string)
        licenseGroups markdown
    else
      let markdown := (markdown ++ "| Package | Version | License |" ++ LF)%string in
      let markdown := (markdown ++ "|---------|---------|----------|" ++ LF)%string in
      fold_left
        (fun markdown analysis =>
           (markdown ++ "| " ++ an_name analysis ++ " | " ++ an_version analysis
              ++ " | " ++ licenseIds ", " analysis ++ " |" ++ LF)%string)
        licenseAnalyses markdown in
  let markdown :=
    if truthy_opt (customFooter options)
    then (markdown ++ LF ++ or_empty (customFooter options))%string
    else markdown in
  ret markdown.

(** The object literal [report] of [generateJsonDocument]. *)
Definition jsonReport (generatedAt : string) (licenseAnalyses : list LicenseAnalysis)
    : JsonReport :=
  mkJsonReport generatedAt
    (map (fun analysis =>
            mkJsonPackage (an_name analysis) (an_version analysis)
              (map (fun license =>
                      mkJsonLicense (spdxId license) (name license)
                                    (category license) (url license))
                   (licenses analysis))
              (copyrightStatements analysis)
              (riskLevel analysis))
         licenseAnalyses).

(** [generateJsonDocument]. *)
Definition generateJsonDocument
    (licenseAnalyses : list LicenseAnalysis) (_options : ComplianceDocumentOptions)
    : M string :=
  now <- Date_now run ;;
  let report := jsonReport (toISOString host now) licenseAnalyses in
  ret (JSON_stringify host report).

(** [generateComplianceDocument]. *)
Definition generateComplianceDocument
    (packages : list Package) (options : ComplianceDocumentOptions)
    : M string :=
  startTime <- Date_now run ;;
  logger (DocumentStart (List.length packages)) ;;
  try_catch
    (licenseAnalyses <- analyzeLicenses packages None ;;
     document <-
       (if String.eqb (format options) "text"
        then generateTextDocument licenseAnalyses options
        else if String.eqb (format options) "html"
        then generateHtmlDocument licenseAnalyses options
        else if String.eqb (format options) "markdown"
        then generateMarkdownDocument licenseAnalyses options
        else if String.eqb (format options) "json"
        then generateJsonDocument licenseAnalyses options
        else throw (JsError ("Unsupported document format: "
                               ++ format options)%string)) ;;
     now <- Date_now run ;;
     logger (DocumentCompleted (now - startTime) (format options)) ;;
     ret document)
    (fun error =>
       logger (DocumentFailed error) ;;
       throw error).

End Services.

End Service.

(** ** Views of a run used in the statements *)

(** The head of a list sorted by descending confidence dominates the
    rest. *)
Definition headDominates (l : list License) : Prop :=
  match l with
  | [] => True
  | h :: t => forall z, In z t -> (confidence z <= confidence h)%Q
  end.

(** An analysis without the two readings of the clock it carries. *)
Definition forget (a : LicenseAnalysis) : LicenseAnalysis :=
  mkAnalysis (an_name a) (an_version a) (licenses a) (primaryLicense a)
    (detectionMethod a) (licenseFiles a) (copyrightStatements a)
    (an_obligations a) (riskLevel a) (issues a)
    (mkMetadata 0 (analyzer (metadata a)) (analyzer_version (metadata a)) 0).

Definition forgetOutcome (o : Outcome LicenseAnalysis) : Outcome LicenseAnalysis :=
  match o with
  | Fulfilled a => Fulfilled (forget a)
  | Rejected e => Rejected e
  end.

(** What a detection yields for a package, the clock left out: the
    analysis, or the error [detectLicense] throws. *)
Definition detection (host : Host) (options : option LicenseScanOptions)
    (pkg : Package) : Outcome LicenseAnalysis :=
  match Detector.detectDeclaredLicense host pkg with
  | Fulfilled d =>
      Fulfilled
        (Detector.analysisOf host pkg
           (match options with Some o => o | None => Detector.getDefaultOptions end)
           d 0 0)
  | Rejected e => Rejected (Detector.detectionFailed pkg e)
  end.

(** The values of the fulfilled results, in order. *)
Definition fulfilledValues {A} (results : list (Outcome A)) : list A :=
  flat_map (fun r => match r with Fulfilled v => [v] | Rejected _ => [] end) results.

(** The reasons of the rejected results, in order. *)
Definition rejectedReasons {A} (results : list (Outcome A)) : list Thrown :=
  flat_map (fun r => match r with Fulfilled _ => [] | Rejected e => [e] end) results.

(** The packages whose detection fails. *)
Definition failing (host : Host) (options : option LicenseScanOptions)
    (packages : list Package) : list Package :=
  filter (fun p => negb (isFulfilled (detection host options p))) packages.

(** The two moments of a call of [analyzeLicense] that the log shows: its
    start, and its end (with a result or with an error). *)
Inductive Step : Type :=
| Started (pkg : string)
| Settled (pkg : string).

Definition steps (entries : list LogEvent) : list Step :=
  flat_map
    (fun e => match e with
              | AnalyzeStart pkg _ => [Started pkg]
              | AnalyzeCompleted pkg _ => [Settled pkg]
              | AnalyzeFailed pkg _ => [Settled pkg]
              | _ => []
              end)
    entries.

(** The four checks of [validatePolicy] for one pair, side by side. *)
Definition checkedViolations
    (policy : LicensePolicy) (a : LicenseAnalysis) (l : License) : list Violation :=
  (if includes (prohibitedLicenses policy) (spdxId l)
   then [mkViolation (an_name a) (spdxId l)
           "License is explicitly prohibited" critical]
   else [])
  ++ (if includes (reviewRequiredLicenses policy) (spdxId l)
         && negb (includes (allowedLicenses policy) (spdxId l))
      then [mkViolation (an_name a) (spdxId l)
              "License requires legal review" warning]
      else [])
  ++ (match find (fun rule => LicenseCategory.eqb (cr_category rule) (category l))
                 (categoryRules policy) with
      | Some rule =>
          if String.eqb (cr_action rule) "prohibit"
          then [mkViolation (an_name a) (spdxId l)
                  ("License category '" ++ LicenseCategory.value (category l)
                     ++ "' is prohibited") error]
          else []
      | None => []
      end)
  ++ (if LegalRiskLevel.eqb (riskLevel a) LegalRiskLevel.CRITICAL
         && negb (LegalRiskLevel.eqb (maximumRiskLevel policy) LegalRiskLevel.CRITICAL)
      then [mkViolation (an_name a) (spdxId l)
              "License risk level exceeds policy tolerance" critical]
      else []).

(** The concatenation of a list of strings. *)
Definition concatAll (parts : list string) : string :=
  fold_right String.append EmptyString parts.

(** [analyses[0]?.licenses[0]?.fullText] *)
Definition firstFullText (analyses : list LicenseAnalysis) : option string :=
  match analyses with
  | a :: _ => match licenses a with
              | l :: _ => fullText l
              | [] => None
              end
  | [] => None
  end.

(** What the grouped layout of each format writes for one group. *)
Definition textGroup (options : ComplianceDocumentOptions)
    (group : string * list LicenseAnalysis) : string :=
  ("LICENSE: " ++ fst group ++ LF
   ++ String_repeat "-" 20 ++ LF
   ++ concatAll (map (fun a => "- " ++ Service.nameAtVersion a ++ LF) (snd group))
   ++ (if includeLicenseTexts options && truthy_opt (firstFullText (snd group))
       then LF ++ "License Text:" ++ LF
            ++ or_empty (firstFullText (snd group)) ++ LF
       else EmptyString)
   ++ LF)%string.

Definition htmlGroup (group : string * list LicenseAnalysis) : string :=
  ("<h2>" ++ fst group ++ "</h2>" ++ LF ++ "<ul>" ++ LF
   ++ concatAll (map (fun a => "<li>" ++ Service.nameAtVersion a ++ "</li>" ++ LF)
                     (snd group))
   ++ "</ul>" ++ LF)%string.

Definition markdownGroup (group : string * list LicenseAnalysis) : string :=
  ("## " ++ fst group ++ LF ++ LF
   ++ concatAll (map (fun a => "- " ++ Service.nameAtVersion a ++ LF) (snd group))
   ++ LF)%string.

(** The analyses filed under a key. *)
Definition withKey (k : string) (analyses : list LicenseAnalysis)
    : list LicenseAnalysis :=
  filter (fun a => String.eqb (Service.groupKey a) k) analyses.

(** What the map of [groupAnalysesByLicense] holds after the analyses
    [seen]: under every key that occurs, the analyses with that key, in
    order; nothing under any other key. *)
Definition groupsOf (seen : list LicenseAnalysis)
    (groups : list (string * list LicenseAnalysis)) : Prop :=
  NoDup (map fst groups)
  /\ forall k,
       Map_get String.eqb groups k
       = if existsb (fun a => String.eqb (Service.groupKey a) k) seen
         then Some (withKey k seen) else None.

(** Where the detector leaves the primary license at the head of the
    licenses of an analysis: a declared license was resolved, or there is
    at most one license, or no license is permissive. *)
Definition primaryLeads (a : LicenseAnalysis) : Prop :=
  detectionMethod a = declared
  \/ detectionMethod a = heuristic
  \/ (List.length (licenses a) <= 1)%nat
  \/ (forall l, In l (licenses a) -> category l <> LicenseCategory.PERMISSIVE).

(** ** The statements of the specification, in its own words *)

Module Spec.

(** "per-license category weights (permissive=1, weak_copyleft=3,
    copyleft=5, proprietary=10, custom=7, unknown=8, public_domain=0)" *)
Definition categoryWeight (c : LicenseCategory.t) : Z :=
  match c with
  | LicenseCategory.PERMISSIVE => 1
  | LicenseCategory.WEAK_COPYLEFT => 3
  | LicenseCategory.COPYLEFT => 5
  | LicenseCategory.PROPRIETARY => 10
  | LicenseCategory.CUSTOM => 7
  | LicenseCategory.UNKNOWN => 8
  | LicenseCategory.PUBLIC_DOMAIN => 0
  end.

(** "per-obligation severity weights (critical=10, high=5, medium=2, low=1)" *)
Definition severityWeight (s : Severity) : Z :=
  match s with
  | sev_critical => 10
  | sev_high => 5
  | sev_medium => 2
  | sev_low => 1
  end.

Definition sumZ (l : list Z) : Z := fold_right Z.add 0 l.

(** "sum of per-license category weights plus per-obligation severity
    weights" *)
Definition weightedScore
    (licenses : list License) (obligations : list LicenseObligation) : Z :=
  sumZ (map (fun l => categoryWeight (category l)) licenses)
  + sumZ (map (fun o => severityWeight (ob_severity o)) obligations).

(** "≥20 CRITICAL, ≥15 VERY_HIGH, ≥10 HIGH, ≥5 MEDIUM, ≥2 LOW, else
    VERY_LOW" *)
Inductive perLicenseLevel (s : Z) : LegalRiskLevel.t -> Prop :=
| pl_critical : 20 <= s -> perLicenseLevel s LegalRiskLevel.CRITICAL
| pl_very_high : 15 <= s < 20 -> perLicenseLevel s LegalRiskLevel.VERY_HIGH
| pl_high : 10 <= s < 15 -> perLicenseLevel s LegalRiskLevel.HIGH
| pl_medium : 5 <= s < 10 -> perLicenseLevel s LegalRiskLevel.MEDIUM
| pl_low : 2 <= s < 5 -> perLicenseLevel s LegalRiskLevel.LOW
| pl_very_low : s < 2 -> perLicenseLevel s LegalRiskLevel.VERY_LOW.

(** "(a) the declared license if it is present in the consolidated set" *)
Definition declaredPresent
    (licenses : list License) (declaredLicense : option License) (l : License)
    : Prop :=
  exists d, declaredLicense = Some d /\ In l licenses /\ spdxId l = spdxId d.

Definition declaredAbsent
    (licenses : list License) (declaredLicense : option License) : Prop :=
  forall d l, declaredLicense = Some d -> In l licenses -> spdxId l <> spdxId d.

(** "the one with highest confidence" among the licenses that satisfy [P] *)
Definition highestConfidence
    (P : License -> Prop) (licenses : list License) (l : License) : Prop :=
  In l licenses /\ P l /\
  forall l', In l' licenses -> P l' -> (confidence l' <= confidence l)%Q.

Definition permissive (l : License) : Prop :=
  category l = LicenseCategory.PERMISSIVE.

(** "tie-break order, first matching rule wins" *)
Inductive primaryRule
    (licenses : list License) (declaredLicense : option License)
    : License -> Prop :=
| rule_declared l :
    declaredPresent licenses declaredLicense l ->
    primaryRule licenses declaredLicense l
| rule_permissive l :
    declaredAbsent licenses declaredLicense ->
    highestConfidence permissive licenses l ->
    primaryRule licenses declaredLicense l
| rule_overall l :
    declaredAbsent licenses declaredLicense ->
    (forall l', In l' licenses -> ~ permissive l') ->
    highestConfidence (fun _ => True) licenses l ->
    primaryRule licenses declaredLicense l.

(** "any license carrying deprecated identifiers" *)
Definition carriesDeprecatedIds (l : License) : bool :=
  match deprecatedIds l with
  | Some (_ :: _) => true
  | _ => false
  end.

(** ">1 license AND (any proprietary alongside others, OR >1
    strict-copyleft license)" *)
Definition conflicting (licenses : list License) : Prop :=
  (1 < List.length licenses)%nat /\
  ((exists l, In l licenses /\ category l = LicenseCategory.PROPRIETARY)
   \/ (1 < List.length
              (filter (fun l => LicenseCategory.eqb (category l)
                                                    LicenseCategory.COPYLEFT)
                      licenses))%nat).

(** "a declared expression that resolved to nothing": the package carries
    an expression and the declared-license strategy returned no license. *)
Definition unresolvedDeclaration
    (pkg : Package) (declaredLicense : option License) : Prop :=
  (exists e, pkg_license pkg = Some e /\ e <> EmptyString) /\ declaredLicense = None.

Definition missingLicenseIssue : Issue :=
  mkIssue missing_license error "No license detected in package".

Definition conflictingLicensesIssue (licenses : list License) : Issue :=
  mkIssue conflicting_licenses critical
    ("Potentially incompatible licenses: " ++ join ", " (map spdxId licenses)).

Definition deprecatedLicenseIssue (l : License) : Issue :=
  mkIssue deprecated_license warning
    ("License " ++ spdxId l ++ " has deprecated identifiers").

Definition unrecognizedLicenseIssue (pkg : Package) : Issue :=
  mkIssue unrecognized_license warning
    ("Unrecognized license identifier: "
       ++ match pkg_license pkg with Some e => e | None => EmptyString end).

Definition isDeprecatedIssue (i : Issue) : bool :=
  match issue_type i with deprecated_license => true | _ => false end.

(** "Partitions packages into fixed-size batches (10) ... the service
    waits for the entire batch (success or failure per item) before
    starting the next batch": the first ten calls start, those ten settle
    in some order, and only then the remaining packages are dealt with. *)
Inductive BatchedTrace : list Package -> list Step -> Prop :=
| batched_done : BatchedTrace [] []
| batched_batch packages settles later :
    packages <> [] ->
    Permutation settles (map (fun p => Settled (pkg_name p)) (firstn 10 packages)) ->
    BatchedTrace (skipn 10 packages) later ->
    BatchedTrace packages
      (map (fun p => Started (pkg_name p)) (firstn 10 packages) ++ settles ++ later).

(** The (analysis, license) pairs in the order [validatePolicy] visits
    them. *)
Definition pairs (analyses : list LicenseAnalysis) : list (LicenseAnalysis * License) :=
  flat_map (fun a => map (fun l => (a, l)) (licenses a)) analyses.

(** A rule that fires independently of the others: it contributes its
    violation when its condition holds and nothing otherwise. *)
Inductive emits (condition : Prop) (v : Violation) : list Violation -> Prop :=
| emits_yes : condition -> emits condition v [v]
| emits_no : ~ condition -> emits condition v [].

(** "spdxId ∈ prohibitedLicenses" *)
Definition prohibited (policy : LicensePolicy) (l : License) : Prop :=
  In (spdxId l) (prohibitedLicenses policy).

(** "spdxId ∈ reviewRequiredLicenses AND spdxId ∉ allowedLicenses" *)
Definition reviewRequired (policy : LicensePolicy) (l : License) : Prop :=
  In (spdxId l) (reviewRequiredLicenses policy)
  /\ ~ In (spdxId l) (allowedLicenses policy).

(** "a matching categoryRule with action=prohibit", as the claim has it:
    some rule for the category of the license prohibits it. *)
Definition someRuleProhibits (policy : LicensePolicy) (l : License) : Prop :=
  exists rule,
    In rule (categoryRules policy)
    /\ cr_category rule = category l
    /\ cr_action rule = "prohibit"%string.

(** The first rule for the category of the license prohibits it. *)
Definition firstRuleProhibits (policy : LicensePolicy) (l : License) : Prop :=
  exists before rule after,
    categoryRules policy = before ++ rule :: after
    /\ (forall r, In r before -> cr_category r <> category l)
    /\ cr_category rule = category l
    /\ cr_action rule = "prohibit"%string.

(** "analysis.riskLevel=CRITICAL AND
    policy.riskTolerance.maximumRiskLevel≠CRITICAL" *)
Definition riskExceeded (policy : LicensePolicy) (a : LicenseAnalysis) : Prop :=
  riskLevel a = LegalRiskLevel.CRITICAL
  /\ maximumRiskLevel policy <> LegalRiskLevel.CRITICAL.

(** "evaluate in fixed order, all firing independently": what one pair
    contributes, with the category rule read as the first match. *)
Definition pairViolations
    (policy : LicensePolicy) (pair : LicenseAnalysis * License)
    (vs : list Violation) : Prop :=
  let '(a, l) := pair in
  exists v1 v2 v3 v4,
    vs = v1 ++ v2 ++ v3 ++ v4
    /\ emits (prohibited policy l)
             (mkViolation (an_name a) (spdxId l)
                "License is explicitly prohibited" critical) v1
    /\ emits (reviewRequired policy l)
             (mkViolation (an_name a) (spdxId l)
                "License requires legal review" warning) v2
    /\ emits (firstRuleProhibits policy l)
             (mkViolation (an_name a) (spdxId l)
                ("License category '" ++ LicenseCategory.value (category l)
                   ++ "' is prohibited") error) v3
    /\ emits (riskExceeded policy a)
             (mkViolation (an_name a) (spdxId l)
                "License risk level exceeds policy tolerance" critical) v4.

(** "per-analysis risk weights (CRITICAL=20, VERY_HIGH=15, HIGH=10,
    MEDIUM=5, LOW=2, VERY_LOW=1)" *)
Definition riskWeight (r : LegalRiskLevel.t) : Z :=
  match r with
  | LegalRiskLevel.CRITICAL => 20
  | LegalRiskLevel.VERY_HIGH => 15
  | LegalRiskLevel.HIGH => 10
  | LegalRiskLevel.MEDIUM => 5
  | LegalRiskLevel.LOW => 2
  | LegalRiskLevel.VERY_LOW => 1
  end.

Definition totalRiskWeight (analyses : list LicenseAnalysis) : Z :=
  sumZ (map (fun a => riskWeight (riskLevel a)) analyses).

(** "round(mean(per-analysis risk weight) +
    compatibilityReport.summary.riskScore), clamped to [0,100]" *)
Definition claimedRiskScore
    (analyses : list LicenseAnalysis) (report : CompatibilityReport) : float :=
  let mean :=
    (js_of_Z (totalRiskWeight analyses) / js_of_nat (List.length analyses))%float in
  Math_max 0 (Math_min (Math_round (mean + summary_riskScore report)%float) 100).

(** The score with the compatibility score inside the division, capped
    at 100: the sum of the weights is an integer, the compatibility score
    is added to it and the sum is divided by the number of analyses in
    doubles, and the quotient is rounded to an integer. *)
Definition dividedRiskScore
    (analyses : list LicenseAnalysis) (report : CompatibilityReport) : float :=
  Math_min
    (Math_round
       ((js_of_Z (totalRiskWeight analyses) + summary_riskScore report)
          / js_of_nat (List.length analyses))%float)
    100.

(** "the project-level scale instead uses ≥80/60/40/20/10 on a 0–100
    normalized score"; a score that is not a number is below every
    breakpoint. *)
Inductive projectLevel (s : float) : LegalRiskLevel.t -> Prop :=
| pj_critical :
    (80 <=? s)%float = true -> projectLevel s LegalRiskLevel.CRITICAL
| pj_very_high :
    (60 <=? s)%float = true -> (s <? 80)%float = true ->
    projectLevel s LegalRiskLevel.VERY_HIGH
| pj_high :
    (40 <=? s)%float = true -> (s <? 60)%float = true ->
    projectLevel s LegalRiskLevel.HIGH
| pj_medium :
    (20 <=? s)%float = true -> (s <? 40)%float = true ->
    projectLevel s LegalRiskLevel.MEDIUM
| pj_low :
    (10 <=? s)%float = true -> (s <? 20)%float = true ->
    projectLevel s LegalRiskLevel.LOW
| pj_very_low :
    (s <? 10)%float = true \/ PrimFloat.is_nan s = true ->
    projectLevel s LegalRiskLevel.VERY_LOW.

End Spec.

(** ** Sample data *)

Module Examples.

Definition MIT : License :=
  mkLicense "MIT" "MIT License" LicenseCategory.PERMISSIVE
    [ObligationType.ATTRIBUTION; ObligationType.NOTICE_PRESERVATION]
    (1 # 2) None None None.

Definition GPL3 : License :=
  mkLicense "GPL-3.0-only" "GNU General Public License v3.0 only"
    LicenseCategory.COPYLEFT
    [ObligationType.COPYLEFT; ObligationType.DISCLOSE_SOURCE;
     ObligationType.SAME_LICENSE]
    (1 # 2) (Some ["GPL-3.0"%string]) None None.

Definition MPL2 : License :=
  mkLicense "MPL-2.0" "Mozilla Public License 2.0" LicenseCategory.WEAK_COPYLEFT
    [ObligationType.DISCLOSE_SOURCE; ObligationType.SAME_LICENSE;
     ObligationType.PATENT_GRANT; ObligationType.ATTRIBUTION;
     ObligationType.NOTICE_PRESERVATION]
    (1 # 2) None None None.

Definition textMIT : string := "MIT License".
Definition textGPL3 : string := "GNU GENERAL PUBLIC LICENSE Version 3".

(** The records of the store, by address, and the store: two entries;
    looking up ["corrupt-entry"] faults. *)
Definition sampleHeap : Refs.Heap := [MIT; GPL3].

Definition sampleRefs : Refs.RefStore :=
  fun id =>
    if String.eqb id "MIT" then Fulfilled (Some 0%nat)
    else if String.eqb id "GPL-3.0-only" then Fulfilled (Some 1%nat)
    else if String.eqb id "corrupt-entry"
         then Rejected (JsError "license database unavailable")
    else Fulfilled None.

Definition sampleStore : string -> Outcome (option License) :=
  Refs.view sampleRefs sampleHeap.

(** Three package roots: [/mit] holds an MIT [LICENSE]; [/gpl-mit] holds a
    GPL-3 [LICENSE] and an MIT [COPYING]; [/gpl] holds a GPL-3 [LICENSE]. *)
Definition sampleFiles (root file : string) : option string :=
  if String.eqb root "/mit" && String.eqb file "LICENSE" then Some textMIT
  else if String.eqb root "/gpl-mit" && String.eqb file "LICENSE" then Some textGPL3
  else if String.eqb root "/gpl-mit" && String.eqb file "COPYING" then Some textMIT
  else if String.eqb root "/gpl" && String.eqb file "LICENSE" then Some textGPL3
  else None.

(** The fingerprints restricted to the two texts above: [textMIT] is
    matched by the MIT pattern only, [textGPL3] by the GPL-3 pattern only. *)
Definition sampleRegex (source text : string) : bool :=
  (String.eqb source "MIT License|Permission is hereby granted, free of charge"
   && String.eqb text textMIT)
  || (String.eqb source "GNU GENERAL PUBLIC LICENSE.*Version 3"
      && String.eqb text textGPL3).

(** The strings of the examples carry no blanks at their ends, no runs of
    blanks, no [AND]/[OR] and no copyright line, so on them trimming and
    normalising are the identity, splitting yields the string itself and
    the copyright scan finds nothing. *)
Definition sampleHost : Host :=
  mkHost sampleStore sampleFiles sampleRegex
    (fun s => s) (fun s => s) (fun s => [s]) (fun _ => [])
    (fun _ _ _ => Fulfilled (mkCompatibilityReport [] "compatible" 10%float))
    (fun _ => "2026-01-01T00:00:00.000Z"%string)
    (fun report => generatedAt report).

Definition inOrder : Scheduler :=
  mkScheduler (fun A _ l => l) (fun A _ l => Permutation_refl l).

Definition lastFirst : Scheduler :=
  mkScheduler (fun A _ l => rev l)
              (fun A _ l => Permutation_sym (Permutation_rev l)).

Definition run1 : Run := mkRun (fun k => 1000 + Z.of_nat k) inOrder.
Definition run2 : Run := mkRun (fun k => 5000 + 7 * Z.of_nat k) lastFirst.

Definition world0 : World := mkWorld 0 [].

Definition pkgMIT : Package := mkPackage "left-pad" "1.0.0" (Some "MIT"%string) None.
Definition pkgGPL : Package :=
  mkPackage "readline" "8.0.0" None (Some "/gpl"%string).
Definition pkgDual : Package :=
  mkPackage "dual" "2.1.0" None (Some "/gpl-mit"%string).
Definition pkgBare : Package := mkPackage "bare" "0.0.1" None None.
Definition pkgFaulty : Package :=
  mkPackage "broken" "0.1.0" (Some "corrupt-entry"%string) None.

(** A policy whose category rules name copyleft twice. *)
Definition reviewThenProhibit : LicensePolicy :=
  mkPolicy "copyleft under review" [] [] []
    [mkCategoryRule LicenseCategory.COPYLEFT "review";
     mkCategoryRule LicenseCategory.COPYLEFT "prohibit"]
    LegalRiskLevel.CRITICAL.

(** A policy that prohibits GPL-3.0-only, puts MIT under review, prohibits
    two categories and tolerates nothing above LOW. *)
Definition strictPolicy : LicensePolicy :=
  mkPolicy "strict" ["GPL-3.0-only"%string] ["MIT"%string] []
    [mkCategoryRule LicenseCategory.COPYLEFT "prohibit";
     mkCategoryRule LicenseCategory.UNKNOWN "prohibit"]
    LegalRiskLevel.LOW.

(** The analysis of a package without any license, clock left out. *)
Definition bareAnalysis : LicenseAnalysis :=
  Detector.analysisOf sampleHost pkgBare Detector.getDefaultOptions None 0 0.

(** A compatibility report with a risk score of 10. *)
Definition calmReport : CompatibilityReport :=
  mkCompatibilityReport [] "compatible" 10%float.

Definition groupedText : ComplianceDocumentOptions :=
  mkDocumentOptions "text" true false false None None.

Definition groupedJson : ComplianceDocumentOptions :=
  mkDocumentOptions "json" true false false None None.

Definition flatJson : ComplianceDocumentOptions :=
  mkDocumentOptions "json" false false false None None.

(** The analysis of [dual], whose [LICENSE] is GPL-3 and whose [COPYING]
    is MIT, clock left out. *)
Definition dualAnalysis : LicenseAnalysis :=
  Detector.analysisOf sampleHost pkgDual Detector.getDefaultOptions None 0 0.

(** Twelve packages, the eleventh of which cannot be analysed. *)
Definition twelvePackages : list Package :=
  repeat pkgMIT 10 ++ [pkgFaulty; pkgBare].

End Examples.

(** ** Further notions used in the statements *)

(** A file entry whose own confidence does not exceed the one its license
    carries (the detector writes the same value in both places). *)
Definition coherentFile (f : LicenseFile) : Prop :=
  (lf_confidence f <= confidence (lf_license f))%Q.

(** The three confidences the detector attaches. *)
Definition detectorConfidence (c : Q) : Prop :=
  c = 1%Q \/ c = (8 # 10)%Q \/ c = (9 # 10)%Q.

(** The map of [consolidateLicenses] files every license under its own
    identifier, once. *)
Definition keyedById (m : list (string * License)) : Prop :=
  NoDup (map fst m) /\ forall k v, In (k, v) m -> spdxId v = k.

(** One turn of the loop of [consolidateLicenses]. *)
Definition consolidateStep (m : list (string * License)) (fileInfo : LicenseFile)
    : list (string * License) :=
  let key := spdxId (lf_license fileInfo) in
  match Map_get String.eqb m key with
  | None => Map_set String.eqb m key (lf_license fileInfo)
  | Some existing =>
      if Qlt_le_dec (orZero (confidence existing)) (lf_confidence fileInfo)
      then Map_set String.eqb m key (lf_license fileInfo)
      else m
  end.

(** What the map knows about an identifier [id] reported with confidence
    [c]: it holds a license under [id] with at least that confidence. *)
Definition covers (m : list (string * License)) (id : string) (c : Q) : Prop :=
  exists v, Map_get String.eqb m id = Some v /\ (c <= confidence v)%Q.

(** One turn of the inner loop of [calculateObligations]. *)
Definition obligationStep (license : License)
    (m : list (ObligationType.t * LicenseObligation)) (t : ObligationType.t)
    : list (ObligationType.t * LicenseObligation) :=
  if Map_has ObligationType.eqb m t then m
  else Map_set ObligationType.eqb m t (Detector.createObligation t license).

(** The map of [calculateObligations] holds, under each type once, the
    detail record of that type. *)
Definition detailedByType (m : list (ObligationType.t * LicenseObligation)) : Prop :=
  NoDup (map fst m)
  /\ forall t o, In (t, o) m -> forall l, o = Detector.createObligation t l.


(** The reasons of the failures a batch reports in the log, in order. *)
Definition itemFailures (entries : list LogEvent) : list Thrown :=
  flat_map
    (fun e => match e with BatchItemFailed reason => [reason] | _ => [] end)
    entries.

(** * Properties *)

(** ** Loops that only append *)

Lemma fold_left_emit {A B} (step : list A -> B -> list A) (emit : B -> list A) :
  (forall acc b, step acc b = acc ++ emit b) ->
  forall (l : list B) (acc : list A),
    fold_left step l acc = acc ++ flat_map emit l.
Proof.
  intros Hstep l. induction l as [|b bs IH]; intros acc; simpl.
  - now rewrite app_nil_r.
  - rewrite IH, Hstep, <- app_assoc. reflexivity.
Qed.

(** ** Sorting, and what an analysis is made of *)

Section DetectorBasics.
Import Detector.

Lemma orZero_eq (x : Q) : (orZero x == x)%Q.
Proof.
  unfold orZero. destruct (Qeq_bool x 0) eqn:E; [|reflexivity].
  apply Qeq_bool_eq in E. symmetry. exact E.
Qed.

Lemma byConfidenceDesc_le (a b : License) :
  Qle_bool (byConfidenceDesc a b) 0 = true <-> (confidence b <= confidence a)%Q.
Proof.
  rewrite Qle_bool_iff. unfold byConfidenceDesc.
  pose proof (orZero_eq (confidence a)). pose proof (orZero_eq (confidence b)).
  split; intros; lra.
Qed.

Lemma In_sort_insert {A} (cmp : A -> A -> Q) (x z : A) (s : list A) :
  In z (sort_insert cmp x s) <-> z = x \/ In z s.
Proof.
  induction s as [|y ys IH]; simpl.
  - intuition.
  - destruct (Qle_bool (cmp x y) 0); simpl; [intuition|].
    rewrite IH. intuition.
Qed.

Lemma In_Array_sort {A} (cmp : A -> A -> Q) (z : A) (l : list A) :
  In z (Array_sort cmp l) <-> In z l.
Proof.
  induction l as [|x xs IH]; simpl; [tauto|].
  rewrite In_sort_insert, IH. intuition.
Qed.

Lemma length_sort_insert {A} (cmp : A -> A -> Q) (x : A) (s : list A) :
  List.length (sort_insert cmp x s) = S (List.length s).
Proof.
  induction s as [|y ys IH]; [reflexivity|].
  simpl. destruct (Qle_bool _ _); simpl; [reflexivity|now rewrite IH].
Qed.

Lemma length_Array_sort {A} (cmp : A -> A -> Q) (l : list A) :
  List.length (Array_sort cmp l) = List.length l.
Proof.
  induction l as [|x xs IH]; [reflexivity|].
  simpl. now rewrite length_sort_insert, IH.
Qed.

Lemma isPermissive_iff (l : License) : isPermissive l = true <-> Spec.permissive l.
Proof.
  unfold isPermissive, Spec.permissive. destruct (category l); simpl; split; congruence.
Qed.

Lemma In_determinePrimaryLicense (licenses : list License) (d : option License)
    (x : License) :
  In x (snd (determinePrimaryLicense licenses d)) <-> In x licenses.
Proof.
  unfold determinePrimaryLicense.
  destruct licenses as [|l1 [|l2 rest]]; [reflexivity|reflexivity|].
  destruct (match d with
            | Some d0 => find _ _
            | None => None
            end); [reflexivity|].
  destruct (filter isPermissive (l1 :: l2 :: rest)); [|reflexivity].
  cbn [snd]. apply In_Array_sort.
Qed.

Lemma length_determinePrimaryLicense (ls : list License) (d : option License) :
  List.length (snd (determinePrimaryLicense ls d)) = List.length ls.
Proof.
  unfold determinePrimaryLicense.
  destruct ls as [|l1 [|l2 rest]]; [reflexivity..|].
  destruct (match d with Some d0 => find _ _ | None => None end); [reflexivity|].
  destruct (filter isPermissive _); [|reflexivity].
  cbn [snd]. apply length_Array_sort.
Qed.

(** The fields of an analysis the detector returns, in terms of the steps
    that produce them. *)
Lemma detection_fields host options pkg a :
  detection host options pkg = Fulfilled a ->
  exists d,
    detectDeclaredLicense host pkg = Fulfilled d
    /\ primaryLicense a
       = fst (determinePrimaryLicense (consolidateLicenses d (licenseFiles a)) d)
    /\ licenses a
       = snd (determinePrimaryLicense (consolidateLicenses d (licenseFiles a)) d)
    /\ an_obligations a = calculateObligations (licenses a)
    /\ riskLevel a = assessLegalRisk (licenses a) (an_obligations a)
    /\ issues a = detectIssues pkg (licenses a) d (licenseFiles a).
Proof.
  unfold detection. destruct (detectDeclaredLicense host pkg) as [d|e]; [|discriminate].
  intros [= <-]. exists d. split; [reflexivity|].
  unfold analysisOf.
  destruct (determinePrimaryLicense _ d) as [primary sorted] eqn:Ed.
  cbn [primaryLicense licenses an_obligations riskLevel issues licenseFiles].
  rewrite Ed. repeat split; reflexivity.
Qed.

End DetectorBasics.

(** ** Per-analysis risk level *)

Section RiskLevelFacts.
Import Detector.

Lemma fold_category_weights (licenses : list License) (acc : Z) :
  fold_left
    (fun riskScore license =>
       match category license with
       | LicenseCategory.PERMISSIVE => riskScore + 1
       | LicenseCategory.WEAK_COPYLEFT => riskScore + 3
       | LicenseCategory.COPYLEFT => riskScore + 5
       | LicenseCategory.PROPRIETARY => riskScore + 10
       | LicenseCategory.CUSTOM => riskScore + 7
       | LicenseCategory.UNKNOWN => riskScore + 8
       | LicenseCategory.PUBLIC_DOMAIN => riskScore + 0
       end)
    licenses acc
  = acc + Spec.sumZ (map (fun l => Spec.categoryWeight (category l)) licenses).
Proof.
  unfold Spec.sumZ.
  revert acc. induction licenses as [|l ls IH]; intros acc; cbn [fold_left map fold_right].
  - lia.
  - rewrite IH. destruct (category l); cbn [Spec.categoryWeight]; lia.
Qed.

Lemma fold_severity_weights (obligations : list LicenseObligation) (acc : Z) :
  fold_left
    (fun riskScore obligation =>
       match ob_severity obligation with
       | sev_critical => riskScore + 10
       | sev_high => riskScore + 5
       | sev_medium => riskScore + 2
       | sev_low => riskScore + 1
       end)
    obligations acc
  = acc + Spec.sumZ (map (fun o => Spec.severityWeight (ob_severity o)) obligations).
Proof.
  unfold Spec.sumZ.
  revert acc. induction obligations as [|o os IH]; intros acc; cbn [fold_left map fold_right].
  - lia.
  - rewrite IH. destruct (ob_severity o); cbn [Spec.severityWeight]; lia.
Qed.

(** The level returned is the one the breakpoint table gives to the
    weighted score. *)
Lemma assessLegalRisk_level licenses obligations :
  Spec.perLicenseLevel (Spec.weightedScore licenses obligations)
                       (assessLegalRisk licenses obligations).
Proof.
  unfold assessLegalRisk, Spec.weightedScore.
  rewrite fold_severity_weights, fold_category_weights.
  rewrite Z.add_0_l.
  set (s := _ + _).
  repeat (match goal with
          | |- context [?a <=? ?b] => destruct (Z.leb_spec a b)
          end);
    constructor; lia.
Qed.

Lemma perLicenseLevel_mono s1 s2 r1 r2 :
  Spec.perLicenseLevel s1 r1 -> Spec.perLicenseLevel s2 r2 ->
  s1 <= s2 -> LegalRiskLevel.le r1 r2.
Proof.
  intros H1 H2 Hle. unfold LegalRiskLevel.le.
  destruct H1, H2; simpl; lia.
Qed.

(** C4: the per-analysis risk level is the breakpoint mapping of the
    weighted score (category weights of the licenses plus severity weights
    of the obligations); the mapping is monotone non-decreasing in the
    score and inclusive at its lower bounds: a score of 20 gives CRITICAL
    and a score of 19 gives VERY_HIGH.  In an analysis the obligations are
    those of its licenses, deduplicated, and the risk level is the one of
    these licenses and obligations. *)
Theorem assessLegalRisk_breakpoints :
  (forall (licenses : list License) (obligations : list LicenseObligation),
      let s := Spec.weightedScore licenses obligations in
      Spec.perLicenseLevel s (assessLegalRisk licenses obligations)
      /\ (forall licenses' obligations',
             s <= Spec.weightedScore licenses' obligations' ->
             LegalRiskLevel.le (assessLegalRisk licenses obligations)
                               (assessLegalRisk licenses' obligations'))
      /\ (s = 20 -> assessLegalRisk licenses obligations = LegalRiskLevel.CRITICAL)
      /\ (s = 19 -> assessLegalRisk licenses obligations = LegalRiskLevel.VERY_HIGH))
  /\ (forall (host : Host) (options : option LicenseScanOptions)
             (pkg : Package) (a : LicenseAnalysis),
         detection host options pkg = Fulfilled a ->
         an_obligations a = calculateObligations (licenses a)
         /\ Spec.perLicenseLevel
              (Spec.weightedScore (licenses a) (an_obligations a)) (riskLevel a)).
Proof.
  split.
  - intros licenses obligations s.
    pose proof (assessLegalRisk_level licenses obligations) as Hl.
    fold s in Hl.
    split; [exact Hl|]. split; [|split].
    + intros ls' os' Hle.
      eapply perLicenseLevel_mono; [exact Hl | apply assessLegalRisk_level | exact Hle].
    + intros Hs. destruct Hl; try lia; reflexivity.
    + intros Hs. destruct Hl; try lia; reflexivity.
  - intros host options pkg a Ha.
    destruct (detection_fields host options pkg a Ha)
      as (d & _ & _ & _ & Hob & Hrisk & _).
    split; [exact Hob|]. rewrite Hrisk. apply assessLegalRisk_level.
Qed.

End RiskLevelFacts.

(** ** Primary license *)

Section PrimaryLicenseFacts.
Import Detector.

Lemma headDominates_insert (x : License) (s : list License) :
  headDominates s -> headDominates (sort_insert byConfidenceDesc x s).
Proof.
  destruct s as [|y ys]; simpl; [tauto|].
  intros Hs.
  destruct (Qle_bool (byConfidenceDesc x y) 0) eqn:E.
  - apply byConfidenceDesc_le in E. simpl.
    intros z [->|Hz]; [exact E|]. specialize (Hs z Hz). lra.
  - assert (Hlt : ~ (confidence y <= confidence x)%Q).
    { intros H. apply byConfidenceDesc_le in H. congruence. }
    simpl. intros z Hz. apply In_sort_insert in Hz as [->|Hz].
    + lra.
    + apply Hs, Hz.
Qed.

Lemma headDominates_sort (l : list License) :
  headDominates (Array_sort byConfidenceDesc l).
Proof.
  induction l as [|x xs IH]; simpl; [exact I|].
  apply headDominates_insert, IH.
Qed.

Lemma sorted_head (l : list License) :
  l <> [] ->
  exists h, hd_error (Array_sort byConfidenceDesc l) = Some h
            /\ In h l
            /\ forall z, In z l -> (confidence z <= confidence h)%Q.
Proof.
  intros Hne.
  pose proof (headDominates_sort l) as Hd.
  pose proof (fun z => In_Array_sort byConfidenceDesc z l) as Hin.
  destruct (Array_sort byConfidenceDesc l) as [|h t].
  - destruct l as [|x xs]; [congruence|].
    exfalso. apply (Hin x). left. reflexivity.
  - exists h. split; [reflexivity|]. split.
    + apply Hin. left. reflexivity.
    + intros z Hz. apply Hin in Hz. destruct Hz as [->|Hz].
      * lra.
      * apply Hd, Hz.
Qed.

Lemma find_declared_none (licenses : list License) (d : License) :
  find (fun l => String.eqb (spdxId l) (spdxId d)) licenses = None ->
  forall l, In l licenses -> spdxId l <> spdxId d.
Proof.
  intros Hf l Hl Heq.
  apply (find_none _ _ Hf) in Hl. simpl in Hl.
  apply String.eqb_neq in Hl. contradiction.
Qed.

(** The rule that applies when no declared license is found among at
    least one license. *)
Lemma primary_without_declared licenses declaredLicense :
  licenses <> [] ->
  Spec.declaredAbsent licenses declaredLicense ->
  exists l,
    match filter isPermissive licenses with
    | _ :: _ => hd_error (Array_sort byConfidenceDesc (filter isPermissive licenses))
    | [] => hd_error (Array_sort byConfidenceDesc licenses)
    end = Some l
    /\ Spec.primaryRule licenses declaredLicense l.
Proof.
  intros Hne Habs.
  destruct (filter isPermissive licenses) as [|p ps] eqn:Ef.
  - destruct (sorted_head licenses Hne) as (h & Hh & Hin & Hmax).
    exists h. split; [exact Hh|].
    apply Spec.rule_overall; [exact Habs| |].
    + intros l' Hl' Hp. apply isPermissive_iff in Hp.
      assert (In l' (filter isPermissive licenses)) by (apply filter_In; auto).
      rewrite Ef in H. contradiction.
    + split; [exact Hin|]. split; [exact I|]. intros l' Hl' _. apply Hmax, Hl'.
  - rewrite <- Ef.
    destruct (sorted_head (filter isPermissive licenses)) as (h & Hh & Hin & Hmax).
    { rewrite Ef. discriminate. }
    exists h. split; [exact Hh|].
    apply filter_In in Hin as [Hin Hp].
    apply Spec.rule_permissive; [exact Habs|].
    split; [exact Hin|]. split; [apply isPermissive_iff, Hp|].
    intros l' Hl' Hp'. apply Hmax, filter_In. split; [exact Hl'|].
    apply isPermissive_iff, Hp'.
Qed.

Lemma primaryRule_In licenses declaredLicense l :
  Spec.primaryRule licenses declaredLicense l -> In l licenses.
Proof.
  intros [l' (d & _ & Hin & _) | l' _ (Hin & _) | l' _ _ (Hin & _)]; exact Hin.
Qed.

Lemma determinePrimaryLicense_chooses licenses declaredLicense :
  licenses <> [] ->
  exists l,
    fst (determinePrimaryLicense licenses declaredLicense) = Some l
    /\ Spec.primaryRule licenses declaredLicense l.
Proof.
  intros Hne.
  destruct licenses as [|l1 [|l2 rest]]; [congruence| |].
  - (* a single license is returned at once; it satisfies whichever rule
       applies *)
    exists l1. split; [reflexivity|].
    destruct declaredLicense as [d|].
    + destruct (String.eqb (spdxId l1) (spdxId d)) eqn:E.
      * apply String.eqb_eq in E. apply Spec.rule_declared.
        exists d. simpl. auto.
      * apply String.eqb_neq in E.
        assert (Habs : Spec.declaredAbsent [l1] (Some d)).
        { intros d' l Hd [<-|[]]. congruence. }
        destruct (primary_without_declared [l1] (Some d)) as (l & Hl & Hr);
          [discriminate | exact Habs |].
        simpl in Hl. destruct (isPermissive l1); simpl in Hl;
          injection Hl as <-; exact Hr.
    + assert (Habs : Spec.declaredAbsent [l1] None) by (intros d l Hd; discriminate).
      destruct (primary_without_declared [l1] None) as (l & Hl & Hr);
        [discriminate | exact Habs |].
      simpl in Hl. destruct (isPermissive l1); simpl in Hl;
        injection Hl as <-; exact Hr.
  - set (ls := l1 :: l2 :: rest) in *.
    unfold determinePrimaryLicense. fold ls.
    change (match ls with [] => (None, ls) | [l] => (Some l, ls) | _ => ?X end)
      with X.
    destruct declaredLicense as [d|].
    + destruct (find (fun l => String.eqb (spdxId l) (spdxId d)) ls) as [f|] eqn:Ef.
      * exists f. split; [reflexivity|].
        apply find_some in Ef as [Hin Heq]. apply String.eqb_eq in Heq.
        apply Spec.rule_declared. exists d. auto.
      * assert (Habs : Spec.declaredAbsent ls (Some d)).
        { intros d' l Hd Hl. injection Hd as <-.
          eapply find_declared_none; eauto. }
        destruct (primary_without_declared ls (Some d) Hne Habs) as (l & Hl & Hr).
        exists l. split; [|exact Hr].
        destruct (filter isPermissive ls); exact Hl.
    + assert (Habs : Spec.declaredAbsent ls None) by (intros d l Hd; discriminate).
      destruct (primary_without_declared ls None Hne Habs) as (l & Hl & Hr).
      exists l. split; [|exact Hr].
      destruct (filter isPermissive ls); exact Hl.
Qed.

(** C5: with at least one consolidated license, the primary license is
    chosen by the first rule that applies: the declared license when its
    identifier is in the set; otherwise the permissive license of highest
    confidence; otherwise the license of highest confidence.  The primary
    license of an analysis is chosen so among its consolidated licenses. *)
Theorem determinePrimaryLicense_rules :
  (forall (licenses : list License) (declaredLicense : option License),
      licenses <> [] ->
      exists l,
        fst (determinePrimaryLicense licenses declaredLicense) = Some l
        /\ Spec.primaryRule licenses declaredLicense l)
  /\ (forall (host : Host) (options : option LicenseScanOptions)
             (pkg : Package) (a : LicenseAnalysis),
         detection host options pkg = Fulfilled a ->
         licenses a <> [] ->
         exists d l,
           detectDeclaredLicense host pkg = Fulfilled d
           /\ primaryLicense a = Some l
           /\ In l (licenses a)
           /\ Spec.primaryRule (consolidateLicenses d (licenseFiles a)) d l).
Proof.
  split; [apply determinePrimaryLicense_chooses|].
  intros host options pkg a Ha Hne.
  destruct (detection_fields host options pkg a Ha)
    as (d & Hd & Hprim & Hlic & _).
  assert (Hcons : consolidateLicenses d (licenseFiles a) <> []).
  { intros Hnil. apply Hne. apply length_zero_iff_nil.
    rewrite Hlic, length_determinePrimaryLicense, Hnil. reflexivity. }
  destruct (determinePrimaryLicense_chooses _ d Hcons) as (l & Hl & Hrule).
  exists d, l. split; [exact Hd|]. split; [now rewrite Hprim|].
  split; [|exact Hrule].
  rewrite Hlic. apply In_determinePrimaryLicense. now apply primaryRule_In in Hrule.
Qed.

End PrimaryLicenseFacts.

(** ** Issue detection *)

Section IssueFacts.
Import Detector.

Lemma hasIncompatibleLicenses_iff (licenses : list License) :
  (1 < List.length licenses)%nat ->
  hasIncompatibleLicenses licenses = true <-> Spec.conflicting licenses.
Proof.
  intros Hlen. unfold hasIncompatibleLicenses, Spec.conflicting.
  assert (Hcount :
    List.length (filter (fun c => LicenseCategory.eqb c LicenseCategory.COPYLEFT)
                        (map category licenses))
    = List.length (filter (fun l => LicenseCategory.eqb (category l)
                                                        LicenseCategory.COPYLEFT)
                          licenses)).
  { clear Hlen. induction licenses as [|l ls IH]; simpl; [reflexivity|].
    destruct (LicenseCategory.eqb (category l) LicenseCategory.COPYLEFT); simpl; lia. }
  rewrite Hcount.
  assert (Hprop :
    existsb (LicenseCategory.eqb LicenseCategory.PROPRIETARY) (map category licenses)
    = true
    <-> exists l, In l licenses /\ category l = LicenseCategory.PROPRIETARY).
  { rewrite existsb_exists. split.
    - intros (c & Hc & Heq). apply in_map_iff in Hc as (l & <- & Hl).
      exists l. split; [exact Hl|]. destruct (category l); simpl in Heq; congruence.
    - intros (l & Hl & Heq). exists (category l). split; [apply in_map, Hl|].
      rewrite Heq. reflexivity. }
  apply Nat.ltb_lt in Hlen as Hlenb. rewrite Hlenb, andb_true_r.
  destruct (existsb _ (map category licenses)) eqn:Ep.
  - split; [|reflexivity]. intros _. split; [exact Hlen|]. left. now apply Hprop.
  - destruct (Nat.ltb_spec 1
      (List.length (filter (fun l => LicenseCategory.eqb (category l)
                                                          LicenseCategory.COPYLEFT)
                           licenses))).
    + split; [|reflexivity]. intros _. split; [exact Hlen|]. now right.
    + split; [discriminate|]. intros [_ [Hp|Hc]]; [|lia].
      apply Hprop in Hp. discriminate.
Qed.

(** The four checks of [detectIssues] side by side. *)
Lemma detectIssues_parts pkg licenses declaredLicense licenseFiles :
  detectIssues pkg licenses declaredLicense licenseFiles
  = (if (List.length licenses =? 0)%nat then [Spec.missingLicenseIssue] else [])
    ++ (if (1 <? List.length licenses)%nat && hasIncompatibleLicenses licenses
        then [Spec.conflictingLicensesIssue licenses] else [])
    ++ flat_map (fun l => if Spec.carriesDeprecatedIds l
                          then [Spec.deprecatedLicenseIssue l] else [])
                licenses
    ++ (match declaredLicense with
        | None => if truthy_opt (pkg_license pkg)
                  then [Spec.unrecognizedLicenseIssue pkg] else []
        | Some _ => []
        end).
Proof.
  unfold detectIssues.
  rewrite (fold_left_emit _
             (fun l => if Spec.carriesDeprecatedIds l
                       then [Spec.deprecatedLicenseIssue l] else [])).
  2:{ intros acc l. unfold Spec.carriesDeprecatedIds.
      destruct (deprecatedIds l) as [[|]|]; simpl;
        rewrite ?app_nil_r; reflexivity. }
  destruct (List.length licenses =? 0)%nat, (1 <? List.length licenses)%nat,
    (hasIncompatibleLicenses licenses), declaredLicense,
    (truthy_opt (pkg_license pkg));
    simpl; rewrite ?app_nil_r, <- ?app_assoc; reflexivity.
Qed.

Lemma deprecated_part_types (licenses : list License) (i : Issue) :
  In i (flat_map (fun l => if Spec.carriesDeprecatedIds l
                           then [Spec.deprecatedLicenseIssue l] else [])
                 licenses) ->
  issue_type i = deprecated_license.
Proof.
  intros Hi. apply in_flat_map in Hi as (l & _ & Hi).
  destruct (Spec.carriesDeprecatedIds l); [|contradiction].
  destruct Hi as [<-|[]]. reflexivity.
Qed.

Lemma deprecated_part_filter (licenses : list License) :
  filter Spec.isDeprecatedIssue
         (flat_map (fun l => if Spec.carriesDeprecatedIds l
                             then [Spec.deprecatedLicenseIssue l] else [])
                   licenses)
  = map Spec.deprecatedLicenseIssue (filter Spec.carriesDeprecatedIds licenses).
Proof.
  induction licenses as [|l ls IH]; simpl; [reflexivity|].
  rewrite filter_app, IH.
  destruct (Spec.carriesDeprecatedIds l); reflexivity.
Qed.

Lemma truthy_opt_iff (s : option string) :
  truthy_opt s = true <-> exists e, s = Some e /\ e <> EmptyString.
Proof.
  destruct s as [[|c e]|]; simpl; split; try discriminate.
  - intros (e & He & Hne). injection He as <-. congruence.
  - intros _. eexists. split; [reflexivity|discriminate].
  - intros _. reflexivity.
  - intros (e & He & _). discriminate.
Qed.

(** C7: the four kinds of issue are emitted independently, each exactly
    when its own condition holds: no license gives [missing_license]
    (error); more than one license with a proprietary one among them or
    with more than one copyleft one gives [conflicting_licenses]
    (critical); every license carrying deprecated identifiers gives its
    own [deprecated_license] (warning), in the order of the licenses; a
    declared expression that resolved to no license gives
    [unrecognized_license] (warning).  The issues of an analysis are those
    of its licenses and of the declared license the detector resolved. *)
Theorem detectIssues_all_applicable :
  (forall (pkg : Package) (licenses : list License)
          (declaredLicense : option License) (licenseFiles : list LicenseFile),
      let issues := detectIssues pkg licenses declaredLicense licenseFiles in
      (licenses = [] <-> In Spec.missingLicenseIssue issues)
      /\ (Spec.conflicting licenses
          <-> In (Spec.conflictingLicensesIssue licenses) issues)
      /\ filter Spec.isDeprecatedIssue issues
         = map Spec.deprecatedLicenseIssue
               (filter Spec.carriesDeprecatedIds licenses)
      /\ (Spec.unresolvedDeclaration pkg declaredLicense
          <-> In (Spec.unrecognizedLicenseIssue pkg) issues))
  /\ (forall (host : Host) (options : option LicenseScanOptions)
             (pkg : Package) (a : LicenseAnalysis),
         detection host options pkg = Fulfilled a ->
         exists declaredLicense,
           detectDeclaredLicense host pkg = Fulfilled declaredLicense
           /\ issues a
              = detectIssues pkg (licenses a) declaredLicense (licenseFiles a)).
Proof.
  split.
  2:{ intros host options pkg a Ha.
      destruct (detection_fields host options pkg a Ha)
        as (d & Hd & _ & _ & _ & _ & Hissues).
      exists d. split; [exact Hd|exact Hissues]. }
  intros pkg licenses declaredLicense licenseFiles issues.
  subst issues. rewrite detectIssues_parts.
  set (dep := flat_map _ licenses).
  assert (Hdep : forall i, In i dep -> issue_type i = deprecated_license)
    by apply deprecated_part_types.
  assert (Hconf : (1 <? List.length licenses)%nat && hasIncompatibleLicenses licenses
                  = true <-> Spec.conflicting licenses).
  { destruct (Nat.ltb_spec 1 (List.length licenses)) as [Hl|Hl]; simpl.
    - now apply hasIncompatibleLicenses_iff.
    - split; [discriminate|]. intros [Hlt _]. lia. }
  assert (Hunrec :
    Spec.unresolvedDeclaration pkg declaredLicense
    <-> In (Spec.unrecognizedLicenseIssue pkg)
           (match declaredLicense with
            | None => if truthy_opt (pkg_license pkg)
                      then [Spec.unrecognizedLicenseIssue pkg] else []
            | Some _ => []
            end)).
  { unfold Spec.unresolvedDeclaration. rewrite <- truthy_opt_iff.
    destruct declaredLicense; [split; [intros [_ ?]; discriminate|intros []]|].
    destruct (truthy_opt (pkg_license pkg)); simpl; intuition discriminate. }
  refine (conj (conj _ _) (conj (conj _ _) (conj _ (conj _ _)))).
  - intros ->. simpl. left. reflexivity.
  - intros Hin. apply in_app_or in Hin as [Hin|Hin].
    + destruct licenses; [reflexivity|simpl in Hin; contradiction].
    + exfalso. apply in_app_or in Hin as [Hin|Hin];
        [|apply in_app_or in Hin as [Hin|Hin]].
      * destruct (_ && _); [destruct Hin as [Hin|[]]|destruct Hin]; discriminate.
      * apply Hdep in Hin. discriminate.
      * destruct declaredLicense; [destruct Hin|].
        destruct (truthy_opt _); [destruct Hin as [Hin|[]]|destruct Hin]; discriminate.
  - intros Hc. apply Hconf in Hc. rewrite Hc.
    apply in_or_app. right. left. reflexivity.
  - intros Hin. apply Hconf.
    apply in_app_or in Hin as [Hin|Hin].
    + exfalso. destruct (_ =? _)%nat; [destruct Hin as [Hin|[]]|destruct Hin]; discriminate.
    + apply in_app_or in Hin as [Hin|Hin].
      * destruct (_ && _); [reflexivity|destruct Hin].
      * exfalso. apply in_app_or in Hin as [Hin|Hin].
        -- apply Hdep in Hin. discriminate.
        -- destruct declaredLicense; [destruct Hin|].
           destruct (truthy_opt _); [destruct Hin as [Hin|[]]|destruct Hin]; discriminate.
  - rewrite !filter_app. unfold dep. rewrite deprecated_part_filter.
    destruct (_ =? _)%nat, (_ && _); destruct declaredLicense;
      try destruct (truthy_opt _);
      simpl; rewrite ?app_nil_r; reflexivity.
  - intros Hu. apply Hunrec in Hu.
    apply in_or_app; right; apply in_or_app; right; apply in_or_app; right. exact Hu.
  - intros Hin. apply Hunrec.
    apply in_app_or in Hin as [Hin|Hin].
    + exfalso. destruct (_ =? _)%nat; [destruct Hin as [Hin|[]]|destruct Hin]; discriminate.
    + apply in_app_or in Hin as [Hin|Hin].
      * exfalso. destruct (_ && _); [destruct Hin as [Hin|[]]|destruct Hin]; discriminate.
      * apply in_app_or in Hin as [Hin|Hin]; [|exact Hin].
        exfalso. apply Hdep in Hin. discriminate.
Qed.

End IssueFacts.

(** ** Batch analysis *)

Section BatchFacts.
Import Detector Service.
Context (host : Host) (run : Run) (options : option LicenseScanOptions).

Lemma forget_analysisOf pkg o d duration at_ :
  forget (analysisOf host pkg o d duration at_) = analysisOf host pkg o d 0 0.
Proof.
  unfold analysisOf.
  destruct (determinePrimaryLicense _ _) as [primary sorted]. reflexivity.
Qed.

Lemma steps_app (l1 l2 : list LogEvent) : steps (l1 ++ l2) = steps l1 ++ steps l2.
Proof. unfold steps. apply flat_map_app. Qed.

(** The second half of [analyzeLicense]: its result is the detection of
    the package up to the clock, and it logs one end. *)
Lemma analyzeLicense_resume_spec pkg startTime w :
  exists r w' delta,
    analyzeLicense_resume host run pkg options startTime w = (r, w')
    /\ forgetOutcome r = detection host options pkg
    /\ log w' = log w ++ delta
    /\ steps delta = [Settled (pkg_name pkg)].
Proof.
  unfold analyzeLicense_resume, detectLicense_resume, detection,
    try_catch, bind, lift, Date_now, logger, ret, throw.
  destruct (detectDeclaredLicense host pkg) as [d|e]; cbn -[analysisOf forget].
  - eexists _, _, [_; _]. split; [reflexivity|].
    split; [cbn [forgetOutcome]; now rewrite forget_analysisOf|].
    split; [now rewrite <- app_assoc|reflexivity].
  - eexists _, _, [_; _]. split; [reflexivity|].
    split; [reflexivity|].
    split; [now rewrite <- app_assoc|reflexivity].
Qed.

(** [detectLicense] as a whole yields the detection of the package, up to
    the clock. *)
Lemma detectLicense_detection pkg w :
  forgetOutcome (fst (detectLicense host run pkg options w))
  = detection host options pkg.
Proof.
  unfold detectLicense, detectLicense_begin, detectLicense_resume, detection,
    try_catch, bind, lift, Date_now, logger, ret, throw.
  destruct (detectDeclaredLicense host pkg) as [d|e]; cbn -[analysisOf forget].
  - now rewrite forget_analysisOf.
  - reflexivity.
Qed.

Lemma startBatch_spec batch pos w :
  exists ps w' delta,
    startBatch run batch pos w = (ps, w')
    /\ map position ps = seq pos (List.length batch)
    /\ map pending_pkg ps = batch
    /\ log w' = log w ++ delta
    /\ steps delta = map (fun p => Started (pkg_name p)) batch.
Proof.
  revert pos w. induction batch as [|pkg rest IH]; intros pos w; simpl.
  - exists [], w, []. rewrite app_nil_r. auto.
  - unfold analyzeLicense_begin, detectLicense_begin. simpl.
    match goal with
    | |- context [startBatch run rest (S pos) ?w1] =>
        destruct (IH (S pos) w1) as (ps & w' & delta & -> & Hpos & Hpkg & Hlog & Hsteps)
    end.
    eexists _, _, (_ :: _ :: delta). split; [reflexivity|]. simpl.
    split; [now rewrite Hpos|]. split; [now rewrite Hpkg|].
    split; [rewrite Hlog; simpl; now rewrite <- !app_assoc|].
    now rewrite Hsteps.
Qed.

Lemma settleBatch_spec order w :
  exists rs w' delta,
    settleBatch host run options order w = (rs, w')
    /\ map (fun r => (fst r, forgetOutcome (snd r))) rs
       = map (fun p => (position p, detection host options (pending_pkg p))) order
    /\ log w' = log w ++ delta
    /\ steps delta = map (fun p => Settled (pkg_name (pending_pkg p))) order.
Proof.
  revert w. induction order as [|p rest IH]; intros w; simpl.
  - exists [], w, []. rewrite app_nil_r. auto.
  - destruct (analyzeLicense_resume_spec (pending_pkg p) (pending_start p) w)
      as (r & w1 & d1 & -> & Hr & Hlog1 & Hs1).
    destruct (IH w1) as (rs & w2 & d2 & -> & Hrs & Hlog2 & Hs2).
    exists ((position p, r) :: rs), w2, (d1 ++ d2).
    split; [reflexivity|]. simpl.
    split; [now rewrite Hr, Hrs|].
    split; [now rewrite Hlog2, Hlog1, app_assoc|].
    now rewrite steps_app, Hs1, Hs2.
Qed.

Lemma Map_get_map_snd {V W} (f : V -> W) (l : list (nat * V)) (k : nat) :
  Map_get Nat.eqb (map (fun r => (fst r, f (snd r))) l) k
  = option_map f (Map_get Nat.eqb l k).
Proof.
  induction l as [|[k' v] l IH]; simpl; [reflexivity|].
  destruct (Nat.eqb k k'); [reflexivity|exact IH].
Qed.

Lemma allSettled_forget n rs :
  map forgetOutcome (allSettled n rs)
  = allSettled n (map (fun r => (fst r, forgetOutcome (snd r))) rs).
Proof.
  unfold allSettled. induction (seq 0 n) as [|i is_ IH]; simpl; [reflexivity|].
  rewrite map_app, IH, Map_get_map_snd.
  destruct (Map_get Nat.eqb rs i); reflexivity.
Qed.

Lemma Map_get_unique {V} (l : list (nat * V)) (k : nat) (v : V) :
  NoDup (map fst l) -> In (k, v) l -> Map_get Nat.eqb l k = Some v.
Proof.
  induction l as [|[k' v'] l IH]; simpl; [tauto|].
  intros Hnd [Heq|Hin].
  - injection Heq as -> ->. now rewrite Nat.eqb_refl.
  - inversion Hnd as [|? ? Hnotin Hnd']; subst.
    destruct (Nat.eqb_spec k k') as [->|_].
    + exfalso. apply Hnotin. change k' with (fst (k', v)). now apply in_map.
    + now apply IH.
Qed.

(** [Promise.allSettled] reports the results by position, whatever the
    order in which the calls settled. *)
Lemma allSettled_by_position {V}
    (g : Pending -> Outcome V) (ps order : list Pending) (n : nat)
    (get := fun (l : list (nat * Outcome V)) i =>
              match Map_get Nat.eqb l i with Some r => [r] | None => [] end) :
  Permutation order ps ->
  map position ps = seq 0 n ->
  flat_map (get (map (fun p => (position p, g p)) order)) (seq 0 n) = map g ps.
Proof.
  intros Hperm Hpos. rewrite <- Hpos.
  assert (Hnd : NoDup (map fst (map (fun p => (position p, g p)) order))).
  { rewrite map_map. simpl.
    apply (Permutation_NoDup (l := map position ps)).
    - apply Permutation_map. now symmetry.
    - rewrite Hpos. apply seq_NoDup. }
  assert (Hall : forall p, In p ps ->
            get (map (fun p => (position p, g p)) order) (position p) = [g p]).
  { intros p Hp. unfold get. erewrite Map_get_unique; [reflexivity|exact Hnd|].
    apply (in_map (fun p => (position p, g p))).
    eapply Permutation_in; [symmetry; exact Hperm|exact Hp]. }
  clear Hpos Hnd Hperm. induction ps as [|p ps IH]; simpl; [reflexivity|].
  rewrite Hall by (now left). simpl. f_equal. apply IH.
  intros q Hq. apply Hall. now right.
Qed.

Lemma collectBatch_spec results analyses w :
  collectBatch results (analyses, w)
  = (analyses ++ fulfilledValues results,
     mkWorld (ticks w) (log w ++ map BatchItemFailed (rejectedReasons results))).
Proof.
  unfold collectBatch. revert analyses w.
  induction results as [|[v|e] rs IH]; intros analyses w; simpl.
  - rewrite !app_nil_r. now destruct w.
  - rewrite IH. now rewrite <- app_assoc.
  - rewrite IH. simpl. now rewrite <- app_assoc.
Qed.

Lemma forget_fulfilledValues (results : list (Outcome LicenseAnalysis)) :
  map forget (fulfilledValues results) = fulfilledValues (map forgetOutcome results).
Proof.
  induction results as [|[v|e] rs IH]; simpl; [reflexivity| |exact IH].
  now rewrite IH.
Qed.

Lemma steps_BatchItemFailed (reasons : list Thrown) :
  steps (map BatchItemFailed reasons) = [].
Proof. induction reasons; simpl; auto. Qed.

(** One batch: every call starts, the calls settle in the order the
    scheduler picks, and the fulfilled results are appended in the order
    of the batch. *)
Lemma processBatch_spec batch st :
  exists delta settles,
    map forget (fst (processBatch host run batch options st))
    = map forget (fst st) ++ fulfilledValues (map (detection host options) batch)
    /\ log (snd (processBatch host run batch options st)) = log (snd st) ++ delta
    /\ steps delta = map (fun p => Started (pkg_name p)) batch ++ settles
    /\ Permutation settles (map (fun p => Settled (pkg_name p)) batch).
Proof.
  destruct st as [analyses w]. unfold processBatch.
  destruct (startBatch_spec batch 0 w)
    as (ps & w1 & d1 & -> & Hpos & Hpkg & Hlog1 & Hs1).
  set (order := settle_order (scheduler run) Pending (ticks w1) ps).
  assert (Hperm : Permutation order ps) by apply settle_order_perm.
  destruct (settleBatch_spec order w1)
    as (rs & w2 & d2 & -> & Hrs & Hlog2 & Hs2).
  rewrite collectBatch_spec. simpl.
  exists (d1 ++ d2 ++ map BatchItemFailed (rejectedReasons (allSettled (List.length batch) rs))),
         (map (fun p => Settled (pkg_name (pending_pkg p))) order).
  split; [|split; [|split]].
  - rewrite map_app, forget_fulfilledValues, allSettled_forget, Hrs.
    unfold allSettled.
    rewrite (allSettled_by_position
               (fun p => detection host options (pending_pkg p)) ps order
               (List.length batch) Hperm Hpos).
    now rewrite <- Hpkg, map_map.
  - now rewrite Hlog2, Hlog1, <- !app_assoc.
  - now rewrite !steps_app, Hs1, Hs2, steps_BatchItemFailed, app_nil_r.
  - rewrite <- Hpkg, map_map. now apply Permutation_map.
Qed.

Lemma slice_firstn_skipn {A} (l : list A) (i n : nat) :
  slice l i (i + n) = firstn n (skipn i l).
Proof. unfold slice. now replace (i + n - i)%nat with n by lia. Qed.

Lemma fulfilledValues_app {A} (l1 l2 : list (Outcome A)) :
  fulfilledValues (l1 ++ l2) = fulfilledValues l1 ++ fulfilledValues l2.
Proof. unfold fulfilledValues. apply flat_map_app. Qed.

(** The loop of [analyzeLicenses] from index [i] on. *)
Lemma analyzeLicenses_loop_spec packages i st :
  exists delta,
    map forget (fst (analyzeLicenses_loop host run packages options i st))
    = map forget (fst st)
      ++ fulfilledValues (map (detection host options) (skipn i packages))
    /\ log (snd (analyzeLicenses_loop host run packages options i st))
       = log (snd st) ++ delta
    /\ Spec.BatchedTrace (skipn i packages) (steps delta).
Proof.
  funelim (analyzeLicenses_loop host run packages options i st).
  - (* [i < packages.length]: one more batch *)
    clear Heqcall Heq. unfold batchSize in *.
    destruct H as (d2 & Hres & Hlog & Htrace).
    destruct (processBatch_spec (slice packages i (i + 10)) st)
      as (d1 & settles & Hres1 & Hlog1 & Hs1 & Hperm).
    rewrite slice_firstn_skipn in *.
    exists (d1 ++ d2). split; [|split].
    + rewrite Hres, Hres1, <- app_assoc, <- fulfilledValues_app, <- map_app.
      replace (i + 10)%nat with (10 + i)%nat by lia.
      now rewrite <- skipn_skipn, firstn_skipn.
    + now rewrite Hlog, Hlog1, app_assoc.
    + rewrite steps_app, Hs1, <- app_assoc.
      apply Spec.batched_batch.
      * intros Hnil. apply (f_equal (@List.length _)) in Hnil.
        rewrite length_skipn in Hnil. simpl in Hnil. lia.
      * exact Hperm.
      * rewrite skipn_skipn.
        now replace (10 + i)%nat with (i + 10)%nat by lia.
  - (* the loop is over *)
    exists []. rewrite app_nil_r.
    rewrite skipn_all2 by lia. simpl. rewrite app_nil_r.
    split; [reflexivity|]. split; [reflexivity|]. constructor.
Qed.

(** [analyzeLicenses] always returns: the analyses of the packages whose
    detection succeeds, in the order of the packages, and a log in which
    the calls are batched by ten. *)
Lemma analyzeLicenses_spec packages w :
  exists analyses w' delta,
    analyzeLicenses host run packages options w = (Fulfilled analyses, w')
    /\ map forget analyses
       = fulfilledValues (map (detection host options) packages)
    /\ log w' = log w ++ delta
    /\ Spec.BatchedTrace packages (steps delta).
Proof.
  unfold analyzeLicenses, try_catch, bind, Date_now, logger, ret.
  simpl.
  match goal with
  | |- context [analyzeLicenses_loop host run packages options 0 ?st] =>
      destruct (analyzeLicenses_loop_spec packages 0 st) as (d & Hres & Hlog & Htr);
      destruct (analyzeLicenses_loop host run packages options 0 st) as [analyses w1]
  end.
  simpl in *.
  eexists analyses, _, (_ :: d ++ [_]). split; [reflexivity|].
  split; [exact Hres|]. split.
  - simpl. rewrite Hlog, <- !app_assoc. reflexivity.
  - simpl. rewrite steps_app. simpl. now rewrite app_nil_r.
Qed.

End BatchFacts.

(** ** Policy validation *)

Section PolicyFacts.
Import Detector Service.

Lemma includes_iff (l : list string) (s : string) : includes l s = true <-> In s l.
Proof.
  unfold includes. rewrite existsb_exists. split.
  - intros (x & Hx & Heq). apply String.eqb_eq in Heq. now subst.
  - intros H. exists s. split; [exact H|apply String.eqb_refl].
Qed.

Lemma LicenseCategory_eqb_eq (a b : LicenseCategory.t) :
  LicenseCategory.eqb a b = true <-> a = b.
Proof. destruct a, b; simpl; split; congruence. Qed.

Lemma LegalRiskLevel_eqb_eq (a b : LegalRiskLevel.t) :
  LegalRiskLevel.eqb a b = true <-> a = b.
Proof. destruct a, b; simpl; split; congruence. Qed.

Lemma find_first {A} (f : A -> bool) (l : list A) (x : A) :
  find f l = Some x <->
  exists before after,
    l = before ++ x :: after /\ f x = true /\ forall y, In y before -> f y = false.
Proof.
  induction l as [|y ys IH]; simpl.
  - split; [discriminate|]. intros (b & a & H & _). now destruct b.
  - destruct (f y) eqn:Ey.
    + split.
      * intros [= <-]. exists [], ys. simpl.
        split; [reflexivity|]. split; [exact Ey|]. intros z [].
      * intros ([|b bs] & a & Hl & Hx & Hb).
        -- simpl in Hl. now injection Hl as <- _.
        -- simpl in Hl. injection Hl as <- _.
           rewrite (Hb y) in Ey by (now left). discriminate.
    + rewrite IH. split.
      * intros (b & a & -> & Hx & Hb). exists (y :: b), a. simpl.
        split; [reflexivity|]. split; [exact Hx|].
        intros z [<-|Hz]; auto.
      * intros ([|b bs] & a & Hl & Hx & Hb).
        -- simpl in Hl. injection Hl as <- _. congruence.
        -- simpl in Hl. injection Hl as <- ->. exists bs, a.
           split; [reflexivity|]. split; [exact Hx|].
           intros z Hz. apply Hb. now right.
Qed.

Lemma emits_if (b : bool) (P : Prop) (v : Violation) :
  (b = true <-> P) -> Spec.emits P v (if b then [v] else []).
Proof.
  intros H. destruct b.
  - apply Spec.emits_yes. now apply H.
  - apply Spec.emits_no. intros HP. apply H in HP. discriminate.
Qed.

(** The body of the inner loop appends what the four checks give. *)
Lemma checkLicense_appends policy a acc l :
  checkLicense policy a acc l = acc ++ checkedViolations policy a l.
Proof.
  unfold checkLicense, checkedViolations.
  destruct (includes (prohibitedLicenses policy) (spdxId l));
    destruct (includes (reviewRequiredLicenses policy) (spdxId l)
              && negb (includes (allowedLicenses policy) (spdxId l)));
    destruct (find _ (categoryRules policy)) as [rule|];
    try destruct (String.eqb (cr_action rule) "prohibit");
    destruct (LegalRiskLevel.eqb (riskLevel a) LegalRiskLevel.CRITICAL
              && negb (LegalRiskLevel.eqb (maximumRiskLevel policy)
                                          LegalRiskLevel.CRITICAL));
    simpl; rewrite <- ?app_assoc, ?app_nil_r; reflexivity.
Qed.

Lemma checkAnalyses_flat policy analyses :
  checkAnalyses policy analyses
  = flat_map (fun a => flat_map (checkedViolations policy a) (licenses a)) analyses.
Proof.
  unfold checkAnalyses.
  rewrite (fold_left_emit _
             (fun a => flat_map (checkedViolations policy a) (licenses a)));
    [reflexivity|].
  intros acc a. apply fold_left_emit. apply checkLicense_appends.
Qed.

(** The violations do not depend on the clock readings an analysis
    carries. *)
Lemma checkAnalyses_forget policy analyses :
  checkAnalyses policy (map forget analyses) = checkAnalyses policy analyses.
Proof.
  rewrite !checkAnalyses_flat. induction analyses as [|a rest IH]; simpl; [reflexivity|].
  now rewrite IH.
Qed.

Lemma checkedViolations_pair policy a l :
  Spec.pairViolations policy (a, l) (checkedViolations policy a l).
Proof.
  unfold Spec.pairViolations, checkedViolations.
  eexists _, _, _, _. split; [reflexivity|].
  split; [|split; [|split]].
  - apply emits_if. apply includes_iff.
  - apply emits_if. unfold Spec.reviewRequired.
    rewrite andb_true_iff, negb_true_iff, !includes_iff.
    rewrite <- not_true_iff_false, includes_iff. reflexivity.
  - destruct (find _ (categoryRules policy)) as [rule|] eqn:Ef.
    + apply emits_if. unfold Spec.firstRuleProhibits. split.
      * intros Hact. apply String.eqb_eq in Hact.
        apply find_first in Ef as (b & af & Hl & Hx & Hb).
        exists b, rule, af. split; [exact Hl|]. split.
        -- intros r Hr Heq. apply Hb in Hr.
           apply LicenseCategory_eqb_eq in Heq. congruence.
        -- split; [now apply LicenseCategory_eqb_eq|exact Hact].
      * intros (b & rule' & af & Hl & Hb & Hc & Hact).
        assert (Hf : find (fun r => LicenseCategory.eqb (cr_category r) (category l))
                          (categoryRules policy) = Some rule').
        { apply find_first. exists b, af. split; [exact Hl|].
          split; [now apply LicenseCategory_eqb_eq|].
          intros y Hy. apply not_true_iff_false. intros Hy'.
          apply LicenseCategory_eqb_eq in Hy'. now apply (Hb y). }
        rewrite Hf in Ef. injection Ef as <-. now apply String.eqb_eq.
    + apply Spec.emits_no. intros (b & rule & af & Hl & Hb & Hc & Hact).
      assert (Hin : In rule (categoryRules policy)).
      { rewrite Hl. apply in_or_app. right. now left. }
      apply (find_none _ _ Ef) in Hin. simpl in Hin.
      apply LicenseCategory_eqb_eq in Hc. congruence.
  - apply emits_if. unfold Spec.riskExceeded.
    rewrite andb_true_iff, negb_true_iff, LegalRiskLevel_eqb_eq.
    rewrite <- not_true_iff_false, LegalRiskLevel_eqb_eq. reflexivity.
Qed.

Lemma checkAnalyses_pairs policy analyses :
  exists vss,
    Forall2 (Spec.pairViolations policy) (Spec.pairs analyses) vss
    /\ checkAnalyses policy analyses = List.concat vss.
Proof.
  rewrite checkAnalyses_flat.
  exists (map (fun p => checkedViolations policy (fst p) (snd p)) (Spec.pairs analyses)).
  split.
  - induction (Spec.pairs analyses) as [|[a l] ps IH]; simpl; constructor.
    + apply checkedViolations_pair.
    + exact IH.
  - unfold Spec.pairs. induction analyses as [|a rest IH]; simpl; [reflexivity|].
    rewrite map_app, concat_app, <- IH. f_equal.
    rewrite map_map. simpl. now rewrite flat_map_concat_map.
Qed.

Context (host : Host) (run : Run).

(** [validatePolicy] always returns, with the violations of the analyses
    that [analyzeLicenses] yields. *)
Lemma validatePolicy_spec packages policy w :
  exists analyses w',
    map forget analyses = fulfilledValues (map (detection host None) packages)
    /\ validatePolicy host run packages policy w
       = (Fulfilled (mkPolicyResult
                       (List.length (checkAnalyses policy analyses) =? 0)%nat
                       (checkAnalyses policy analyses)),
          w').
Proof.
  unfold validatePolicy, try_catch, bind, Date_now, logger, ret. cbn [fst snd].
  match goal with
  | |- context [analyzeLicenses host run packages None ?w1] =>
      destruct (analyzeLicenses_spec host run None packages w1)
        as (analyses & w2 & d & -> & Hres & _)
  end.
  exists analyses. eexists. split; [exact Hres|reflexivity].
Qed.

End PolicyFacts.

(** C9: two calls of [validatePolicy] on the same packages and policy,
    against the same store and files, return the same result (the same
    violations in the same order and the same [compliant] flag) whatever
    the clock shows and in whatever order the detections finish; and the
    call does return. *)
Theorem validatePolicy_deterministic :
  forall (host : Host) (packages : list Package) (policy : LicensePolicy)
         (run1 run2 : Run) (w1 w2 : World),
    fst (Service.validatePolicy host run1 packages policy w1)
    = fst (Service.validatePolicy host run2 packages policy w2)
    /\ exists result,
         fst (Service.validatePolicy host run1 packages policy w1) = Fulfilled result.
Proof.
  intros host packages policy run1 run2 w1 w2.
  destruct (validatePolicy_spec host run1 packages policy w1) as (a1 & w1' & H1 & ->).
  destruct (validatePolicy_spec host run2 packages policy w2) as (a2 & w2' & H2 & ->).
  cbn [fst].
  assert (Heq : Service.checkAnalyses policy a1 = Service.checkAnalyses policy a2).
  { rewrite <- (checkAnalyses_forget policy a1), <- (checkAnalyses_forget policy a2).
    now rewrite H1, H2. }
  rewrite Heq. split; [reflexivity|]. eexists. reflexivity.
Qed.

(** C6 (amended): for every (analysis, license) pair, in the order of the
    analyses and of their licenses, four rules fire independently and in
    this order: a prohibited identifier gives a critical violation; an
    identifier under review and not allowed gives a warning; the first
    category rule for the category of the license, when its action is
    [prohibit], gives an error; a CRITICAL analysis under a policy whose
    maximum is not CRITICAL gives a critical violation.  The result is
    compliant exactly when there is no violation. *)
Theorem validatePolicy_rules :
  forall (host : Host) (run : Run) (packages : list Package)
         (policy : LicensePolicy) (w : World),
    exists analyses result w' vss,
      map forget analyses = fulfilledValues (map (detection host None) packages)
      /\ Service.validatePolicy host run packages policy w = (Fulfilled result, w')
      /\ Forall2 (Spec.pairViolations policy) (Spec.pairs analyses) vss
      /\ violations result = List.concat vss
      /\ (compliant result = true <-> violations result = []).
Proof.
  intros host run packages policy w.
  destruct (validatePolicy_spec host run packages policy w) as (analyses & w' & Hres & Hrun).
  destruct (checkAnalyses_pairs policy analyses) as (vss & Hpairs & Hconcat).
  exists analyses. eexists. exists w', vss.
  split; [exact Hres|]. split; [exact Hrun|]. split; [exact Hpairs|].
  split; [exact Hconcat|]. cbn [compliant violations].
  rewrite Nat.eqb_eq. apply length_zero_iff_nil.
Qed.

(** C6 as stated fails where two rules name the same category: the
    package [readline] carries GPL-3.0-only, a copyleft license; the
    policy has a copyleft rule with action [prohibit], yet no violation is
    reported, because the rule in front of it has another action. *)
Lemma validatePolicy_later_prohibit_rule_ignored :
  Spec.someRuleProhibits Examples.reviewThenProhibit
                         (withConfidence Examples.GPL3 (9 # 10))
  /\ (exists a,
        detection Examples.sampleHost None Examples.pkgGPL = Fulfilled a
        /\ licenses a = [withConfidence Examples.GPL3 (9 # 10)])
  /\ fst (Service.validatePolicy Examples.sampleHost Examples.run1
            [Examples.pkgGPL] Examples.reviewThenProhibit Examples.world0)
     = Fulfilled (mkPolicyResult true []).
Proof.
  split; [|split].
  - exists (mkCategoryRule LicenseCategory.COPYLEFT "prohibit").
    split; [right; left; reflexivity|]. split; reflexivity.
  - eexists. split; vm_compute; reflexivity.
  - vm_compute. reflexivity.
Qed.

(** C10: an analysis without licenses contributes no violation under any
    policy, whatever its risk level, since every rule is evaluated per
    license; hence a project in which no package has a detected license is
    reported compliant with no violation. *)
Theorem validatePolicy_unlicensed_compliant :
  (forall (policy : LicensePolicy) (before after : list LicenseAnalysis)
          (a : LicenseAnalysis),
      licenses a = [] ->
      Service.checkAnalyses policy (before ++ a :: after)
      = Service.checkAnalyses policy (before ++ after))
  /\ (forall (host : Host) (run : Run) (packages : list Package)
             (policy : LicensePolicy) (w : World),
         (forall p a, In p packages -> detection host None p = Fulfilled a ->
                      licenses a = []) ->
         fst (Service.validatePolicy host run packages policy w)
         = Fulfilled (mkPolicyResult true [])).
Proof.
  split.
  - intros policy before after a Ha.
    rewrite !checkAnalyses_flat, !flat_map_app. simpl. now rewrite Ha.
  - intros host run packages policy w Hnone.
    destruct (validatePolicy_spec host run packages policy w)
      as (analyses & w' & Hres & ->).
    cbn [fst].
    assert (Hall : forall a, In a analyses -> licenses a = []).
    { intros a Ha.
      assert (Hf : In (forget a)
                      (fulfilledValues (map (detection host None) packages))).
      { rewrite <- Hres. now apply in_map. }
      unfold fulfilledValues in Hf. apply in_flat_map in Hf as (r & Hr & Hv).
      apply in_map_iff in Hr as (p & <- & Hp).
      destruct (detection host None p) as [a'|e] eqn:Ed; [|contradiction].
      destruct Hv as [Heq|[]].
      change (licenses a) with (licenses (forget a)). rewrite <- Heq.
      apply (Hnone p a' Hp Ed). }
    assert (Hvs : Service.checkAnalyses policy analyses = []).
    { rewrite checkAnalyses_flat. clear Hres.
      induction analyses as [|a rest IH]; simpl; [reflexivity|].
      rewrite (Hall a) by (now left). simpl. apply IH.
      intros b Hb. apply Hall. now right. }
    now rewrite Hvs.
Qed.

Lemma length_fulfilledValues {A B} (f : A -> Outcome B) (l : list A) :
  (List.length (fulfilledValues (map f l))
   + List.length (filter (fun x => negb (isFulfilled (f x))) l)
   = List.length l)%nat.
Proof.
  induction l as [|x xs IH]; simpl; [reflexivity|].
  destruct (f x); simpl; lia.
Qed.

(** C3: when exactly one detection among [N] packages fails,
    [analyzeLicenses] returns (it fulfils, it does not throw) [N - 1]
    analyses, those of the packages whose detection succeeds, in order;
    and its log shows the packages handled in batches of ten, every call
    of a batch having ended before a call of the next batch starts. *)
Theorem analyzeLicenses_partial_success :
  forall (host : Host) (run : Run) (options : option LicenseScanOptions)
         (packages : list Package) (w : World),
    List.length (failing host options packages) = 1%nat ->
    exists analyses w' delta,
      Service.analyzeLicenses host run packages options w = (Fulfilled analyses, w')
      /\ List.length analyses = (List.length packages - 1)%nat
      /\ map forget analyses
         = fulfilledValues (map (detection host options) packages)
      /\ log w' = log w ++ delta
      /\ Spec.BatchedTrace packages (steps delta).
Proof.
  intros host run options packages w Hone.
  destruct (analyzeLicenses_spec host run options packages w)
    as (analyses & w' & delta & Hrun & Hres & Hlog & Htrace).
  exists analyses, w', delta.
  split; [exact Hrun|]. split; [|auto].
  pose proof (length_fulfilledValues (detection host options) packages) as Hlen.
  unfold failing in Hone. rewrite Hone, <- Hres, length_map in Hlen. lia.
Qed.

(** ** Integers in doubles *)

(** Sums of small integers are exact in doubles: the double of an integer
    below 2^53 has a mantissa of 53 bits that holds all its bits, and
    adding two such doubles loses nothing as long as the sum stays below
    2^53. *)
Section IntegersInDoubles.

Lemma digits2_size (p : positive) : digits2_pos p = Pos.size p.
Proof. induction p as [p IH|p IH|]; simpl; now rewrite ?IH. Qed.

Lemma digits2_bounds (p : positive) :
  (2 ^ (Z.pos (digits2_pos p) - 1) <= Z.pos p < 2 ^ Z.pos (digits2_pos p))%Z.
Proof.
  rewrite digits2_size. split.
  - pose proof (Pos.size_le p) as H.
    assert (H2 : (2 ^ Z.pos (Pos.size p) <= 2 * Z.pos p)%Z).
    { change (2 * Z.pos p)%Z with (Z.pos p~0).
      rewrite <- Pos2Z.inj_pow. now apply Pos2Z.pos_le_pos. }
    replace (Z.pos (Pos.size p)) with (Z.succ (Z.pos (Pos.size p) - 1)) in H2 by lia.
    rewrite Z.pow_succ_r in H2 by lia. lia.
  - pose proof (Pos.size_gt p) as H.
    change 2%Z with (Z.pos 2). rewrite <- Pos2Z.inj_pow. now apply Pos2Z.pos_lt_pos.
Qed.

Lemma digits2_le (p : positive) (n : Z) :
  (Z.pos p < 2 ^ n)%Z -> (0 <= n)%Z -> (Z.pos (digits2_pos p) <= n)%Z.
Proof.
  intros Hp Hn. pose proof (digits2_bounds p) as [Hlo _].
  destruct (Z_le_gt_dec (Z.pos (digits2_pos p)) n) as [H|H]; [exact H|].
  exfalso.
  assert (2 ^ n <= 2 ^ (Z.pos (digits2_pos p) - 1))%Z
    by (apply Z.pow_le_mono_r; lia).
  lia.
Qed.

Lemma digits2_mono (p q : positive) :
  (Z.pos p <= Z.pos q)%Z -> (Z.pos (digits2_pos p) <= Z.pos (digits2_pos q))%Z.
Proof.
  intros Hpq. apply digits2_le; [|lia].
  pose proof (digits2_bounds q) as [_ Hhi]. lia.
Qed.

Lemma iter_xO_value (p n : positive) :
  Z.pos (Pos.iter xO p n) = (Z.pos p * 2 ^ Z.pos n)%Z.
Proof.
  induction n as [|n IH] using Pos.peano_ind.
  - simpl. lia.
  - rewrite Pos.iter_succ, Pos2Z.inj_succ, Z.pow_succ_r by lia.
    rewrite Pos2Z.inj_xO, IH. ring.
Qed.

Lemma shiftP_value (p : positive) (k : Z) :
  (0 <= k)%Z -> Z.pos (shiftP p k) = (Z.pos p * 2 ^ k)%Z.
Proof.
  intros Hk. destruct k as [|n|n]; simpl shiftP; [simpl; lia| |lia].
  apply iter_xO_value.
Qed.

Lemma iter_xO_digits (p n : positive) :
  digits2_pos (Pos.iter xO p n) = (digits2_pos p + n)%positive.
Proof.
  induction n as [|n IH] using Pos.peano_ind.
  - simpl. lia.
  - rewrite Pos.iter_succ. simpl. rewrite IH. lia.
Qed.

Lemma shiftP_digits (p : positive) (k : Z) :
  (0 <= k)%Z -> Z.pos (digits2_pos (shiftP p k)) = (Z.pos (digits2_pos p) + k)%Z.
Proof.
  intros Hk. destruct k as [|n|n]; simpl shiftP; [lia| |lia].
  rewrite iter_xO_digits. lia.
Qed.

(** Shifting back to the right loses nothing. *)
Lemma shr_iter_exact (n : positive) :
  forall q : positive,
    SpecFloat.iter_pos shr_1 n (Build_shr_record (Z.pos (Pos.iter xO q n)) false false)
    = Build_shr_record (Z.pos q) false false.
Proof.
  induction n as [n IH|n IH|]; intros q; simpl.
  - rewrite IH, IH. reflexivity.
  - rewrite IH, IH. reflexivity.
  - reflexivity.
Qed.

(** Rounding a mantissa whose surplus bits are zero is exact. *)
Lemma binary_round_aux_exact (M q : positive) (k E : Z) :
  Z.pos M = (Z.pos q * 2 ^ k)%Z -> (0 <= k)%Z ->
  Z.pos (digits2_pos q) = 53%Z ->
  (-1074 <= E)%Z -> (E + k <= 971)%Z ->
  binary_round_aux prec emax false (Z.pos M) E loc_Exact
  = S754_finite false q (E + k).
Proof.
  intros HM Hk Hq HE Hmax.
  assert (HMs : M = shiftP q k)
    by (apply Pos2Z.inj; now rewrite shiftP_value).
  subst M. clear HM.
  unfold binary_round_aux, shr_fexp, fexp, shr_record_of_loc, Zdigits2.
  rewrite shiftP_digits, Hq by exact Hk.
  change (SpecFloat.emin prec emax) with (-1074)%Z. change prec with 53%Z.
  change emax with 1024%Z.
  rewrite Z.max_l by lia.
  replace (53 + k + E - 53 - E)%Z with k by ring.
  destruct k as [|n|n]; [| |lia].
  - cbn [shr shiftP shr_m loc_of_shr_record round_nearest_even Zdigits2].
    rewrite Hq. rewrite Z.max_l by lia.
    replace (53 + E - 53 - E)%Z with 0%Z by ring.
    cbn [shr shr_m]. rewrite Z.add_0_r.
    replace (E <=? 1024 - 53)%Z with true by (symmetry; apply Z.leb_le; lia).
    reflexivity.
  - cbn [shr shiftP]. rewrite shr_iter_exact.
    cbn [shr_m loc_of_shr_record round_nearest_even Zdigits2].
    rewrite Hq. rewrite Z.max_l by lia.
    replace (53 + (E + Z.pos n) - 53 - (E + Z.pos n))%Z with 0%Z by ring.
    cbn [shr shr_m].
    replace (E + Z.pos n <=? 1024 - 53)%Z with true by (symmetry; apply Z.leb_le; lia).
    reflexivity.
Qed.

Lemma intMantissa_digits (c : positive) :
  (Z.pos c < 2 ^ 53)%Z -> Z.pos (digits2_pos (intMantissa c)) = 53%Z.
Proof.
  intros Hc. unfold intMantissa.
  assert (Z.pos (digits2_pos c) <= 53)%Z by (apply digits2_le; lia).
  rewrite shiftP_digits by lia. lia.
Qed.

Lemma binary_normalize_integer (c : positive) :
  (Z.pos c < 2 ^ 53)%Z ->
  binary_normalize prec emax (Z.pos c) 0 false
  = S754_finite false (intMantissa c) (intExponent c).
Proof.
  intros Hc.
  assert (Hd : (Z.pos (digits2_pos c) <= 53)%Z) by (apply digits2_le; lia).
  pose proof (intMantissa_digits c Hc) as Hq.
  unfold binary_normalize, binary_round, shl_align, fexp.
  change (SpecFloat.emin prec emax) with (-1074)%Z. change prec with 53%Z.
  rewrite Z.add_0_r, Z.sub_0_r, Z.max_l by lia.
  destruct (Z.pos (digits2_pos c) - 53)%Z as [|n|n] eqn:Ek; [|lia|].
  - transitivity (S754_finite false (intMantissa c) (0 + 0));
      [apply binary_round_aux_exact; try lia|f_equal; unfold intExponent; lia].
    unfold intMantissa. rewrite shiftP_value by lia.
    replace (53 - Z.pos (digits2_pos c))%Z with 0%Z by lia. simpl. lia.
  - transitivity (S754_finite false (intMantissa c) (Z.neg n + 0));
      [apply binary_round_aux_exact; try lia|f_equal; unfold intExponent; lia].
    unfold intMantissa. rewrite iter_xO_value, shiftP_value by lia.
    replace (53 - Z.pos (digits2_pos c))%Z with (Z.pos n) by lia.
    simpl (2 ^ 0)%Z. lia.
Qed.

Lemma SFadd_integers (a b : positive) :
  (Z.pos (a + b) < 2 ^ 53)%Z ->
  SFadd prec emax (S754_finite false (intMantissa a) (intExponent a))
                  (S754_finite false (intMantissa b) (intExponent b))
  = S754_finite false (intMantissa (a + b)) (intExponent (a + b)).
Proof.
  intros Hc.
  assert (Hab : (Z.pos (a + b) = Z.pos a + Z.pos b)%Z) by lia.
  assert (Ha : (Z.pos a < 2 ^ 53)%Z) by lia.
  assert (Hb : (Z.pos b < 2 ^ 53)%Z) by lia.
  assert (Hda : (1 <= Z.pos (digits2_pos a) <= 53)%Z)
    by (split; [lia|apply digits2_le; lia]).
  assert (Hdb : (1 <= Z.pos (digits2_pos b) <= 53)%Z)
    by (split; [lia|apply digits2_le; lia]).
  assert (Hdc : (Z.pos (digits2_pos (a + b)) <= 53)%Z) by (apply digits2_le; lia).
  assert (Hac : (Z.pos (digits2_pos a) <= Z.pos (digits2_pos (a + b)))%Z)
    by (apply digits2_mono; lia).
  assert (Hbc : (Z.pos (digits2_pos b) <= Z.pos (digits2_pos (a + b)))%Z)
    by (apply digits2_mono; lia).
  unfold SFadd. cbn [cond_Zopp].
  set (ez := Z.min (intExponent a) (intExponent b)).
  assert (Hez : (-52 <= ez <= 0)%Z) by (unfold ez, intExponent; lia).
  assert (Hshift : forall (q : positive) (e : Z),
             (ez <= e)%Z ->
             Z.pos (fst (shl_align q e ez)) = (Z.pos q * 2 ^ (e - ez))%Z).
  { intros q e He. unfold shl_align.
    destruct (ez - e)%Z as [|n|n] eqn:Ed; cbn [fst].
    - replace (e - ez)%Z with 0%Z by lia. simpl. lia.
    - lia.
    - rewrite iter_xO_value. replace (e - ez)%Z with (Z.pos n) by lia. reflexivity. }
  assert (Hsum : (Z.pos (fst (shl_align (intMantissa a) (intExponent a) ez))
                  + Z.pos (fst (shl_align (intMantissa b) (intExponent b) ez))
                  = Z.pos (a + b) * 2 ^ (- ez))%Z).
  { rewrite !Hshift by (unfold ez; lia).
    unfold intMantissa. rewrite !shiftP_value by lia.
    rewrite <- !Z.mul_assoc, <- !Z.pow_add_r by (unfold intExponent in *; lia).
    unfold intExponent.
    replace (53 - Z.pos (digits2_pos a) + (Z.pos (digits2_pos a) - 53 - ez))%Z
      with (- ez)%Z by ring.
    replace (53 - Z.pos (digits2_pos b) + (Z.pos (digits2_pos b) - 53 - ez))%Z
      with (- ez)%Z by ring.
    lia. }
  change (Z.pos (fst (shl_align (intMantissa a) (intExponent a) ez))
          + Z.pos (fst (shl_align (intMantissa b) (intExponent b) ez)))%Z
    with (Z.pos (fst (shl_align (intMantissa a) (intExponent a) ez)
                 + fst (shl_align (intMantissa b) (intExponent b) ez))) in *.
  set (M := (fst (shl_align (intMantissa a) (intExponent a) ez)
             + fst (shl_align (intMantissa b) (intExponent b) ez))%positive) in *.
  assert (HdM : Z.pos (digits2_pos M) = (Z.pos (digits2_pos (a + b)) - ez)%Z).
  { assert (HMs : M = shiftP (a + b) (- ez))
      by (apply Pos2Z.inj; rewrite shiftP_value by lia; exact Hsum).
    rewrite HMs, shiftP_digits by lia. ring. }
  unfold binary_normalize, binary_round, shl_align, fexp.
  rewrite HdM.
  change (SpecFloat.emin prec emax) with (-1074)%Z. change prec with 53%Z.
  replace (Z.pos (digits2_pos (a + b)) - ez + ez - 53)%Z
    with (intExponent (a + b)) by (unfold intExponent; ring).
  rewrite Z.max_l by (unfold intExponent; lia).
  destruct (intExponent (a + b) - ez)%Z as [|n|n] eqn:Ek;
    [| |unfold ez, intExponent in *; lia].
  - replace (intExponent (a + b)) with (ez + 0)%Z by lia.
    apply binary_round_aux_exact; try lia.
    + rewrite Hsum. unfold intMantissa. rewrite shiftP_value by lia.
      replace (53 - Z.pos (digits2_pos (a + b)))%Z with (- ez)%Z
        by (unfold intExponent in Ek; lia).
      simpl (2 ^ 0)%Z. lia.
    + now apply intMantissa_digits.
  - replace (intExponent (a + b)) with (ez + Z.pos n)%Z by lia.
    apply binary_round_aux_exact; try lia.
    + rewrite Hsum. unfold intMantissa. rewrite shiftP_value by lia.
      rewrite <- Z.mul_assoc, <- Z.pow_add_r by lia.
      replace (53 - Z.pos (digits2_pos (a + b)) + Z.pos n)%Z with (- ez)%Z
        by (unfold intExponent in Ek; lia).
      reflexivity.
    + now apply intMantissa_digits.
    + unfold intExponent in Ek. lia.
Qed.

Lemma to_Z_of_Z_small (z : Z) :
  (0 <= z < 2 ^ 53)%Z -> Uint63.to_Z (Uint63.of_Z z) = z.
Proof.
  intros Hz. rewrite Uint63.of_Z_spec. apply Z.mod_small.
  change Uint63.wB with (2 ^ 63)%Z.
  assert (2 ^ 53 < 2 ^ 63)%Z by (apply Z.pow_lt_mono_r; lia). lia.
Qed.

Lemma Prim2SF_js_of_Z (z : Z) :
  (0 <= z < 2 ^ 53)%Z ->
  Prim2SF (js_of_Z z) = binary_normalize prec emax z 0 false.
Proof.
  intros Hz. unfold js_of_Z.
  replace (z <? 0)%Z with false by (symmetry; apply Z.ltb_ge; lia).
  now rewrite of_uint63_spec, to_Z_of_Z_small.
Qed.

(** Adding two non-negative integers whose sum is below 2^53 is exact. *)
Lemma add_integers (a b : Z) :
  (0 <= a)%Z -> (0 <= b)%Z -> (a + b < 2 ^ 53)%Z ->
  (js_of_Z a + js_of_Z b)%float = js_of_Z (a + b).
Proof.
  intros Ha Hb Hc. apply Prim2SF_inj.
  rewrite FloatAxioms.add_spec, !Prim2SF_js_of_Z by lia.
  unfold SF64add.
  destruct a as [|a|a]; [|destruct b as [|b|b]|]; try lia.
  - destruct b as [|b|b]; [reflexivity| |lia].
    simpl Z.add. rewrite binary_normalize_integer by lia. reflexivity.
  - rewrite Z.add_0_r, binary_normalize_integer by lia. reflexivity.
  - simpl Z.add. rewrite !binary_normalize_integer by lia.
    now apply SFadd_integers.
Qed.

End IntegersInDoubles.

(** ** Comparisons of doubles *)

Section DoubleComparisons.

Lemma SFcompare_antisym (x y : spec_float) :
  SFcompare y x = option_map CompOpp (SFcompare x y).
Proof.
  destruct x as [sx|sx| |sx mx ex], y as [sy|sy| |sy my ey]; simpl;
    try reflexivity;
    try (destruct sx; reflexivity); try (destruct sy; reflexivity);
    try (destruct sx, sy; reflexivity).
  destruct sx, sy; simpl; try reflexivity.
  - rewrite (Z.compare_antisym ex ey).
    destruct (ex ?= ey)%Z; simpl; try reflexivity.
    rewrite (Pos.compare_cont_antisym mx my Eq). reflexivity.
  - rewrite (Z.compare_antisym ex ey).
    destruct (ex ?= ey)%Z; simpl; try reflexivity.
    rewrite (Pos.compare_cont_antisym mx my Eq). reflexivity.
Qed.

Lemma SFcompare_refl (x : spec_float) :
  x <> S754_nan -> SFcompare x x = Some Eq.
Proof.
  destruct x as [s|s| |s m e]; simpl; try congruence; intros _.
  - now destruct s.
  - rewrite Z.compare_refl, Pos.compare_cont_refl. now destruct s.
Qed.

Lemma SFcompare_None (x y : spec_float) :
  SFcompare x y = None -> x = S754_nan \/ y = S754_nan.
Proof.
  destruct x as [sx|sx| |sx mx ex], y as [sy|sy| |sy my ey]; simpl;
    try discriminate; auto.
Qed.

Lemma is_nan_Prim2SF (x : float) :
  PrimFloat.is_nan x = true <-> Prim2SF x = S754_nan.
Proof.
  unfold PrimFloat.is_nan. rewrite FloatAxioms.eqb_spec. unfold SFeqb. split.
  - intros H. destruct (Prim2SF x) eqn:E; try reflexivity;
      rewrite SFcompare_refl in H by discriminate; discriminate.
  - intros ->. reflexivity.
Qed.

Lemma is_nan_false (x : float) :
  PrimFloat.is_nan x = false <-> Prim2SF x <> S754_nan.
Proof.
  rewrite <- is_nan_Prim2SF. destruct (PrimFloat.is_nan x); split; congruence.
Qed.

Lemma nan_unique (x : float) : Prim2SF x = S754_nan -> x = PrimFloat.nan.
Proof. intros H. apply Prim2SF_inj. now rewrite H. Qed.

Lemma ltb_leb (x y : float) : (x <? y)%float = true -> (x <=? y)%float = true.
Proof.
  rewrite FloatAxioms.ltb_spec, FloatAxioms.leb_spec. unfold SFltb, SFleb.
  destruct (SFcompare _ _) as [[| |]|]; congruence.
Qed.

Lemma leb_not_nan (k x : float) :
  (k <=? x)%float = true -> PrimFloat.is_nan x = false.
Proof.
  rewrite FloatAxioms.leb_spec, is_nan_false. unfold SFleb. intros H E.
  rewrite E in H. destruct (Prim2SF k); discriminate.
Qed.

Lemma leb_false_ltb (k x : float) :
  PrimFloat.is_nan k = false -> PrimFloat.is_nan x = false ->
  (k <=? x)%float = false -> (x <? k)%float = true.
Proof.
  rewrite !is_nan_false, FloatAxioms.leb_spec, FloatAxioms.ltb_spec.
  unfold SFleb, SFltb. intros Hk Hx.
  rewrite (SFcompare_antisym (Prim2SF k) (Prim2SF x)).
  destruct (SFcompare (Prim2SF k) (Prim2SF x)) as [[| |]|] eqn:E;
    simpl; try congruence.
  intros _. destruct (SFcompare_None _ _ E); contradiction.
Qed.

Lemma not_ltb_leb (x y : float) :
  PrimFloat.is_nan x = false -> PrimFloat.is_nan y = false ->
  (y <? x)%float = false -> (x <=? y)%float = true.
Proof.
  rewrite !is_nan_false, FloatAxioms.leb_spec, FloatAxioms.ltb_spec.
  unfold SFleb, SFltb. intros Hx Hy.
  rewrite (SFcompare_antisym (Prim2SF x) (Prim2SF y)).
  destruct (SFcompare (Prim2SF x) (Prim2SF y)) as [[| |]|] eqn:E;
    simpl; try congruence.
  intros _. destruct (SFcompare_None _ _ E); contradiction.
Qed.

(** [Math.min(x, 100)] is at most 100, or it is [NaN]. *)
Lemma Math_min_capped (x : float) :
  (Math_min x 100 <=? 100)%float = true \/ Math_min x 100 = PrimFloat.nan.
Proof.
  unfold Math_min.
  destruct (PrimFloat.is_nan x) eqn:En; [now right|]. left.
  change (PrimFloat.is_nan 100) with false. cbn [orb].
  destruct (x <? 100)%float eqn:E1; [now apply ltb_leb|].
  destruct (100 <? x)%float eqn:E2; [reflexivity|].
  destruct (PrimFloat.get_sign x); [|reflexivity].
  now apply not_ltb_leb.
Qed.

End DoubleComparisons.

(** ** Doubles that are not below zero *)

Section Signs.

Lemma shr_1_nonneg (mrs : shr_record) :
  (0 <= shr_m mrs)%Z -> (0 <= shr_m (shr_1 mrs))%Z.
Proof.
  destruct mrs as [m r s]. simpl.
  destruct m as [|[p|p|]|[p|p|]]; simpl; lia.
Qed.

Lemma shr_iter_nonneg (n : positive) :
  forall mrs, (0 <= shr_m mrs)%Z -> (0 <= shr_m (SpecFloat.iter_pos shr_1 n mrs))%Z.
Proof.
  induction n as [n IH|n IH|]; intros mrs H; simpl.
  - apply IH, IH, shr_1_nonneg, H.
  - apply IH, IH, H.
  - apply shr_1_nonneg, H.
Qed.

Lemma shr_fexp_nonneg (m e : Z) (l : location) :
  (0 <= m)%Z -> (0 <= shr_m (fst (shr_fexp prec emax m e l)))%Z.
Proof.
  intros Hm. unfold shr_fexp, shr.
  assert (H0 : (0 <= shr_m (shr_record_of_loc m l))%Z)
    by (destruct l as [|[| |]]; exact Hm).
  destruct (fexp prec emax (Zdigits2 m + e) - e)%Z; cbn [fst]; try exact H0.
  now apply shr_iter_nonneg.
Qed.

Lemma round_nearest_even_nonneg (m : Z) (l : location) :
  (0 <= m)%Z -> (0 <= round_nearest_even m l)%Z.
Proof.
  intros Hm. destruct l as [|[| |]]; simpl; try lia.
  destruct (Z.even m); lia.
Qed.

(** Rounding a non-negative mantissa gives a number that is not below 0. *)
Lemma binary_round_aux_nonneg (m e : Z) (l : location) :
  (0 <= m)%Z ->
  SFleb (S754_zero false) (binary_round_aux prec emax false m e l) = true.
Proof.
  intros Hm. unfold binary_round_aux.
  pose proof (shr_fexp_nonneg m e l Hm) as H1.
  destruct (shr_fexp prec emax m e l) as [mrs' e'] eqn:E1. cbn [fst] in H1.
  pose proof (shr_fexp_nonneg
                (round_nearest_even (shr_m mrs') (loc_of_shr_record mrs')) e'
                loc_Exact (round_nearest_even_nonneg _ _ H1)) as H2.
  destruct (shr_fexp prec emax _ e' loc_Exact) as [mrs'' e''] eqn:E2.
  cbn [fst] in H2.
  destruct (shr_m mrs'') as [|p|p]; [reflexivity| |lia].
  destruct (e'' <=? emax - prec)%Z; reflexivity.
Qed.

Lemma binary_normalize_nonneg (z e : Z) :
  (0 <= z)%Z ->
  SFleb (S754_zero false) (binary_normalize prec emax z e false) = true.
Proof.
  intros Hz. destruct z as [|p|p]; [reflexivity| |lia].
  unfold binary_normalize, binary_round.
  destruct (shl_align _ _ _) as [mz ez].
  apply binary_round_aux_nonneg. lia.
Qed.

Lemma SFadd_nonneg (x y : spec_float) :
  SFleb (S754_zero false) x = true -> SFleb (S754_zero false) y = true ->
  SFleb (S754_zero false) (SFadd prec emax x y) = true.
Proof.
  destruct x as [sx|sx| |sx mx ex], y as [sy|sy| |sy my ey];
    try discriminate; try (destruct sx; discriminate);
    try (destruct sy; discriminate); intros Hx Hy;
    try (destruct sx, sy; reflexivity || discriminate);
    try (destruct sx; reflexivity || discriminate);
    try (destruct sy; reflexivity || discriminate).
  destruct sx; [discriminate|]. destruct sy; [discriminate|].
  unfold SFadd. cbn [cond_Zopp]. apply binary_normalize_nonneg. lia.
Qed.

Lemma SFdiv_nonneg (x : spec_float) (my : positive) (ey : Z) :
  SFleb (S754_zero false) x = true ->
  SFleb (S754_zero false) (SFdiv prec emax x (S754_finite false my ey)) = true.
Proof.
  destruct x as [sx|sx| |sx mx ex]; try discriminate; intros Hx.
  - now destruct sx.
  - destruct sx; [discriminate|reflexivity].
  - destruct sx; [discriminate|]. unfold SFdiv.
    destruct (SFdiv_core_binary prec emax (Z.pos mx) ex (Z.pos my) ey)
      as [[mz ez] lz] eqn:Ed.
    cbn [xorb]. apply binary_round_aux_nonneg.
    unfold SFdiv_core_binary in Ed.
    set (s := (ex - ey - _)%Z) in Ed.
    set (m' := match s with
               | Z.pos _ => Z.shiftl (Z.pos mx) s
               | Z0 => Z.pos mx
               | Z.neg _ => Z0
               end) in Ed.
    assert (Hm' : (0 <= m')%Z).
    { unfold m'. destruct s; try lia. apply Z.shiftl_nonneg. lia. }
    pose proof (Z.div_pos m' (Z.pos my) Hm' ltac:(lia)) as Hq.
    unfold Z.div in Hq. destruct (Z.div_eucl m' (Z.pos my)) as [q r].
    injection Ed as <- _ _. exact Hq.
Qed.

Lemma js_of_Z_nonneg (z : Z) :
  (0 <= z)%Z -> SFleb (S754_zero false) (Prim2SF (js_of_Z z)) = true.
Proof.
  intros Hz. unfold js_of_Z.
  replace (z <? 0)%Z with false by (symmetry; apply Z.ltb_ge; lia).
  rewrite of_uint63_spec. apply binary_normalize_nonneg.
  apply Uint63.to_Z_bounded.
Qed.

Lemma Math_round_nonneg (x : float) :
  SFleb (S754_zero false) (Prim2SF x) = true ->
  SFleb (S754_zero false) (Prim2SF (Math_round x)) = true.
Proof.
  intros Hx. unfold Math_round.
  destruct (Prim2SF x) as [s|s| |s m e] eqn:E; try (now rewrite E).
  destruct s; [discriminate|].
  destruct (Z.leb_spec 0 e) as [He|He]; [now rewrite E|].
  cbv zeta.
  destruct (Z.eqb_spec ((2 * Z.pos m + 2 ^ (- e)) / (2 * 2 ^ (- e))) 0) as [_|Hr];
    [reflexivity|].
  apply js_of_Z_nonneg. apply Z.div_pos.
  - assert (0 <= 2 ^ (- e))%Z by (apply Z.pow_nonneg; lia). lia.
  - assert (0 < 2 ^ (- e))%Z by (apply Z.pow_pos_nonneg; lia). lia.
Qed.

Lemma Math_min_nonneg (x : float) :
  SFleb (S754_zero false) (Prim2SF x) = true ->
  (0 <=? Math_min x 100)%float = true.
Proof.
  intros Hx. rewrite FloatAxioms.leb_spec.
  change (Prim2SF 0) with (S754_zero false).
  unfold Math_min.
  assert (Hn : PrimFloat.is_nan x = false).
  { apply is_nan_false. intros E. rewrite E in Hx. discriminate. }
  rewrite Hn. change (PrimFloat.is_nan 100) with false. cbn [orb].
  destruct (x <? 100)%float; [exact Hx|].
  destruct (100 <? x)%float; [reflexivity|].
  destruct (PrimFloat.get_sign x); [exact Hx|reflexivity].
Qed.

End Signs.

(** ** Project risk score *)

Section RiskScoreFacts.
Import Service.

Lemma totalRiskWeight_cons (a : LicenseAnalysis) (rest : list LicenseAnalysis) :
  Spec.totalRiskWeight (a :: rest)
  = Spec.riskWeight (riskLevel a) + Spec.totalRiskWeight rest.
Proof. reflexivity. Qed.

Lemma totalRiskWeight_bounds (analyses : list LicenseAnalysis) :
  Z.of_nat (List.length analyses) <= Spec.totalRiskWeight analyses
  <= 20 * Z.of_nat (List.length analyses).
Proof.
  induction analyses as [|a rest IH];
    [unfold Spec.totalRiskWeight, Spec.sumZ; simpl; lia|].
  rewrite totalRiskWeight_cons. cbn [List.length]. rewrite Nat2Z.inj_succ.
  destruct (riskLevel a); cbn [Spec.riskWeight]; lia.
Qed.

(** The loop over the analyses adds integers, and their sum is exact. *)
Lemma fold_risk_weights (analyses : list LicenseAnalysis) (acc : Z) :
  0 <= acc -> acc + Spec.totalRiskWeight analyses < 2 ^ 53 ->
  fold_left
    (fun riskScore analysis =>
       match riskLevel analysis with
       | LegalRiskLevel.CRITICAL => riskScore + 20
       | LegalRiskLevel.VERY_HIGH => riskScore + 15
       | LegalRiskLevel.HIGH => riskScore + 10
       | LegalRiskLevel.MEDIUM => riskScore + 5
       | LegalRiskLevel.LOW => riskScore + 2
       | LegalRiskLevel.VERY_LOW => riskScore + 1
       end%float)
    analyses (js_of_Z acc)
  = js_of_Z (acc + Spec.totalRiskWeight analyses).
Proof.
  revert acc. induction analyses as [|a rest IH]; intros acc Hacc Hsum;
    cbn [fold_left].
  - now rewrite Z.add_0_r.
  - rewrite totalRiskWeight_cons in *.
    pose proof (totalRiskWeight_bounds rest) as [Hlow _].
    assert (Hw : 1 <= Spec.riskWeight (riskLevel a) <= 20)
      by (destruct (riskLevel a); cbn [Spec.riskWeight]; lia).
    assert (Hstep :
      match riskLevel a with
      | LegalRiskLevel.CRITICAL => (js_of_Z acc + 20)%float
      | LegalRiskLevel.VERY_HIGH => (js_of_Z acc + 15)%float
      | LegalRiskLevel.HIGH => (js_of_Z acc + 10)%float
      | LegalRiskLevel.MEDIUM => (js_of_Z acc + 5)%float
      | LegalRiskLevel.LOW => (js_of_Z acc + 2)%float
      | LegalRiskLevel.VERY_LOW => (js_of_Z acc + 1)%float
      end = js_of_Z (acc + Spec.riskWeight (riskLevel a))).
    { destruct (riskLevel a); cbn [Spec.riskWeight] in *;
        [change 1%float with (js_of_Z 1)|change 2%float with (js_of_Z 2)
        |change 5%float with (js_of_Z 5)|change 10%float with (js_of_Z 10)
        |change 15%float with (js_of_Z 15)|change 20%float with (js_of_Z 20)];
        apply add_integers; lia. }
    rewrite Hstep, IH by lia. f_equal. lia.
Qed.

(** The score as a formula: the code's loop is the exact sum. *)
Lemma calculateRiskScore_divided analyses report :
  Z.of_nat (List.length analyses) < 2 ^ 32 ->
  calculateRiskScore analyses report = Spec.dividedRiskScore analyses report.
Proof.
  intros Hlen. unfold calculateRiskScore, Spec.dividedRiskScore.
  pose proof (totalRiskWeight_bounds analyses) as [_ Hhigh].
  assert (Hpow : 20 * 2 ^ 32 < 2 ^ 53) by reflexivity.
  change 0%float with (js_of_Z 0).
  rewrite fold_risk_weights by lia. reflexivity.
Qed.

Lemma determineOverallRisk_level (score : float) :
  Spec.projectLevel score (determineOverallRisk score).
Proof.
  unfold determineOverallRisk, js_ge.
  destruct (80 <=? score)%float eqn:E80; [now constructor|].
  destruct (60 <=? score)%float eqn:E60.
  { constructor; [exact E60|].
    apply leb_false_ltb; [reflexivity|now apply (leb_not_nan 60)|exact E80]. }
  destruct (40 <=? score)%float eqn:E40.
  { constructor; [exact E40|].
    apply leb_false_ltb; [reflexivity|now apply (leb_not_nan 40)|exact E60]. }
  destruct (20 <=? score)%float eqn:E20.
  { constructor; [exact E20|].
    apply leb_false_ltb; [reflexivity|now apply (leb_not_nan 20)|exact E40]. }
  destruct (10 <=? score)%float eqn:E10.
  { constructor; [exact E10|].
    apply leb_false_ltb; [reflexivity|now apply (leb_not_nan 10)|exact E20]. }
  constructor. destruct (PrimFloat.is_nan score) eqn:En; [now right|left].
  apply leb_false_ltb; [reflexivity|exact En|exact E10].
Qed.

(** With a compatibility score that is not below 0, the score of at
    least one analysis is not below 0. *)
Lemma calculateRiskScore_nonneg analyses report :
  analyses <> [] ->
  Z.of_nat (List.length analyses) < 2 ^ 32 ->
  (0 <=? summary_riskScore report)%float = true ->
  (0 <=? calculateRiskScore analyses report)%float = true.
Proof.
  intros Hne Hlen Hs.
  rewrite calculateRiskScore_divided by exact Hlen.
  unfold Spec.dividedRiskScore.
  apply Math_min_nonneg, Math_round_nonneg.
  rewrite FloatAxioms.div_spec, FloatAxioms.add_spec.
  pose proof (totalRiskWeight_bounds analyses) as [Hlow _].
  assert (Hn : 0 < Z.of_nat (List.length analyses))
    by (destruct analyses; [congruence|cbn [List.length]; lia]).
  assert (Hpow : 2 ^ 32 < 2 ^ 53) by reflexivity.
  unfold js_of_nat. rewrite (Prim2SF_js_of_Z (Z.of_nat _)) by lia.
  destruct (Z.of_nat (List.length analyses)) as [|n|n] eqn:En; try lia.
  rewrite binary_normalize_integer by lia.
  apply SFdiv_nonneg, SFadd_nonneg.
  - apply js_of_Z_nonneg. lia.
  - rewrite FloatAxioms.leb_spec in Hs. exact Hs.
Qed.

(** The report of [assessLegalRisk] carries the score computed from the
    analyses and the compatibility report, and the level derived from that
    score. *)
Lemma assessLegalRisk_report host run packages options w report w' :
  Service.assessLegalRisk host run packages options w = (Fulfilled report, w') ->
  exists analyses compatibility,
    map forget analyses = fulfilledValues (map (detection host options) packages)
    /\ generateCompatibilityReport host packages analyses options
       = Fulfilled compatibility
    /\ riskScore report = calculateRiskScore analyses compatibility
    /\ overallRisk report
       = determineOverallRisk (calculateRiskScore analyses compatibility).
Proof.
  unfold Service.assessLegalRisk, try_catch, bind, lift, Date_now, logger, ret, throw.
  cbn [fst snd].
  match goal with
  | |- context [analyzeLicenses host run packages options ?w1] =>
      destruct (analyzeLicenses_spec host run options packages w1)
        as (analyses & w2 & d & -> & Hres & _)
  end.
  destruct (generateCompatibilityReport host packages analyses options)
    as [compatibility|e] eqn:Ec; [|discriminate].
  intros Hrun. injection Hrun as Hreport _.
  exists analyses, compatibility. subst report.
  repeat split; try assumption; reflexivity.
Qed.

(** C1 (amended): for a non-empty list of analyses (an array, so fewer
    than 2^32 of them), the risk score is
    [Math.min(Math.round((W + s) / N), 100)] in double arithmetic, where
    [W] is the exact sum of the per-analysis weights, [s] the
    compatibility score and [N] the number of analyses: the compatibility
    score is inside the division, and only the upper bound is enforced.
    The score is at most 100 or not a number; it is not below 0 when the
    compatibility score is not; the overall risk follows from it by the
    project-level breakpoints.  The legal-risk report carries this score
    and this level. *)
Theorem calculateRiskScore_formula :
  (forall (analyses : list LicenseAnalysis) (report : CompatibilityReport),
      analyses <> [] ->
      Z.of_nat (List.length analyses) < 2 ^ 32 ->
      calculateRiskScore analyses report = Spec.dividedRiskScore analyses report
      /\ ((calculateRiskScore analyses report <=? 100)%float = true
          \/ calculateRiskScore analyses report = PrimFloat.nan)
      /\ ((0 <=? summary_riskScore report)%float = true ->
          (0 <=? calculateRiskScore analyses report)%float = true)
      /\ Spec.projectLevel
           (calculateRiskScore analyses report)
           (determineOverallRisk (calculateRiskScore analyses report)))
  /\ (forall host run packages options w report w',
         Service.assessLegalRisk host run packages options w = (Fulfilled report, w') ->
         exists analyses compatibility,
           map forget analyses
           = fulfilledValues (map (detection host options) packages)
           /\ generateCompatibilityReport host packages analyses options
              = Fulfilled compatibility
           /\ riskScore report = calculateRiskScore analyses compatibility
           /\ overallRisk report
              = determineOverallRisk (calculateRiskScore analyses compatibility)).
Proof.
  split; [|apply assessLegalRisk_report].
  intros analyses report Hne Hlen.
  split; [now apply calculateRiskScore_divided|]. split; [|split].
  - unfold calculateRiskScore. apply Math_min_capped.
  - now apply calculateRiskScore_nonneg.
  - apply determineOverallRisk_level.
Qed.

(** C1 as stated fails: two analyses of lowest risk (weight 1 each) and a
    compatibility score of 10 give round((1 + 1 + 10) / 2) = 6, where the
    mean of the weights plus the compatibility score rounds to 11; and
    one such analysis with a compatibility score of -50 gives -49, which
    is not in [0,100]. *)
Lemma calculateRiskScore_divides_compatibility_score :
  calculateRiskScore [Examples.bareAnalysis; Examples.bareAnalysis]
                     Examples.calmReport
  = 6%float
  /\ Spec.claimedRiskScore [Examples.bareAnalysis; Examples.bareAnalysis]
                          Examples.calmReport
     = 11%float
  /\ calculateRiskScore [Examples.bareAnalysis; Examples.bareAnalysis]
                        Examples.calmReport
     <> Spec.claimedRiskScore [Examples.bareAnalysis; Examples.bareAnalysis]
                             Examples.calmReport
  /\ calculateRiskScore [Examples.bareAnalysis]
                        (mkCompatibilityReport [] "compatible" (-50)%float)
     = (-49)%float.
Proof.
  split; [vm_compute; reflexivity|].
  split; [vm_compute; reflexivity|].
  split; [|vm_compute; reflexivity].
  intros H. apply (f_equal (fun x => (x <? 10)%float)) in H.
  vm_compute in H. discriminate.
Qed.

(** The sum and the quotient are those of doubles: with one analysis of
    lowest risk and the compatibility score 0.49999999999999994 (the
    double just below one half), the sum 1 + 0.49999999999999994 is the
    double 1.5 and the score is 2; in exact arithmetic it would be 1. *)
Lemma calculateRiskScore_rounds_in_doubles :
  calculateRiskScore [Examples.bareAnalysis]
    (mkCompatibilityReport [] "compatible" 0x1.fffffffffffffp-2%float)
  = 2%float
  /\ (1 + 0x1.fffffffffffffp-2)%float = 1.5%float.
Proof. split; vm_compute; reflexivity. Qed.

End RiskScoreFacts.

(** ** Declared license and the store *)

Section DeclaredLicenseFacts.
Import Detector.

Lemma Map_get_set_string {V} (m : list (string * V)) (k k' : string) (v : V) :
  Map_get String.eqb (Map_set String.eqb m k v) k'
  = if String.eqb k' k then Some v else Map_get String.eqb m k'.
Proof.
  induction m as [|[k0 v0] m IH]; simpl.
  - reflexivity.
  - destruct (String.eqb_spec k k0) as [->|Hk]; simpl.
    + destruct (String.eqb k' k0); reflexivity.
    + rewrite IH. destruct (String.eqb_spec k' k0) as [->|Hk'].
      * destruct (String.eqb_spec k0 k); [congruence|reflexivity].
      * reflexivity.
Qed.

Lemma Map_get_In_values {V} (m : list (string * V)) (k : string) (v : V) :
  Map_get String.eqb m k = Some v -> In v (Map_values m).
Proof.
  unfold Map_values. induction m as [|[k0 v0] m IH]; simpl; [discriminate|].
  destruct (String.eqb k k0).
  - intros [= <-]. now left.
  - intros H. right. now apply IH.
Qed.

(** A declared license stays in the consolidated set as long as no file
    reports its identifier with a higher confidence. *)
Lemma consolidate_keeps_declared (d : License) (files : list LicenseFile) :
  (forall f, In f files -> (lf_confidence f <= orZero (confidence d))%Q) ->
  In d (consolidateLicenses (Some d) files).
Proof.
  intros Hfiles. unfold consolidateLicenses.
  apply (Map_get_In_values _ (spdxId d)).
  assert (Hinit : Map_get String.eqb (Map_set String.eqb [] (spdxId d) d) (spdxId d)
                  = Some d)
    by (simpl; now rewrite String.eqb_refl).
  revert Hinit. generalize (Map_set String.eqb [] (spdxId d) d) as m.
  induction files as [|f fs IH]; intros m Hm; simpl; [exact Hm|].
  apply IH; [intros g Hg; apply Hfiles; now right|].
  destruct (Map_get String.eqb m (spdxId (lf_license f))) as [existing|] eqn:Eg.
  - destruct (Qlt_le_dec (orZero (confidence existing)) (lf_confidence f)) as [Hlt|_];
      [|exact Hm].
    rewrite Map_get_set_string.
    destruct (String.eqb_spec (spdxId d) (spdxId (lf_license f))) as [Heq|_];
      [|exact Hm].
    exfalso. rewrite <- Heq, Hm in Eg. injection Eg as <-.
    specialize (Hfiles f (or_introl eq_refl)). lra.
  - rewrite Map_get_set_string.
    destruct (String.eqb_spec (spdxId d) (spdxId (lf_license f))) as [Heq|_];
      [|exact Hm].
    rewrite <- Heq, Hm in Eg. discriminate.
Qed.

Context (host : Host).

Lemma analyzeLicenseText_confidence content l c :
  analyzeLicenseText host content = Fulfilled (Some (l, c)) -> (c <= 9 # 10)%Q.
Proof.
  unfold analyzeLicenseText.
  assert (Hall : Forall (fun p => (tp_confidence p <= 9 # 10)%Q) LICENSE_TEXT_PATTERNS).
  { unfold LICENSE_TEXT_PATTERNS.
    repeat (constructor; [unfold Qle; simpl; lia|]). constructor. }
  revert Hall. generalize LICENSE_TEXT_PATTERNS as patterns.
  induction patterns as [|p ps IH]; intros Hall; [discriminate|].
  inversion Hall as [|? ? Hp Hps]; subst.
  destruct (regex_test host (tp_pattern p) (normalizeSpace host content));
    [|now apply IH].
  destruct (getLicense host (tp_spdxId p)) as [[license|]|e];
    [|now apply IH|discriminate].
  intros [= _ <-]. exact Hp.
Qed.

Lemma analyzeLicenseFiles_confidence pkg options f :
  In f (analyzeLicenseFiles host pkg options) -> (lf_confidence f <= 9 # 10)%Q.
Proof.
  unfold analyzeLicenseFiles.
  destruct (pkg_path pkg) as [path|]; [|intros []].
  destruct (negb (truthy path)); [intros []|].
  match goal with
  | |- In f (fold_left ?step _ _) -> _ => set (scan := step)
  end.
  assert (Hinit : forall g, In g (@nil LicenseFile) -> (lf_confidence g <= 9 # 10)%Q)
    by (intros g []).
  revert Hinit. generalize (@nil LicenseFile) as acc.
  induction LICENSE_FILE_PATTERNS as [|pattern rest IH]; intros acc Hacc; simpl.
  - apply Hacc.
  - apply IH. unfold scan.
    destruct (readUtf8 host path pattern) as [content|]; [|exact Hacc].
    destruct (analyzeLicenseText host content) as [[[l c]|]|e] eqn:Et;
      try exact Hacc.
    intros g Hg. apply in_app_or in Hg as [Hg|[<-|[]]]; [now apply Hacc|].
    simpl. eapply analyzeLicenseText_confidence, Et.
Qed.

Lemma Refs_heap_grows store pkg h x :
  (x < List.length h)%nat ->
  Refs.deref (snd (Refs.detectDeclaredLicense host store pkg h)) x = Refs.deref h x.
Proof.
  intros Hx. unfold Refs.detectDeclaredLicense.
  destruct (pkg_license pkg) as [e|]; [|reflexivity].
  destruct (negb (truthy e)); [reflexivity|].
  destruct (Refs.view store h (trim host e)) as [[license|]|err]; [| |reflexivity].
  - unfold Refs.spread, Refs.alloc, Refs.deref. cbn [snd].
    now rewrite nth_error_app1.
  - induction (splitExpression host (trim host e)) as [|part rest IH]; [reflexivity|].
    destruct (Refs.view store h (trim host part)) as [[license|]|err];
      [|exact IH|reflexivity].
    unfold Refs.spread, Refs.alloc, Refs.deref. cbn [snd].
    now rewrite nth_error_app1.
Qed.

(** Read through its references, [detectDeclaredLicense] on the heap is
    [detectDeclaredLicense] on values. *)
Lemma Refs_detectDeclaredLicense_value store pkg h :
  (forall id, getLicense host id = Refs.view store h id) ->
  detectDeclaredLicense host pkg
  = match fst (Refs.detectDeclaredLicense host store pkg h) with
    | Fulfilled (Some r) =>
        Fulfilled (Refs.deref (snd (Refs.detectDeclaredLicense host store pkg h)) r)
    | Fulfilled None => Fulfilled None
    | Rejected e => Rejected e
    end.
Proof.
  intros Hstore. unfold detectDeclaredLicense, Refs.detectDeclaredLicense.
  assert (Hnew : forall l c,
            Refs.deref (snd (Refs.spread h l c)) (fst (Refs.spread h l c))
            = Some (withConfidence l c)).
  { intros l c. unfold Refs.spread, Refs.alloc, Refs.deref. cbn [fst snd].
    rewrite nth_error_app2 by lia. now rewrite Nat.sub_diag. }
  destruct (pkg_license pkg) as [e|]; [|reflexivity].
  destruct (negb (truthy e)); [reflexivity|].
  rewrite Hstore.
  destruct (Refs.view store h (trim host e)) as [[license|]|err]; [| |reflexivity].
  - specialize (Hnew license 1%Q).
    destruct (Refs.spread h license 1) as [r h']. cbn [fst snd] in *.
    now rewrite Hnew.
  - induction (splitExpression host (trim host e)) as [|part rest IH]; [reflexivity|].
    rewrite Hstore.
    destruct (Refs.view store h (trim host part)) as [[license|]|err];
      [|exact IH|reflexivity].
    specialize (Hnew license (8 # 10)%Q).
    destruct (Refs.spread h license (8 # 10)) as [r h']. cbn [fst snd] in *.
    now rewrite Hnew.
Qed.

(** C8: when the declared license expression of a package matches a
    store entry exactly, the consolidated licenses of the analysis contain
    that license with confidence 1.0; the override lives in a new object,
    read through its reference it is what the detector returns; and every
    object that existed before, the store's record with its own confidence
    among them, is as it was. *)
Theorem declared_exact_match :
  forall (store : Refs.RefStore) (h : Refs.Heap)
         (options : option LicenseScanOptions) (pkg : Package)
         (expression : string) (r : Refs.Ref) (canonical : License),
    (forall id, getLicense host id = Refs.view store h id) ->
    pkg_license pkg = Some expression ->
    expression <> EmptyString ->
    store (trim host expression) = Fulfilled (Some r) ->
    Refs.deref h r = Some canonical ->
    (exists analysis,
        detection host options pkg = Fulfilled analysis
        /\ In (withConfidence canonical 1) (licenses analysis)
        /\ confidence (withConfidence canonical 1) = 1%Q)
    /\ (exists r' h',
          Refs.detectDeclaredLicense host store pkg h = (Fulfilled (Some r'), h')
          /\ detectDeclaredLicense host pkg = Fulfilled (Refs.deref h' r')
          /\ Refs.deref h' r' = Some (withConfidence canonical 1)
          /\ r' <> r
          /\ Refs.deref h' r = Some canonical
          /\ forall x, (x < List.length h)%nat -> Refs.deref h' x = Refs.deref h x).
Proof.
  intros store h options pkg expression r canonical Hstore Hexpr Hne Hlookup Hrecord.
  assert (Htruthy : negb (truthy expression) = false)
    by (destruct expression; [congruence|reflexivity]).
  assert (Hview : Refs.view store h (trim host expression) = Fulfilled (Some canonical))
    by (unfold Refs.view; now rewrite Hlookup, Hrecord).
  split.
  - assert (Hdecl : detectDeclaredLicense host pkg
                    = Fulfilled (Some (withConfidence canonical 1))).
    { unfold detectDeclaredLicense. now rewrite Hexpr, Htruthy, Hstore, Hview. }
    unfold detection. rewrite Hdecl. eexists. split; [reflexivity|].
    split; [|reflexivity].
    unfold analysisOf.
    match goal with
    | |- context [determinePrimaryLicense ?ls ?d] =>
        pose proof (In_determinePrimaryLicense ls d (withConfidence canonical 1)) as Hin;
        destruct (determinePrimaryLicense ls d) as [primary sorted]
    end.
    cbn [licenses]. cbn [snd] in Hin. apply Hin.
    apply consolidate_keeps_declared.
    intros f Hf. apply analyzeLicenseFiles_confidence in Hf.
    cbn [confidence withConfidence]. unfold orZero. simpl. lra.
  - pose proof (Refs_heap_grows store pkg h) as Hframe.
    pose proof (Refs_detectDeclaredLicense_value store pkg h Hstore) as Hvalue.
    unfold Refs.detectDeclaredLicense in *.
    rewrite Hexpr, Htruthy, Hview in *.
    unfold Refs.spread, Refs.alloc in *. cbn [fst snd] in Hframe, Hvalue.
    assert (Hr : (r < List.length h)%nat)
      by (apply nth_error_Some; unfold Refs.deref in Hrecord; congruence).
    eexists _, _. split; [reflexivity|]. split; [exact Hvalue|].
    split; [|split; [|split]].
    + unfold Refs.deref. rewrite nth_error_app2 by lia.
      now rewrite Nat.sub_diag.
    + lia.
    + rewrite Hframe by exact Hr. exact Hrecord.
    + exact Hframe.
Qed.

End DeclaredLicenseFacts.

(** ** Grouping and rendering *)

Section GroupingFacts.
Import Detector Service.

Lemma string_app_assoc (a b c : string) : ((a ++ b) ++ c = a ++ (b ++ c))%string.
Proof. induction a as [|x a IH]; simpl; [reflexivity|now rewrite IH]. Qed.

Lemma string_app_nil_r (a : string) : (a ++ EmptyString = a)%string.
Proof. induction a as [|x a IH]; simpl; [reflexivity|now rewrite IH]. Qed.

(** A loop that only appends to a string. *)
Lemma fold_left_write {B} (step : string -> B -> string) (write : B -> string) :
  (forall doc b, step doc b = (doc ++ write b)%string) ->
  forall (l : list B) (doc : string),
    fold_left step l doc = (doc ++ concatAll (map write l))%string.
Proof.
  intros Hstep l. induction l as [|b bs IH]; intros doc; simpl.
  - now rewrite string_app_nil_r.
  - now rewrite IH, Hstep, string_app_assoc.
Qed.

Lemma Map_set_keys {V} (m : list (string * V)) (k : string) (v : V) :
  map fst (Map_set String.eqb m k v)
  = if Map_has String.eqb m k then map fst m else map fst m ++ [k].
Proof.
  unfold Map_has. induction m as [|[k0 v0] m IH]; simpl; [reflexivity|].
  destruct (String.eqb k k0); simpl; [reflexivity|].
  rewrite IH. destruct (Map_get String.eqb m k); reflexivity.
Qed.

Lemma Map_get_keys {V} (m : list (string * V)) (k : string) :
  In k (map fst m) <-> exists v, Map_get String.eqb m k = Some v.
Proof.
  induction m as [|[k0 v0] m IH]; simpl.
  - split; [intros []|intros [v Hv]; discriminate].
  - destruct (String.eqb_spec k k0) as [->|Hne].
    + split; [intros _; now exists v0|now left].
    + rewrite <- IH. split; [intros [Heq|Hin]; [congruence|exact Hin]|now right].
Qed.

Lemma Map_get_of_In {V} (m : list (string * V)) (k : string) (v : V) :
  NoDup (map fst m) -> In (k, v) m -> Map_get String.eqb m k = Some v.
Proof.
  induction m as [|[k0 v0] m IH]; simpl; [tauto|].
  intros Hnd [Heq|Hin].
  - injection Heq as -> ->. now rewrite String.eqb_refl.
  - inversion Hnd as [|? ? Hnotin Hnd']; subst.
    destruct (String.eqb_spec k k0) as [->|_].
    + exfalso. apply Hnotin. change k0 with (fst (k0, v)). now apply in_map.
    + now apply IH.
Qed.

Lemma groupsOf_step seen groups a :
  groupsOf seen groups ->
  groupsOf (seen ++ [a])
    (let primaryLicense := groupKey a in
     let groups :=
       if negb (Map_has String.eqb groups primaryLicense)
       then Map_set String.eqb groups primaryLicense []
       else groups in
     match Map_get String.eqb groups primaryLicense with
     | Some members => Map_set String.eqb groups primaryLicense (members ++ [a])
     | None => groups
     end).
Proof.
  intros [Hnd Hget]. cbv zeta.
  assert (Hspec : forall k,
    (if existsb (fun a0 => String.eqb (groupKey a0) k) (seen ++ [a])
     then Some (withKey k (seen ++ [a])) else None)
    = if String.eqb k (groupKey a)
      then Some (withKey k seen ++ [a])
      else Map_get String.eqb groups k).
  { intros k. rewrite Hget, existsb_app. unfold withKey. rewrite filter_app. simpl.
    rewrite (String.eqb_sym k (groupKey a)).
    destruct (String.eqb (groupKey a) k); simpl.
    - now rewrite orb_true_r.
    - now rewrite orb_false_r, app_nil_r. }
  unfold Map_has.
  destruct (Map_get String.eqb groups (groupKey a)) as [members|] eqn:Eg; simpl.
  - rewrite Eg. split.
    + rewrite Map_set_keys. unfold Map_has. now rewrite Eg.
    + intros k. rewrite Map_get_set_string, Hspec.
      destruct (String.eqb_spec k (groupKey a)) as [->|_]; [|reflexivity].
      rewrite Hget in Eg.
      destruct (existsb _ seen); [|discriminate]. now injection Eg as <-.
  - rewrite Map_get_set_string, String.eqb_refl. split.
    + rewrite !Map_set_keys. unfold Map_has.
      rewrite Map_get_set_string, String.eqb_refl, Eg.
      apply NoDup_app; [exact Hnd|repeat constructor; intros []|].
      intros k Hk [<-|[]]. apply Map_get_keys in Hk as [v Hv]. congruence.
    + intros k. rewrite !Map_get_set_string, Hspec.
      destruct (String.eqb_spec k (groupKey a)) as [->|_]; [|reflexivity].
      rewrite Hget in Eg. unfold withKey.
      destruct (existsb _ seen) eqn:Ex; [discriminate|].
      assert (Hnil : filter (fun a0 => String.eqb (groupKey a0) (groupKey a)) seen = []).
      { clear -Ex. induction seen as [|b bs IH]; simpl in *; [reflexivity|].
        apply orb_false_iff in Ex as [-> Hbs]. now apply IH. }
      now rewrite Hnil.
Qed.

Lemma groupAnalysesByLicense_groupsOf analyses :
  groupsOf analyses (groupAnalysesByLicense analyses).
Proof.
  unfold groupAnalysesByLicense.
  match goal with
  | |- groupsOf _ (fold_left ?f _ _) => set (step := f)
  end.
  assert (Hgen : forall rest seen groups,
            groupsOf seen groups ->
            groupsOf (seen ++ rest) (fold_left step rest groups)).
  { induction rest as [|a rest IH]; intros seen groups Hinv; simpl.
    - now rewrite app_nil_r.
    - replace (seen ++ a :: rest) with ((seen ++ [a]) ++ rest)
        by (now rewrite <- app_assoc).
      apply IH. now apply groupsOf_step. }
  apply (Hgen analyses [] []). split; [constructor|reflexivity].
Qed.

(** One group per key that occurs; a group holds the analyses with its
    key, in order, and is not empty. *)
Lemma groupAnalysesByLicense_partition analyses :
  NoDup (map fst (groupAnalysesByLicense analyses))
  /\ (forall k members,
         In (k, members) (groupAnalysesByLicense analyses) ->
         members = withKey k analyses /\ members <> [])
  /\ (forall a, In a analyses ->
                In (groupKey a) (map fst (groupAnalysesByLicense analyses))).
Proof.
  destruct (groupAnalysesByLicense_groupsOf analyses) as [Hnd Hget].
  split; [exact Hnd|]. split.
  - intros k members Hin. apply (Map_get_of_In _ _ _ Hnd) in Hin.
    rewrite Hget in Hin.
    destruct (existsb _ analyses) eqn:Ex; [|discriminate].
    injection Hin as <-. split; [reflexivity|].
    apply existsb_exists in Ex as (a & Ha & Hk).
    intros Hnil. assert (Hin : In a (withKey k analyses))
      by (apply filter_In; auto).
    rewrite Hnil in Hin. contradiction.
  - intros a Ha. apply Map_get_keys. rewrite Hget.
    assert (Hex : existsb (fun a0 => String.eqb (groupKey a0) (groupKey a)) analyses
                  = true).
    { apply existsb_exists. exists a. split; [exact Ha|apply String.eqb_refl]. }
    rewrite Hex. eexists. reflexivity.
Qed.

(** The first entry of the consolidated licenses carries the declared
    identifier. *)
Lemma consolidate_declared_first (d : License) (files : list LicenseFile) :
  exists l0 rest,
    consolidateLicenses (Some d) files = l0 :: rest /\ spdxId l0 = spdxId d.
Proof.
  unfold consolidateLicenses.
  assert (Hinit : exists v m', Map_set String.eqb [] (spdxId d) d = (spdxId d, v) :: m'
                               /\ spdxId v = spdxId d)
    by (exists d, []; auto).
  revert Hinit. generalize (Map_set String.eqb [] (spdxId d) d) as m.
  induction files as [|f fs IH]; intros m (v & m' & -> & Hv); cbn [fold_left].
  - exists v, (Map_values m'). auto.
  - apply IH.
    assert (Hset : exists v' m'',
              Map_set String.eqb ((spdxId d, v) :: m')
                      (spdxId (lf_license f)) (lf_license f)
              = (spdxId d, v') :: m'' /\ spdxId v' = spdxId d).
    { cbn [Map_set].
      destruct (String.eqb_spec (spdxId (lf_license f)) (spdxId d)) as [He|_].
      - eexists _, _. split; [reflexivity|exact He].
      - eexists _, _. split; [reflexivity|exact Hv]. }
    destruct (Map_get String.eqb ((spdxId d, v) :: m') (spdxId (lf_license f)));
      [destruct (Qlt_le_dec _ _)|]; try exact Hset; eauto.
Qed.

Lemma primary_is_head (ls : list License) (d : option License) :
  (match d with Some d => exists l0 rest, ls = l0 :: rest /\ spdxId l0 = spdxId d
              | None => True end) ->
  (d <> None \/ (List.length ls <= 1)%nat
   \/ forall l, In l ls -> category l <> LicenseCategory.PERMISSIVE) ->
  fst (determinePrimaryLicense ls d) = hd_error (snd (determinePrimaryLicense ls d)).
Proof.
  intros Hhead Hcase. unfold determinePrimaryLicense.
  destruct ls as [|l1 [|l2 rest]]; [reflexivity|reflexivity|].
  destruct d as [d|].
  - destruct Hhead as (l0 & rest0 & [= <- <-] & Hid).
    cbn [find]. apply String.eqb_eq in Hid. rewrite Hid. reflexivity.
  - destruct Hcase as [Hd|[Hlen|Hperm]]; [congruence|simpl in Hlen; lia|].
    assert (Hnone : filter isPermissive (l1 :: l2 :: rest) = []).
    { induction (l1 :: l2 :: rest) as [|x xs IH]; [reflexivity|]. simpl.
      destruct (isPermissive x) eqn:Ex.
      - apply isPermissive_iff in Ex. exfalso. apply (Hperm x); [now left|exact Ex].
      - apply IH. intros l Hl. apply Hperm. now right. }
    rewrite Hnone. reflexivity.
Qed.

Context (host : Host).

(** Where [primaryLeads] holds of a detector's analysis, the key it is
    filed under is the identifier of its primary license. *)
Lemma groupKey_primary options pkg a p :
  detection host options pkg = Fulfilled a ->
  primaryLeads a ->
  primaryLicense a = Some p ->
  spdxId p <> EmptyString ->
  groupKey a = spdxId p.
Proof.
  unfold detection. destruct (detectDeclaredLicense host pkg) as [d|e]; [|discriminate].
  intros [= <-]. unfold analysisOf, primaryLeads, groupKey.
  set (o := match options with Some o => o | None => getDefaultOptions end).
  set (files := analyzeLicenseFiles host pkg o).
  pose proof (primary_is_head (consolidateLicenses d files) d) as Hhd.
  pose proof (fun x => In_determinePrimaryLicense (consolidateLicenses d files) d x) as Hin.
  pose proof (length_determinePrimaryLicense (consolidateLicenses d files) d) as Hlen.
  destruct (determinePrimaryLicense (consolidateLicenses d files) d)
    as [primary sorted] eqn:Edet.
  cbn [fst snd] in *. cbn [detectionMethod licenses primaryLicense].
  intros Hlead Hprim Hid. subst primary.
  assert (Hhead : hd_error sorted = Some p).
  { symmetry. apply Hhd.
    - destruct d as [d|]; [apply consolidate_declared_first|exact I].
    - destruct Hlead as [Hm|[Hm|[Hl|Hp]]].
      + left. destruct d; [discriminate|]. destruct files; discriminate.
      + left. destruct d; [discriminate|]. destruct files; discriminate.
      + right. left. now rewrite <- Hlen.
      + right. right. intros l Hl. apply Hp, Hin, Hl. }
  destruct sorted as [|l0 rest]; [discriminate|]. injection Hhead as ->.
  destruct (spdxId p); [congruence|reflexivity].
Qed.

Context (run : Run).

Lemma generateTextDocument_grouped options w :
  groupByLicense options = true ->
  exists head foot,
    forall analyses,
      fst (generateTextDocument host run analyses options w)
      = Fulfilled (head
                   ++ concatAll (map (textGroup options)
                                     (groupAnalysesByLicense analyses))
                   ++ foot)%string.
Proof.
  intros Hg. unfold generateTextDocument, bind, Date_now, ret. rewrite Hg.
  eexists _, (if truthy_opt (customFooter options)
              then or_empty (customFooter options) else EmptyString).
  intros analyses. cbn [fst]. f_equal.
  rewrite (fold_left_write _ (textGroup options)).
  - destruct (truthy_opt (customFooter options)).
    + apply string_app_assoc.
    + rewrite (string_app_nil_r (concatAll _)). reflexivity.
  - intros doc [licenseId members]. unfold textGroup, firstFullText. cbn [fst snd].
    rewrite (fold_left_write _ (fun a => ("- " ++ nameAtVersion a ++ LF)%string))
      by reflexivity.
    destruct (includeLicenseTexts options && truthy_opt _);
      rewrite ?string_app_assoc; reflexivity.
Qed.

Lemma generateHtmlDocument_grouped options w :
  groupByLicense options = true ->
  exists head foot,
    forall analyses,
      fst (generateHtmlDocument host run analyses options w)
      = Fulfilled (head
                   ++ concatAll (map htmlGroup (groupAnalysesByLicense analyses))
                   ++ foot)%string.
Proof.
  intros Hg. unfold generateHtmlDocument, bind, Date_now, ret. rewrite Hg.
  eexists _, ((if truthy_opt (customFooter options)
               then or_empty (customFooter options) else EmptyString)
              ++ "</body>" ++ LF ++ "</html>")%string.
  intros analyses. cbn [fst]. f_equal.
  rewrite (fold_left_write _ htmlGroup).
  - destruct (truthy_opt (customFooter options)).
    + etransitivity; [apply string_app_assoc|apply string_app_assoc].
    + apply string_app_assoc.
  - intros doc [licenseId members]. unfold htmlGroup. cbn [fst snd].
    rewrite (fold_left_write _
               (fun a => ("<li>" ++ nameAtVersion a ++ "</li>" ++ LF)%string))
      by reflexivity.
    rewrite ?string_app_assoc. reflexivity.
Qed.

Lemma generateMarkdownDocument_grouped options w :
  groupByLicense options = true ->
  exists head foot,
    forall analyses,
      fst (generateMarkdownDocument host run analyses options w)
      = Fulfilled (head
                   ++ concatAll (map markdownGroup (groupAnalysesByLicense analyses))
                   ++ foot)%string.
Proof.
  intros Hg. unfold generateMarkdownDocument, bind, Date_now, ret. rewrite Hg.
  eexists _, (if truthy_opt (customFooter options)
              then (LF ++ or_empty (customFooter options))%string else EmptyString).
  intros analyses. cbn [fst]. f_equal.
  rewrite (fold_left_write _ markdownGroup).
  - destruct (truthy_opt (customFooter options)).
    + apply string_app_assoc.
    + rewrite (string_app_nil_r (concatAll _)). reflexivity.
  - intros doc [licenseId members]. unfold markdownGroup. cbn [fst snd].
    rewrite (fold_left_write _ (fun a => ("- " ++ nameAtVersion a ++ LF)%string))
      by reflexivity.
    rewrite ?string_app_assoc. reflexivity.
Qed.

End GroupingFacts.

(** C2 (amended): with [groupByLicense], the text, html and markdown
    documents are written group by group from [groupAnalysesByLicense];
    there is one group per key that occurs, holding the analyses with that
    key in order; for an analysis of the detector the key is the
    identifier of its primary license wherever a declared license was
    resolved, or there is at most one license, or no license is
    permissive.  The json document lists the packages flat, in the order
    of the analyses, whatever [groupByLicense] is. *)
Theorem grouped_documents :
  forall (host : Host) (run : Run) (options : ComplianceDocumentOptions) (w : World),
    groupByLicense options = true ->
    (exists head foot, forall analyses,
        fst (Service.generateTextDocument host run analyses options w)
        = Fulfilled (head
                     ++ concatAll (map (textGroup options)
                                       (Service.groupAnalysesByLicense analyses))
                     ++ foot)%string)
    /\ (exists head foot, forall analyses,
           fst (Service.generateHtmlDocument host run analyses options w)
           = Fulfilled (head
                        ++ concatAll (map htmlGroup
                                          (Service.groupAnalysesByLicense analyses))
                        ++ foot)%string)
    /\ (exists head foot, forall analyses,
           fst (Service.generateMarkdownDocument host run analyses options w)
           = Fulfilled (head
                        ++ concatAll (map markdownGroup
                                          (Service.groupAnalysesByLicense analyses))
                        ++ foot)%string)
    /\ (forall analyses,
           NoDup (map fst (Service.groupAnalysesByLicense analyses))
           /\ (forall k members,
                  In (k, members) (Service.groupAnalysesByLicense analyses) ->
                  members = withKey k analyses /\ members <> [])
           /\ (forall a, In a analyses ->
                  In (Service.groupKey a)
                     (map fst (Service.groupAnalysesByLicense analyses))))
    /\ (forall scanOptions pkg a p,
           detection host scanOptions pkg = Fulfilled a ->
           primaryLeads a ->
           primaryLicense a = Some p ->
           spdxId p <> EmptyString ->
           Service.groupKey a = spdxId p)
    /\ (forall analyses options',
           Service.generateJsonDocument host run analyses options w
           = Service.generateJsonDocument host run analyses options' w
           /\ exists report,
                fst (Service.generateJsonDocument host run analyses options w)
                = Fulfilled (JSON_stringify host report)
                /\ map jp_name (jr_packages report) = map an_name analyses).
Proof.
  intros host run options w Hg.
  split; [now apply generateTextDocument_grouped|].
  split; [now apply generateHtmlDocument_grouped|].
  split; [now apply generateMarkdownDocument_grouped|].
  split; [apply groupAnalysesByLicense_partition|].
  split; [apply groupKey_primary|].
  intros analyses options'. split; [reflexivity|].
  eexists. split; [reflexivity|].
  unfold Service.jsonReport. cbn [jr_packages]. rewrite map_map. reflexivity.
Qed.

(** C2 as stated fails: the package [dual] has a GPL-3 [LICENSE] and an
    MIT [COPYING] and no declared license; its primary license is MIT (the
    permissive one), and the grouped documents file it under
    GPL-3.0-only, the first of its licenses.  The json document is the
    same with and without [groupByLicense]. *)
Lemma grouping_not_by_primary_license :
  detection Examples.sampleHost None Examples.pkgDual
  = Fulfilled Examples.dualAnalysis
  /\ option_map spdxId (primaryLicense Examples.dualAnalysis) = Some "MIT"%string
  /\ Service.groupAnalysesByLicense [Examples.dualAnalysis]
     = [("GPL-3.0-only"%string, [Examples.dualAnalysis])]
  /\ fst (Service.generateTextDocument Examples.sampleHost Examples.run1
            [Examples.dualAnalysis] Examples.groupedText Examples.world0)
     = Fulfilled
         ("LICENSE COMPLIANCE REPORT" ++ LF
          ++ "========================" ++ LF ++ LF
          ++ "Generated: 2026-01-01T00:00:00.000Z" ++ LF ++ LF
          ++ "LICENSE: GPL-3.0-only" ++ LF
          ++ "--------------------" ++ LF
          ++ "- dual@2.1.0" ++ LF ++ LF)%string
  /\ Service.generateJsonDocument Examples.sampleHost Examples.run1
       [Examples.dualAnalysis; Examples.bareAnalysis] Examples.groupedJson
       Examples.world0
     = Service.generateJsonDocument Examples.sampleHost Examples.run1
         [Examples.dualAnalysis; Examples.bareAnalysis] Examples.flatJson
         Examples.world0.
Proof.
  split; [reflexivity|]. split; [vm_compute; reflexivity|].
  split; [vm_compute; reflexivity|]. split; [vm_compute; reflexivity|].
  reflexivity.
Qed.

(** ** Instances on the sample data *)

Lemma determinePrimaryLicense_rules_witness :
  [withConfidence Examples.GPL3 (9 # 10); withConfidence Examples.MIT (9 # 10)] <> []
  /\ exists l,
       fst (Detector.determinePrimaryLicense
              [withConfidence Examples.GPL3 (9 # 10);
               withConfidence Examples.MIT (9 # 10)] None) = Some l
       /\ Spec.primaryRule
            [withConfidence Examples.GPL3 (9 # 10);
             withConfidence Examples.MIT (9 # 10)] None l.
Proof.
  split; [discriminate|].
  apply (proj1 determinePrimaryLicense_rules). discriminate.
Defined.

Lemma assessLegalRisk_breakpoints_witness :
  Detector.assessLegalRisk [Examples.GPL3]
                           (Detector.calculateObligations [Examples.GPL3])
  = LegalRiskLevel.CRITICAL
  /\ Detector.assessLegalRisk [Examples.MPL2]
                              (Detector.calculateObligations [Examples.MPL2])
     = LegalRiskLevel.VERY_HIGH
  /\ LegalRiskLevel.le
       (Detector.assessLegalRisk [Examples.MPL2]
                                 (Detector.calculateObligations [Examples.MPL2]))
       (Detector.assessLegalRisk [Examples.GPL3]
                                 (Detector.calculateObligations [Examples.GPL3])).
Proof.
  split; [|split].
  - apply (proj1 (proj2 (proj2 (proj1 assessLegalRisk_breakpoints _ _)))).
    vm_compute. reflexivity.
  - apply (proj2 (proj2 (proj2 (proj1 assessLegalRisk_breakpoints _ _)))).
    vm_compute. reflexivity.
  - apply (proj1 (proj2 (proj1 assessLegalRisk_breakpoints _ _))).
    vm_compute. discriminate.
Defined.

Lemma detectIssues_all_applicable_witness :
  In Spec.missingLicenseIssue (Detector.detectIssues Examples.pkgBare [] None [])
  /\ In (Spec.unrecognizedLicenseIssue
           (mkPackage "odd" "1.0.0" (Some "Beerware"%string) None))
        (Detector.detectIssues
           (mkPackage "odd" "1.0.0" (Some "Beerware"%string) None) [] None []).
Proof.
  split.
  - apply (proj1 (proj1 detectIssues_all_applicable Examples.pkgBare [] None [])).
    reflexivity.
  - apply (proj2 (proj2 (proj2 (proj1 detectIssues_all_applicable _ [] None [])))).
    split; [|reflexivity].
    exists "Beerware"%string. split; [reflexivity|discriminate].
Defined.

Lemma analyzeLicenses_partial_success_witness :
  List.length (failing Examples.sampleHost None Examples.twelvePackages) = 1%nat
  /\ exists analyses w' delta,
       Service.analyzeLicenses Examples.sampleHost Examples.run2
         Examples.twelvePackages None Examples.world0
       = (Fulfilled analyses, w')
       /\ List.length analyses = (List.length Examples.twelvePackages - 1)%nat
       /\ map forget analyses
          = fulfilledValues
              (map (detection Examples.sampleHost None) Examples.twelvePackages)
       /\ log w' = log Examples.world0 ++ delta
       /\ Spec.BatchedTrace Examples.twelvePackages (steps delta).
Proof.
  split; [vm_compute; reflexivity|].
  apply analyzeLicenses_partial_success. vm_compute. reflexivity.
Defined.

Lemma validatePolicy_rules_witness :
  exists analyses result w' vss,
    map forget analyses
    = fulfilledValues
        (map (detection Examples.sampleHost None) [Examples.pkgMIT; Examples.pkgGPL])
    /\ Service.validatePolicy Examples.sampleHost Examples.run1
         [Examples.pkgMIT; Examples.pkgGPL] Examples.strictPolicy Examples.world0
       = (Fulfilled result, w')
    /\ Forall2 (Spec.pairViolations Examples.strictPolicy) (Spec.pairs analyses) vss
    /\ violations result = List.concat vss
    /\ (compliant result = true <-> violations result = []).
Proof. apply validatePolicy_rules. Defined.

Lemma validatePolicy_deterministic_witness :
  fst (Service.validatePolicy Examples.sampleHost Examples.run1
         Examples.twelvePackages Examples.strictPolicy Examples.world0)
  = fst (Service.validatePolicy Examples.sampleHost Examples.run2
           Examples.twelvePackages Examples.strictPolicy
           (mkWorld 7 [BatchStart 3])).
Proof. apply (proj1 (validatePolicy_deterministic _ _ _ _ _ _ _)). Defined.

Lemma validatePolicy_unlicensed_compliant_witness :
  (forall p a,
      In p [Examples.pkgBare; Examples.pkgBare] ->
      detection Examples.sampleHost None p = Fulfilled a -> licenses a = [])
  /\ fst (Service.validatePolicy Examples.sampleHost Examples.run1
            [Examples.pkgBare; Examples.pkgBare] Examples.strictPolicy
            Examples.world0)
     = Fulfilled (mkPolicyResult true []).
Proof.
  assert (Hnone : forall p a,
            In p [Examples.pkgBare; Examples.pkgBare] ->
            detection Examples.sampleHost None p = Fulfilled a -> licenses a = []).
  { intros p a [<-|[<-|[]]] H; injection H as <-; reflexivity. }
  split; [exact Hnone|].
  apply (proj2 validatePolicy_unlicensed_compliant). exact Hnone.
Defined.

Lemma calculateRiskScore_formula_witness :
  [Examples.bareAnalysis; Examples.bareAnalysis] <> []
  /\ Z.of_nat (List.length [Examples.bareAnalysis; Examples.bareAnalysis]) < 2 ^ 32
  /\ Service.calculateRiskScore [Examples.bareAnalysis; Examples.bareAnalysis]
                                Examples.calmReport
     = Spec.dividedRiskScore [Examples.bareAnalysis; Examples.bareAnalysis]
                             Examples.calmReport
  /\ (0 <=? Service.calculateRiskScore
               [Examples.bareAnalysis; Examples.bareAnalysis]
               Examples.calmReport)%float = true.
Proof.
  assert (Hne : [Examples.bareAnalysis; Examples.bareAnalysis] <> [])
    by discriminate.
  assert (Hlen : Z.of_nat (List.length [Examples.bareAnalysis; Examples.bareAnalysis])
                 < 2 ^ 32) by reflexivity.
  split; [exact Hne|]. split; [exact Hlen|].
  pose proof (proj1 calculateRiskScore_formula _ Examples.calmReport Hne Hlen)
    as (Hscore & _ & Hlow & _).
  split; [exact Hscore|]. apply Hlow. reflexivity.
Defined.

Lemma grouped_documents_witness :
  groupByLicense Examples.groupedText = true
  /\ NoDup (map fst (Service.groupAnalysesByLicense
                       [Examples.dualAnalysis; Examples.bareAnalysis]))
  /\ Service.groupKey
       (Detector.analysisOf Examples.sampleHost Examples.pkgMIT
          Detector.getDefaultOptions (Some (withConfidence Examples.MIT 1)) 0 0)
     = "MIT"%string.
Proof.
  split; [reflexivity|].
  destruct (grouped_documents Examples.sampleHost Examples.run1
              Examples.groupedText Examples.world0 eq_refl)
    as (_ & _ & _ & Hgroups & Hkey & _).
  split; [apply Hgroups|].
  apply (Hkey None Examples.pkgMIT _ (withConfidence Examples.MIT 1)).
  - reflexivity.
  - right. left. reflexivity.
  - reflexivity.
  - discriminate.
Defined.

Lemma declared_exact_match_witness :
  (exists analysis,
      detection Examples.sampleHost None Examples.pkgMIT = Fulfilled analysis
      /\ In (withConfidence Examples.MIT 1) (licenses analysis)
      /\ confidence (withConfidence Examples.MIT 1) = 1%Q)
  /\ (exists r' h',
        Refs.detectDeclaredLicense Examples.sampleHost Examples.sampleRefs
          Examples.pkgMIT Examples.sampleHeap
        = (Fulfilled (Some r'), h')
        /\ Detector.detectDeclaredLicense Examples.sampleHost Examples.pkgMIT
           = Fulfilled (Refs.deref h' r')
        /\ Refs.deref h' r' = Some (withConfidence Examples.MIT 1)
        /\ r' <> 0%nat
        /\ Refs.deref h' 0%nat = Some Examples.MIT
        /\ forall x, (x < List.length Examples.sampleHeap)%nat ->
                     Refs.deref h' x = Refs.deref Examples.sampleHeap x).
Proof.
  apply (declared_exact_match Examples.sampleHost Examples.sampleRefs
           Examples.sampleHeap None Examples.pkgMIT "MIT"%string 0%nat Examples.MIT).
  - intros id. reflexivity.
  - reflexivity.
  - discriminate.
  - reflexivity.
  - reflexivity.
Defined.

(** * Further properties of the detector and of the service *)

(** ** Maps in insertion order *)

Section MapFacts.
Context {K V : Type} (keq : K -> K -> bool).
Hypothesis keq_spec : forall a b, reflect (a = b) (keq a b).

Lemma Map_get_set (m : list (K * V)) (k k' : K) (v : V) :
  Map_get keq (Map_set keq m k v) k'
  = if keq k' k then Some v else Map_get keq m k'.
Proof.
  induction m as [|[k0 v0] m IH]; simpl.
  - reflexivity.
  - destruct (keq_spec k k0) as [->|Hk]; simpl.
    + destruct (keq k' k0); reflexivity.
    + rewrite IH. destruct (keq_spec k' k0) as [->|Hk'].
      * destruct (keq_spec k0 k); [congruence|reflexivity].
      * reflexivity.
Qed.

Lemma Map_set_keys_any (m : list (K * V)) (k : K) (v : V) :
  map fst (Map_set keq m k v)
  = if Map_has keq m k then map fst m else map fst m ++ [k].
Proof.
  unfold Map_has. induction m as [|[k0 v0] m IH]; simpl; [reflexivity|].
  destruct (keq k k0); simpl; [reflexivity|].
  rewrite IH. destruct (Map_get keq m k); reflexivity.
Qed.

Lemma Map_has_keys (m : list (K * V)) (k : K) :
  Map_has keq m k = true <-> In k (map fst m).
Proof.
  unfold Map_has. induction m as [|[k0 v0] m IH]; simpl.
  - split; [discriminate|intros []].
  - destruct (keq_spec k k0) as [->|Hne].
    + split; [now left|reflexivity].
    + rewrite IH. split; [now right|intros [Heq|Hin]; [congruence|exact Hin]].
Qed.

Lemma Map_set_NoDup (m : list (K * V)) (k : K) (v : V) :
  NoDup (map fst m) -> NoDup (map fst (Map_set keq m k v)).
Proof.
  intros Hnd. rewrite Map_set_keys_any.
  destruct (Map_has keq m k) eqn:Eh; [exact Hnd|].
  apply NoDup_app; [exact Hnd|repeat constructor; intros []|].
  intros x Hx [<-|[]]. apply Map_has_keys in Hx. congruence.
Qed.

Lemma In_Map_set (m : list (K * V)) (k : K) (v : V) (e : K * V) :
  In e (Map_set keq m k v) -> e = (k, v) \/ In e m.
Proof.
  induction m as [|[k0 v0] m IH]; simpl.
  - intros [<-|[]]. now left.
  - destruct (keq_spec k k0) as [->|Hne]; simpl.
    + intros [<-|Hin]; [now left|right; now right].
    + intros [<-|Hin]; [right; now left|].
      destruct (IH Hin) as [->|Hm]; [now left|right; now right].
Qed.

Lemma Map_get_In (m : list (K * V)) (k : K) (v : V) :
  Map_get keq m k = Some v -> In (k, v) m.
Proof.
  induction m as [|[k0 v0] m IH]; simpl; [discriminate|].
  destruct (keq_spec k k0) as [->|Hne].
  - intros [= <-]. now left.
  - intros H. right. now apply IH.
Qed.

Lemma Map_set_length (m : list (K * V)) (k : K) (v : V) :
  (List.length m <= List.length (Map_set keq m k v))%nat
  /\ (1 <= List.length (Map_set keq m k v))%nat.
Proof.
  induction m as [|[k0 v0] m IH]; simpl; [lia|].
  destruct (keq k k0); simpl; lia.
Qed.

End MapFacts.

Lemma ObligationType_eqb_spec (a b : ObligationType.t) :
  reflect (a = b) (ObligationType.eqb a b).
Proof. destruct a, b; simpl; constructor; congruence. Qed.

(** ** Consolidation *)

Section ConsolidationFacts.
Import Detector.

Lemma keyedById_set m (l : License) :
  keyedById m -> keyedById (Map_set String.eqb m (spdxId l) l).
Proof.
  intros [Hnd Hk]. split.
  - apply (Map_set_NoDup _ String.eqb_spec), Hnd.
  - intros k v Hin.
    apply (In_Map_set _ String.eqb_spec) in Hin as [[= -> ->]|Hin];
      [reflexivity|now apply Hk].
Qed.

Lemma keyedById_ids m :
  keyedById m -> map spdxId (Map_values m) = map fst m.
Proof.
  intros [_ Hk]. unfold Map_values. rewrite map_map.
  apply map_ext_in. intros [k v] Hin. simpl. now apply Hk.
Qed.

Lemma consolidateLicenses_fold d files :
  consolidateLicenses d files
  = Map_values
      (fold_left consolidateStep files
         (match d with
          | Some d => Map_set String.eqb [] (spdxId d) d
          | None => []
          end)).
Proof. reflexivity. Qed.

Lemma consolidateStep_keyed m f : keyedById m -> keyedById (consolidateStep m f).
Proof.
  intros Hm. unfold consolidateStep.
  destruct (Map_get String.eqb m (spdxId (lf_license f)));
    [destruct (Qlt_le_dec _ _)|]; auto using keyedById_set.
Qed.

Lemma consolidate_fold_keyed files m :
  keyedById m -> keyedById (fold_left consolidateStep files m).
Proof.
  revert m. induction files as [|f fs IH]; intros m Hm; simpl; [exact Hm|].
  apply IH, consolidateStep_keyed, Hm.
Qed.

Lemma consolidateStep_covers m f id c :
  coherentFile f -> covers m id c -> covers (consolidateStep m f) id c.
Proof.
  intros Hf (v & Hv & Hc). unfold consolidateStep, covers.
  destruct (Map_get String.eqb m (spdxId (lf_license f))) as [existing|] eqn:Eg.
  - destruct (Qlt_le_dec (orZero (confidence existing)) (lf_confidence f)) as [Hlt|_];
      [|now exists v].
    rewrite (Map_get_set _ String.eqb_spec).
    destruct (String.eqb_spec id (spdxId (lf_license f))) as [->|_]; [|now exists v].
    exists (lf_license f). split; [reflexivity|].
    rewrite Hv in Eg. injection Eg as <-.
    pose proof (orZero_eq (confidence v)). unfold coherentFile in Hf. lra.
  - rewrite (Map_get_set _ String.eqb_spec).
    destruct (String.eqb_spec id (spdxId (lf_license f))) as [->|_]; [|now exists v].
    congruence.
Qed.

Lemma consolidateStep_covers_own m f :
  coherentFile f ->
  covers (consolidateStep m f) (spdxId (lf_license f)) (lf_confidence f).
Proof.
  intros Hf. unfold consolidateStep, covers.
  destruct (Map_get String.eqb m (spdxId (lf_license f))) as [existing|] eqn:Eg.
  - destruct (Qlt_le_dec (orZero (confidence existing)) (lf_confidence f)) as [Hlt|Hle].
    + rewrite (Map_get_set _ String.eqb_spec), String.eqb_refl.
      exists (lf_license f). split; [reflexivity|exact Hf].
    + exists existing. split; [exact Eg|].
      pose proof (orZero_eq (confidence existing)). lra.
  - rewrite (Map_get_set _ String.eqb_spec), String.eqb_refl.
    exists (lf_license f). split; [reflexivity|exact Hf].
Qed.

Lemma consolidate_fold_covers files m id c :
  Forall coherentFile files -> covers m id c ->
  covers (fold_left consolidateStep files m) id c.
Proof.
  revert m. induction files as [|f fs IH]; intros m Hall Hm; simpl; [exact Hm|].
  inversion Hall; subst. apply IH; [assumption|].
  now apply consolidateStep_covers.
Qed.

Lemma consolidate_fold_covers_files files m f :
  Forall coherentFile files -> In f files ->
  covers (fold_left consolidateStep files m)
         (spdxId (lf_license f)) (lf_confidence f).
Proof.
  revert m. induction files as [|g gs IH]; intros m Hall Hin; [contradiction|].
  inversion Hall; subst. simpl. destruct Hin as [->|Hin].
  - apply consolidate_fold_covers; [assumption|].
    now apply consolidateStep_covers_own.
  - now apply IH.
Qed.

Lemma consolidate_fold_origin files m l :
  In l (Map_values (fold_left consolidateStep files m)) ->
  In l (Map_values m) \/ exists f, In f files /\ l = lf_license f.
Proof.
  revert m. induction files as [|f fs IH]; intros m Hin; simpl in Hin; [now left|].
  destruct (IH _ Hin) as [Hm|(g & Hg & ->)]; [|right; exists g; split; [now right|reflexivity]].
  unfold consolidateStep in Hm.
  assert (Hset : In l (Map_values (Map_set String.eqb m (spdxId (lf_license f))
                                           (lf_license f))) ->
                 In l (Map_values m) \/ exists f0, In f0 (f :: fs) /\ l = lf_license f0).
  { unfold Map_values. intros H. apply in_map_iff in H as ([k v] & <- & H).
    apply (In_Map_set _ String.eqb_spec) in H as [[= _ ->]|H].
    - right. exists f. split; [now left|reflexivity].
    - left. apply in_map_iff. now exists (k, v). }
  destruct (Map_get String.eqb m (spdxId (lf_license f)));
    [destruct (Qlt_le_dec _ _)|]; auto.
Qed.

Lemma covers_In m id c :
  keyedById m -> covers m id c ->
  exists l, In l (Map_values m) /\ spdxId l = id /\ (c <= confidence l)%Q.
Proof.
  intros [_ Hk] (v & Hv & Hc). exists v.
  apply (Map_get_In _ String.eqb_spec) in Hv.
  split; [|split; [now apply Hk|exact Hc]].
  unfold Map_values. apply in_map_iff. now exists (id, v).
Qed.

Lemma consolidateLicenses_NoDup d files :
  NoDup (map spdxId (consolidateLicenses d files)).
Proof.
  rewrite consolidateLicenses_fold.
  set (m0 := match d with
             | Some d0 => Map_set String.eqb [] (spdxId d0) d0
             | None => []
             end).
  assert (Hm0 : keyedById m0).
  { destruct d as [d0|]; [apply keyedById_set|]; split; try constructor;
      intros k v []. }
  pose proof (consolidate_fold_keyed files m0 Hm0) as Hkeyed.
  rewrite (keyedById_ids _ Hkeyed). apply Hkeyed.
Qed.

Lemma consolidateLicenses_origin d files l :
  In l (consolidateLicenses d files) ->
  d = Some l \/ exists f, In f files /\ l = lf_license f.
Proof.
  rewrite consolidateLicenses_fold. intros Hl.
  apply consolidate_fold_origin in Hl as [Hl|Hl]; [|now right].
  left. destruct d as [d0|]; [|destruct Hl].
  simpl in Hl. destruct Hl as [<-|[]]. reflexivity.
Qed.

(** X1: the consolidated licenses carry pairwise distinct identifiers;
    every one of them is the declared license or the license of a file;
    and, when no file entry claims more confidence than its license
    carries, every identifier reported (by the declared license or by a
    file) is present with a confidence at least that of the report. *)
Theorem consolidateLicenses_deduplicates :
  forall (declaredLicense : option License) (licenseFiles : list LicenseFile),
    Forall coherentFile licenseFiles ->
    NoDup (map spdxId (consolidateLicenses declaredLicense licenseFiles))
    /\ (forall l, In l (consolidateLicenses declaredLicense licenseFiles) ->
                  declaredLicense = Some l
                  \/ exists f, In f licenseFiles /\ l = lf_license f)
    /\ (forall d, declaredLicense = Some d ->
                  exists l, In l (consolidateLicenses declaredLicense licenseFiles)
                            /\ spdxId l = spdxId d
                            /\ (confidence d <= confidence l)%Q)
    /\ (forall f, In f licenseFiles ->
                  exists l, In l (consolidateLicenses declaredLicense licenseFiles)
                            /\ spdxId l = spdxId (lf_license f)
                            /\ (lf_confidence f <= confidence l)%Q).
Proof.
  intros d files Hall.
  pose proof (consolidateLicenses_NoDup d files) as Hnodup.
  pose proof (consolidateLicenses_origin d files) as Horigin.
  rewrite consolidateLicenses_fold in *.
  set (m0 := match d with
             | Some d0 => Map_set String.eqb [] (spdxId d0) d0
             | None => []
             end).
  assert (Hm0 : keyedById m0).
  { destruct d as [d0|]; [apply keyedById_set|]; split; try constructor;
      intros k v []. }
  pose proof (consolidate_fold_keyed files m0 Hm0) as Hkeyed.
  split; [|split; [|split]].
  - exact Hnodup.
  - exact Horigin.
  - intros d0 ->. apply (covers_In _ _ _ Hkeyed).
    apply consolidate_fold_covers; [exact Hall|].
    exists d0. simpl. rewrite String.eqb_refl. split; [reflexivity|lra].
  - intros f Hf. apply (covers_In _ _ _ Hkeyed).
    now apply consolidate_fold_covers_files.
Qed.

End ConsolidationFacts.

(** ** Obligations *)

Section ObligationFacts.
Import Detector.

Lemma createObligation_any t l l' : createObligation t l = createObligation t l'.
Proof. destruct t; reflexivity. Qed.

Lemma createObligation_type t l : ob_type (createObligation t l) = t.
Proof. destruct t; reflexivity. Qed.

Lemma obligationStep_spec license m t :
  detailedByType m ->
  detailedByType (obligationStep license m t)
  /\ forall t', In t' (map fst (obligationStep license m t))
                <-> In t' (map fst m) \/ t' = t.
Proof.
  intros [Hnd Hd]. unfold obligationStep.
  destruct (Map_has ObligationType.eqb m t) eqn:Eh.
  - split; [now split|].
    apply (Map_has_keys _ ObligationType_eqb_spec) in Eh.
    intros t'. split; [now left|intros [H| ->]; assumption].
  - split; [split|].
    + apply (Map_set_NoDup _ ObligationType_eqb_spec), Hnd.
    + intros t' o Hin l.
      apply (In_Map_set _ ObligationType_eqb_spec) in Hin as [[= -> ->]|Hin];
        [apply createObligation_any|now apply Hd].
    + intros t'. rewrite Map_set_keys_any, Eh, in_app_iff. simpl.
      intuition congruence.
Qed.

Lemma obligation_inner_spec license ts m :
  detailedByType m ->
  detailedByType (fold_left (obligationStep license) ts m)
  /\ forall t', In t' (map fst (fold_left (obligationStep license) ts m))
                <-> In t' (map fst m) \/ In t' ts.
Proof.
  revert m. induction ts as [|t ts IH]; intros m Hm; simpl.
  - split; [exact Hm|]. intros t'. tauto.
  - destruct (obligationStep_spec license m t Hm) as [Hm' Hkeys].
    destruct (IH _ Hm') as [Hd Hk]. split; [exact Hd|].
    intros t'. rewrite Hk, Hkeys. intuition congruence.
Qed.

Lemma obligation_outer_spec licenses m :
  detailedByType m ->
  detailedByType
    (fold_left (fun m license => fold_left (obligationStep license)
                                           (obligations license) m)
               licenses m)
  /\ forall t',
       In t' (map fst
                (fold_left (fun m license => fold_left (obligationStep license)
                                                       (obligations license) m)
                           licenses m))
       <-> In t' (map fst m)
           \/ exists l, In l licenses /\ In t' (obligations l).
Proof.
  revert m. induction licenses as [|l ls IH]; intros m Hm; simpl.
  - split; [exact Hm|]. intros t'. split; [now left|].
    intros [H|(l & [] & _)]. exact H.
  - destruct (obligation_inner_spec l (obligations l) m Hm) as [Hm' Hkeys].
    destruct (IH _ Hm') as [Hd Hk]. split; [exact Hd|].
    intros t'. rewrite Hk, Hkeys. split.
    + intros [[H|H]|(l' & Hl' & Ht)]; [now left| |].
      * right. exists l. split; [now left|exact H].
      * right. exists l'. split; [now right|exact Ht].
    + intros [H|(l' & [<-|Hl'] & Ht)]; [left; now left|left; now right|].
      right. exists l'. now split.
Qed.

Lemma calculateObligations_spec :
  forall (licenses : list License),
    NoDup (map ob_type (calculateObligations licenses))
    /\ (forall t, In t (map ob_type (calculateObligations licenses))
                  <-> exists l, In l licenses /\ In t (obligations l))
    /\ (forall o l, In o (calculateObligations licenses) ->
                    o = createObligation (ob_type o) l).
Proof.
  intros licenses.
  assert (Hfold : calculateObligations licenses
                  = Map_values
                      (fold_left (fun m license =>
                                    fold_left (obligationStep license)
                                              (obligations license) m)
                                 licenses [])) by reflexivity.
  destruct (obligation_outer_spec licenses []) as [[Hnd Hd] Hk].
  { split; [constructor|intros t o []]. }
  set (m := fold_left _ licenses []) in *.
  assert (Htypes : map ob_type (Map_values m) = map fst m).
  { unfold Map_values. rewrite map_map. apply map_ext_in.
    intros [t o] Hin. simpl.
    rewrite (Hd t o Hin (mkLicense EmptyString EmptyString LicenseCategory.UNKNOWN
                                   [] 0 None None None)).
    apply createObligation_type. }
  rewrite Hfold, Htypes. split; [exact Hnd|]. split.
  - intros t. rewrite Hk. simpl. tauto.
  - intros o l Hin. unfold Map_values in Hin.
    apply in_map_iff in Hin as ([t o'] & <- & Hin). simpl.
    rewrite (Hd t o' Hin l). now rewrite createObligation_type.
Qed.

(** X2: the obligations computed from a list of licenses carry pairwise
    distinct types, so they are at most eight; a type occurs exactly when
    some license carries it; and every obligation is the row of the static
    detail table for its type, whichever license brought it in. *)
Theorem calculateObligations_union :
  forall (licenses : list License),
    NoDup (map ob_type (calculateObligations licenses))
    /\ (List.length (calculateObligations licenses) <= 8)%nat
    /\ (forall t, In t (map ob_type (calculateObligations licenses))
                  <-> exists l, In l licenses /\ In t (obligations l))
    /\ (forall o l, In o (calculateObligations licenses) ->
                    o = createObligation (ob_type o) l).
Proof.
  intros licenses.
  destruct (calculateObligations_spec licenses) as (Hnodup & Htypes & Hdetail).
  split; [exact Hnodup|]. split; [|split; [exact Htypes|exact Hdetail]].
  rewrite <- (length_map ob_type).
  change 8%nat with
    (List.length [ObligationType.ATTRIBUTION; ObligationType.COPYLEFT;
                  ObligationType.DISCLOSE_SOURCE; ObligationType.SAME_LICENSE;
                  ObligationType.PATENT_GRANT; ObligationType.NO_COMMERCIAL_USE;
                  ObligationType.SHARE_ALIKE; ObligationType.NOTICE_PRESERVATION]).
  apply NoDup_incl_length; [exact Hnodup|].
  intros t _. destruct t; simpl; tauto.
Qed.

End ObligationFacts.

(** ** The three strategies *)

Section StrategyFacts.
Import Detector.
Context (host : Host).



Lemma detectDeclaredLicense_confidence pkg l :
  detectDeclaredLicense host pkg = Fulfilled (Some l) ->
  confidence l = 1%Q \/ confidence l = (8 # 10)%Q.
Proof.
  unfold detectDeclaredLicense.
  destruct (pkg_license pkg) as [e|]; [|discriminate].
  destruct (negb (truthy e)); [discriminate|].
  destruct (getLicense host (trim host e)) as [[record|]|err];
    [intros [= <-]; now left| |discriminate].
  induction (splitExpression host (trim host e)) as [|part rest IH];
    [discriminate|].
  destruct (getLicense host (trim host part)) as [[record|]|err];
    [intros [= <-]; now right|exact IH|discriminate].
Qed.

Lemma text_pattern_confidences :
  Forall (fun p => tp_confidence p = (8 # 10)%Q \/ tp_confidence p = (9 # 10)%Q)
         LICENSE_TEXT_PATTERNS.
Proof.
  unfold LICENSE_TEXT_PATTERNS.
  repeat (apply Forall_cons; [simpl; auto|]). apply Forall_nil.
Qed.

(** What a fingerprint match is made of. *)
Lemma analyzeLicenseText_match content l c :
  analyzeLicenseText host content = Fulfilled (Some (l, c)) ->
  exists pattern record,
    In pattern LICENSE_TEXT_PATTERNS
    /\ regex_test host (tp_pattern pattern) (normalizeSpace host content) = true
    /\ getLicense host (tp_spdxId pattern) = Fulfilled (Some record)
    /\ l = withConfidence record (tp_confidence pattern)
    /\ c = tp_confidence pattern.
Proof.
  unfold analyzeLicenseText.
  assert (Hincl : incl LICENSE_TEXT_PATTERNS LICENSE_TEXT_PATTERNS)
    by apply incl_refl.
  revert Hincl. generalize LICENSE_TEXT_PATTERNS at 1 3 as patterns.
  induction patterns as [|p ps IH]; intros Hincl; [discriminate|].
  assert (Hps : incl ps LICENSE_TEXT_PATTERNS)
    by (intros x Hx; apply Hincl; now right).
  destruct (regex_test host (tp_pattern p) (normalizeSpace host content)) eqn:Et;
    [|now apply IH].
  destruct (getLicense host (tp_spdxId p)) as [[record|]|e] eqn:Eg;
    [|now apply IH|discriminate].
  intros [= <- <-]. exists p, record.
  split; [apply Hincl; now left|]. auto.
Qed.

(** The file scan from an accumulator on. *)
Lemma analyzeLicenseFiles_scan root (names : list string) (acc : list LicenseFile) :
  let scan :=
    fun (licenseFiles : list LicenseFile) (pattern : string) =>
      match readUtf8 host root pattern with
      | None => licenseFiles
      | Some content =>
          match analyzeLicenseText host content with
          | Fulfilled (Some (license, confidence)) =>
              licenseFiles ++ [mkLicenseFile pattern license confidence]
          | Fulfilled None => licenseFiles
          | Rejected _ => licenseFiles
          end
      end in
  exists keep : string -> bool,
    map lf_path (fold_left scan names acc) = map lf_path acc ++ filter keep names
    /\ forall f, In f (fold_left scan names acc) ->
         In f acc
         \/ exists content,
              readUtf8 host root (lf_path f) = Some content
              /\ analyzeLicenseText host content
                 = Fulfilled (Some (lf_license f, lf_confidence f)).
Proof.
  intros scan.
  exists (fun name => match readUtf8 host root name with
                      | Some content =>
                          match analyzeLicenseText host content with
                          | Fulfilled (Some _) => true
                          | _ => false
                          end
                      | None => false
                      end).
  revert acc. induction names as [|name rest IH]; intros acc; simpl.
  - rewrite app_nil_r. auto.
  - destruct (IH (scan acc name)) as [Hpaths Hin]. split.
    + rewrite Hpaths. unfold scan.
      destruct (readUtf8 host root name) as [content|]; [|reflexivity].
      destruct (analyzeLicenseText host content) as [[[l c]|]|e];
        try reflexivity.
      rewrite map_app, <- app_assoc. reflexivity.
    + intros f Hf. apply Hin in Hf as [Hf|Hf]; [|now right].
      unfold scan in Hf.
      destruct (readUtf8 host root name) as [content|] eqn:Er; [|now left].
      destruct (analyzeLicenseText host content) as [[[l c]|]|e] eqn:Et;
        try (now left).
      apply in_app_or in Hf as [Hf|[<-|[]]]; [now left|].
      right. exists content. simpl. auto.
Qed.

Lemma LICENSE_FILE_PATTERNS_NoDup : NoDup LICENSE_FILE_PATTERNS.
Proof.
  unfold LICENSE_FILE_PATTERNS.
  repeat (constructor; [simpl; intuition discriminate|]). constructor.
Qed.

Lemma analyzeLicenseFiles_spec pkg options :
  NoDup (map lf_path (analyzeLicenseFiles host pkg options))
  /\ incl (map lf_path (analyzeLicenseFiles host pkg options)) LICENSE_FILE_PATTERNS
  /\ forall f, In f (analyzeLicenseFiles host pkg options) ->
       exists root content,
         pkg_path pkg = Some root
         /\ readUtf8 host root (lf_path f) = Some content
         /\ analyzeLicenseText host content
            = Fulfilled (Some (lf_license f, lf_confidence f)).
Proof.
  unfold analyzeLicenseFiles.
  destruct (pkg_path pkg) as [root|];
    [|split; [constructor|split; [intros x []|intros f []]]].
  destruct (negb (truthy root));
    [split; [constructor|split; [intros x []|intros f []]]|].
  destruct (analyzeLicenseFiles_scan root LICENSE_FILE_PATTERNS [])
    as (keep & Hpaths & Hin).
  cbv zeta in Hpaths, Hin. rewrite Hpaths. cbn [map app].
  split; [apply NoDup_filter, LICENSE_FILE_PATTERNS_NoDup|].
  split; [apply incl_filter|].
  intros f Hf. apply Hin in Hf as [[]|(content & Hr & Ht)].
  exists root, content. auto.
Qed.

(** The reported names are the candidate names that are reported, in
    the order of the candidates. *)
Lemma analyzeLicenseFiles_order pkg options :
  map lf_path (analyzeLicenseFiles host pkg options)
  = filter (includes (map lf_path (analyzeLicenseFiles host pkg options)))
           LICENSE_FILE_PATTERNS.
Proof.
  assert (Hkeep : exists keep : string -> bool,
            map lf_path (analyzeLicenseFiles host pkg options)
            = filter keep LICENSE_FILE_PATTERNS).
  { unfold analyzeLicenseFiles.
    destruct (pkg_path pkg) as [root|];
      [|exists (fun _ => false); reflexivity].
    destruct (negb (truthy root)); [exists (fun _ => false); reflexivity|].
    destruct (analyzeLicenseFiles_scan root LICENSE_FILE_PATTERNS [])
      as (keep & Hpaths & _).
    exists keep. exact Hpaths. }
  destruct Hkeep as [keep Hkeep].
  set (paths := map lf_path (analyzeLicenseFiles host pkg options)) in *.
  transitivity (filter keep LICENSE_FILE_PATTERNS); [exact Hkeep|].
  apply filter_ext_in. intros name Hname. symmetry.
  destruct (keep name) eqn:Ek.
  - apply includes_iff. rewrite Hkeep. apply filter_In. auto.
  - destruct (includes paths name) eqn:Ei; [|reflexivity].
    apply includes_iff in Ei. rewrite Hkeep in Ei.
    apply filter_In in Ei as [_ Ei]. congruence.
Qed.

(** X4: the license files of a package are reported in the order of the
    candidate names (the reported names are the list of candidates with
    the unreported ones left out), each candidate at most once; an entry
    stands for a readable candidate whose normalised text matches a
    fingerprint known to the store, and carries the store's record with
    the fingerprint's confidence (0.8 or 0.9), the same in the entry and
    in its license. *)
Theorem analyzeLicenseFiles_entries :
  forall (pkg : Package) (options : LicenseScanOptions),
    map lf_path (analyzeLicenseFiles host pkg options)
    = filter (includes (map lf_path (analyzeLicenseFiles host pkg options)))
             LICENSE_FILE_PATTERNS
    /\ NoDup (map lf_path (analyzeLicenseFiles host pkg options))
    /\ incl (map lf_path (analyzeLicenseFiles host pkg options))
            LICENSE_FILE_PATTERNS
    /\ (List.length (analyzeLicenseFiles host pkg options) <= 12)%nat
    /\ forall f, In f (analyzeLicenseFiles host pkg options) ->
         exists root content pattern record,
           pkg_path pkg = Some root
           /\ readUtf8 host root (lf_path f) = Some content
           /\ In pattern LICENSE_TEXT_PATTERNS
           /\ regex_test host (tp_pattern pattern) (normalizeSpace host content)
              = true
           /\ getLicense host (tp_spdxId pattern) = Fulfilled (Some record)
           /\ lf_license f = withConfidence record (tp_confidence pattern)
           /\ lf_confidence f = confidence (lf_license f)
           /\ (lf_confidence f = (8 # 10)%Q \/ lf_confidence f = (9 # 10)%Q).
Proof.
  intros pkg options.
  destruct (analyzeLicenseFiles_spec pkg options) as (Hnd & Hincl & Hin).
  split; [apply analyzeLicenseFiles_order|].
  split; [exact Hnd|]. split; [exact Hincl|]. split.
  - rewrite <- (length_map lf_path).
    change 12%nat with (List.length LICENSE_FILE_PATTERNS).
    apply NoDup_incl_length; assumption.
  - intros f Hf. destruct (Hin f Hf) as (root & content & Hroot & Hread & Htext).
    destruct (analyzeLicenseText_match _ _ _ Htext)
      as (pattern & record & Hp & Hmatch & Hstore & Hl & Hc).
    exists root, content, pattern, record.
    repeat (split; [assumption|]).
    split; [now rewrite Hl, Hc|].
    rewrite Hc.
    apply (proj1 (Forall_forall _ _) text_pattern_confidences pattern Hp).
Qed.

Lemma analyzeLicenseFiles_coherent pkg options :
  Forall coherentFile (analyzeLicenseFiles host pkg options).
Proof.
  apply Forall_forall. intros f Hf.
  destruct (analyzeLicenseFiles_spec pkg options) as (_ & _ & Hin).
  destruct (Hin f Hf) as (root & content & _ & _ & Htext).
  destruct (analyzeLicenseText_match _ _ _ Htext)
    as (pattern & record & _ & _ & _ & Hl & Hc).
  unfold coherentFile. rewrite Hl, Hc. simpl. lra.
Qed.

Lemma analyzeLicenseFiles_confidences pkg options f :
  In f (analyzeLicenseFiles host pkg options) ->
  confidence (lf_license f) = (8 # 10)%Q \/ confidence (lf_license f) = (9 # 10)%Q.
Proof.
  intros Hf.
  destruct (analyzeLicenseFiles_spec pkg options) as (_ & _ & Hin).
  destruct (Hin f Hf) as (root & content & _ & _ & Htext).
  destruct (analyzeLicenseText_match _ _ _ Htext)
    as (pattern & record & Hp & _ & _ & Hl & _).
  rewrite Hl. simpl.
  apply (proj1 (Forall_forall _ _) text_pattern_confidences pattern Hp).
Qed.

End StrategyFacts.

(** ** Copyright statements *)

Section CopyrightFacts.
Import Detector.
Context (host : Host).

Lemma truthy_iff (s : string) : truthy s = true <-> s <> EmptyString.
Proof. destruct s; simpl; split; congruence. Qed.

Lemma copyright_step (acc : list string) (match0 : string) :
  let statement := trim host match0 in
  let acc' := if truthy statement && negb (includes acc statement)
              then acc ++ [statement] else acc in
  NoDup acc ->
  NoDup acc'
  /\ forall s, In s acc' <-> In s acc \/ (s <> EmptyString /\ s = trim host match0).
Proof.
  intros statement acc' Hnd. subst acc'.
  destruct (truthy statement) eqn:Et; simpl.
  - apply truthy_iff in Et.
    destruct (includes acc statement) eqn:Ei; simpl.
    + apply includes_iff in Ei. split; [exact Hnd|].
      intros s. split; [now left|]. intros [H|[_ ->]]; assumption.
    + assert (Hni : ~ In statement acc)
        by (rewrite <- includes_iff; congruence).
      split.
      * apply NoDup_app; [exact Hnd|repeat constructor; intros []|].
        intros x Hx [<-|[]]. contradiction.
      * intros s. rewrite in_app_iff. simpl. split.
        -- intros [H|[<-|[]]]; [now left|right; auto].
        -- intros [H|[_ ->]]; [now left|right; now left].
  - split; [exact Hnd|]. intros s. split; [now left|].
    intros [H|[Hne ->]]; [exact H|].
    apply truthy_iff in Hne. fold statement in Hne. congruence.
Qed.

Lemma copyright_inner (matches : list string) (acc : list string) :
  let step :=
    fun (copyrightStatements : list string) (match0 : string) =>
      let statement := trim host match0 in
      if truthy statement && negb (includes copyrightStatements statement)
      then copyrightStatements ++ [statement]
      else copyrightStatements in
  NoDup acc ->
  NoDup (fold_left step matches acc)
  /\ forall s, In s (fold_left step matches acc)
               <-> In s acc
                   \/ (s <> EmptyString
                       /\ exists m, In m matches /\ s = trim host m).
Proof.
  intros step. revert acc.
  induction matches as [|m ms IH]; intros acc Hnd; cbn [fold_left].
  - split; [exact Hnd|]. intros s. split; [now left|].
    intros [H|(_ & m & [] & _)]. exact H.
  - destruct (copyright_step acc m Hnd) as [Hnd' Hin'].
    destruct (IH (step acc m) Hnd') as [Hnd'' Hin''].
    split; [exact Hnd''|]. intros s. rewrite Hin''. unfold step at 1.
    rewrite Hin'. split.
    + intros [[H|(Hne & ->)]|(Hne & m' & Hm' & ->)].
      * now left.
      * right. split; [exact Hne|]. exists m. split; [now left|reflexivity].
      * right. split; [exact Hne|]. exists m'. split; [now right|reflexivity].
    + intros [H|(Hne & m' & [<-|Hm'] & ->)].
      * left. now left.
      * left. right. auto.
      * right. split; [exact Hne|]. exists m'. auto.
Qed.

Lemma copyright_outer (root : string) (names : list string) (acc : list string) :
  let scan :=
    fun (copyrightStatements : list string) (pattern : string) =>
      match readUtf8 host root pattern with
      | None => copyrightStatements
      | Some content =>
          fold_left
            (fun copyrightStatements match0 =>
               let statement := trim host match0 in
               if truthy statement && negb (includes copyrightStatements statement)
               then copyrightStatements ++ [statement]
               else copyrightStatements)
            (copyrightMatches host content) copyrightStatements
      end in
  NoDup acc ->
  NoDup (fold_left scan names acc)
  /\ forall s, In s (fold_left scan names acc)
               <-> In s acc
                   \/ (s <> EmptyString
                       /\ exists file content m,
                            In file names
                            /\ readUtf8 host root file = Some content
                            /\ In m (copyrightMatches host content)
                            /\ s = trim host m).
Proof.
  intros scan. revert acc.
  induction names as [|file rest IH]; intros acc Hnd; cbn [fold_left].
  - split; [exact Hnd|]. intros s. split; [now left|].
    intros [H|(_ & f & c & m & [] & _)]. exact H.
  - assert (Hstep : NoDup (scan acc file)
                    /\ forall s, In s (scan acc file)
                                 <-> In s acc
                                     \/ (s <> EmptyString
                                         /\ exists content m,
                                              readUtf8 host root file = Some content
                                              /\ In m (copyrightMatches host content)
                                              /\ s = trim host m)).
    { unfold scan. destruct (readUtf8 host root file) as [content|].
      - destruct (copyright_inner (copyrightMatches host content) acc Hnd)
          as [Hnd' Hin'].
        split; [exact Hnd'|]. intros s. rewrite Hin'. split.
        + intros [H|(Hne & m & Hm & ->)]; [now left|].
          right. split; [exact Hne|]. exists content, m. auto.
        + intros [H|(Hne & c & m & [= <-] & Hm & ->)]; [now left|].
          right. split; [exact Hne|]. exists m. auto.
      - split; [exact Hnd|]. intros s. split; [now left|].
        intros [H|(_ & c & m & Hc & _)]; [exact H|discriminate]. }
    destruct Hstep as [Hnd' Hin'].
    destruct (IH (scan acc file) Hnd') as [Hnd'' Hin''].
    split; [exact Hnd''|]. intros s. rewrite Hin'', Hin'. split.
    + intros [[H|(Hne & c & m & Hc & Hm & ->)]|(Hne & f & c & m & Hf & Hc & Hm & ->)].
      * now left.
      * right. split; [exact Hne|]. exists file, c, m.
        split; [now left|]. auto.
      * right. split; [exact Hne|]. exists f, c, m.
        split; [now right|]. auto.
    + intros [H|(Hne & f & c & m & [<-|Hf] & Hc & Hm & ->)].
      * left. now left.
      * left. right. split; [exact Hne|]. exists c, m. auto.
      * right. split; [exact Hne|]. exists f, c, m. auto.
Qed.

(** X5: the copyright statements of a package hold no statement twice and
    no empty one; a string is among them exactly when it is the trimmed,
    non-empty text of a match of the copyright pattern in a readable
    candidate file under the package's (non-empty) root. *)
Theorem extractCopyrightStatements_distinct :
  forall (pkg : Package) (options : LicenseScanOptions),
    NoDup (extractCopyrightStatements host pkg options)
    /\ forall s,
         In s (extractCopyrightStatements host pkg options)
         <-> s <> EmptyString
             /\ exists root file content m,
                  pkg_path pkg = Some root /\ root <> EmptyString
                  /\ In file LICENSE_FILE_PATTERNS
                  /\ readUtf8 host root file = Some content
                  /\ In m (copyrightMatches host content)
                  /\ s = trim host m.
Proof.
  intros pkg options. unfold extractCopyrightStatements.
  destruct (pkg_path pkg) as [root|].
  2:{ split; [constructor|]. intros s. split; [intros []|].
      intros (_ & r & f & c & m & H & _). discriminate. }
  destruct (truthy root) eqn:Et; cbn [negb].
  2:{ split; [constructor|]. intros s. split; [intros []|].
      intros (_ & r & f & c & m & [= <-] & Hne & _).
      apply truthy_iff in Hne. congruence. }
  apply truthy_iff in Et.
  destruct (copyright_outer root LICENSE_FILE_PATTERNS [] (NoDup_nil _))
    as [Hnd Hin].
  split; [exact Hnd|]. intros s. rewrite Hin. split.
  - intros [[]|(Hne & f & c & m & Hf & Hc & Hm & ->)].
    split; [exact Hne|]. exists root, f, c, m. auto 7.
  - intros (Hne & r & f & c & m & [= <-] & _ & Hf & Hc & Hm & ->).
    right. split; [exact Hne|]. exists f, c, m. auto.
Qed.

End CopyrightFacts.

(** ** The analysis as a whole *)

Section AnalysisFacts.
Import Detector.
Context (host : Host).

Lemma Permutation_sort_insert {A} (cmp : A -> A -> Q) (x : A) (l : list A) :
  Permutation (sort_insert cmp x l) (x :: l).
Proof.
  induction l as [|y ys IH]; simpl; [reflexivity|].
  destruct (Qle_bool (cmp x y) 0); [reflexivity|].
  rewrite IH. apply perm_swap.
Qed.

Lemma Permutation_Array_sort {A} (cmp : A -> A -> Q) (l : list A) :
  Permutation (Array_sort cmp l) l.
Proof.
  induction l as [|x xs IH]; simpl; [reflexivity|].
  rewrite Permutation_sort_insert. now constructor.
Qed.

Lemma determinePrimaryLicense_Permutation (ls : list License) (d : option License) :
  Permutation (snd (determinePrimaryLicense ls d)) ls.
Proof.
  unfold determinePrimaryLicense.
  destruct ls as [|l1 [|l2 rest]]; [reflexivity..|].
  destruct (match d with Some d0 => find _ _ | None => None end); [reflexivity|].
  destruct (filter isPermissive _); [|reflexivity].
  cbn [snd]. apply Permutation_Array_sort.
Qed.

Lemma determinePrimaryLicense_member (ls : list License) (d : option License) :
  (fst (determinePrimaryLicense ls d) = None <-> ls = [])
  /\ forall p, fst (determinePrimaryLicense ls d) = Some p -> In p ls.
Proof.
  destruct ls as [|l0 rest].
  - split; [split; reflexivity|]. intros p. discriminate.
  - destruct (determinePrimaryLicense_chooses (l0 :: rest) d) as (l & Hl & Hrule);
      [discriminate|].
    rewrite Hl. split; [split; discriminate|].
    intros p [= <-]. eapply primaryRule_In, Hrule.
Qed.

Lemma same_id_same_license (ls : list License) (x y : License) :
  NoDup (map spdxId ls) -> In x ls -> In y ls -> spdxId x = spdxId y -> x = y.
Proof.
  induction ls as [|l ls IH]; intros Hnd Hx Hy Hid; [destruct Hx|].
  simpl in Hnd. apply NoDup_cons_iff in Hnd as [Hni Hnd].
  destruct Hx as [<-|Hx], Hy as [<-|Hy].
  - reflexivity.
  - exfalso. apply Hni. rewrite Hid. now apply in_map.
  - exfalso. apply Hni. rewrite <- Hid. now apply in_map.
  - now apply IH.
Qed.

Lemma consolidateLicenses_covers_declared (d : License) (files : list LicenseFile) :
  Forall coherentFile files ->
  exists l, In l (consolidateLicenses (Some d) files)
            /\ spdxId l = spdxId d /\ (confidence d <= confidence l)%Q.
Proof.
  intros Hall. rewrite consolidateLicenses_fold.
  assert (Hm0 : keyedById (Map_set String.eqb [] (spdxId d) d)).
  { apply keyedById_set. split; [constructor|intros k v []]. }
  apply (covers_In _ _ _ (consolidate_fold_keyed files _ Hm0)).
  apply consolidate_fold_covers; [exact Hall|].
  exists d. simpl. rewrite String.eqb_refl. split; [reflexivity|lra].
Qed.

Lemma consolidateLicenses_covers_files (d : option License) (files : list LicenseFile)
    (f : LicenseFile) :
  Forall coherentFile files -> In f files ->
  exists l, In l (consolidateLicenses d files)
            /\ spdxId l = spdxId (lf_license f)
            /\ (lf_confidence f <= confidence l)%Q.
Proof.
  intros Hall Hf. rewrite consolidateLicenses_fold.
  set (m0 := match d with
             | Some d0 => Map_set String.eqb [] (spdxId d0) d0
             | None => []
             end).
  assert (Hm0 : keyedById m0).
  { destruct d as [d0|]; [apply keyedById_set|]; split; try constructor;
      intros k v []. }
  apply (covers_In _ _ _ (consolidate_fold_keyed files m0 Hm0)).
  now apply consolidate_fold_covers_files.
Qed.

Lemma consolidateStep_length m f :
  (List.length m <= List.length (consolidateStep m f) <= S (List.length m))%nat
  /\ (1 <= List.length (consolidateStep m f))%nat.
Proof.
  unfold consolidateStep.
  assert (Hset : forall (m : list (string * License)) k v,
             (List.length m <= List.length (Map_set String.eqb m k v)
              <= S (List.length m))%nat
             /\ (1 <= List.length (Map_set String.eqb m k v))%nat).
  { clear. intros m k v. induction m as [|[k0 v0] m IH]; simpl; [lia|].
    destruct (String.eqb k k0); simpl; lia. }
  destruct (Map_get String.eqb m (spdxId (lf_license f))) as [existing|] eqn:Eg.
  - destruct (Qlt_le_dec _ _); [apply Hset|].
    destruct m; [discriminate|simpl; lia].
  - apply Hset.
Qed.

Lemma consolidate_fold_length files m :
  (List.length m <= List.length (fold_left consolidateStep files m)
   <= List.length m + List.length files)%nat
  /\ (files <> [] -> 1 <= List.length (fold_left consolidateStep files m))%nat.
Proof.
  revert m. induction files as [|f fs IH]; intros m; cbn [fold_left].
  - simpl. split; [lia|congruence].
  - destruct (IH (consolidateStep m f)) as [Hlen _].
    pose proof (consolidateStep_length m f) as [Hstep Hone].
    simpl. split; [lia|]. intros _. lia.
Qed.

Lemma consolidateLicenses_length (d : option License) (files : list LicenseFile) :
  (List.length (consolidateLicenses d files)
   <= (match d with Some _ => 1 | None => 0 end) + List.length files)%nat
  /\ (consolidateLicenses d files = [] <-> d = None /\ files = []).
Proof.
  rewrite consolidateLicenses_fold. unfold Map_values. rewrite length_map.
  set (m0 := match d with
             | Some d0 => Map_set String.eqb [] (spdxId d0) d0
             | None => []
             end).
  pose proof (consolidate_fold_length files m0) as [Hlen Hne].
  assert (Hm0 : List.length m0 = match d with Some _ => 1%nat | None => 0%nat end)
    by (destruct d; reflexivity).
  split; [lia|]. split.
  - intros Hnil. apply (f_equal (@List.length _)) in Hnil.
    rewrite length_map in Hnil. simpl in Hnil.
    destruct d; [lia|]. split; [reflexivity|].
    destruct files; [reflexivity|]. specialize (Hne ltac:(discriminate)). lia.
  - intros [-> ->]. reflexivity.
Qed.

Lemma analyzeLicenseFiles_length pkg options :
  (List.length (analyzeLicenseFiles host pkg options) <= 12)%nat.
Proof.
  destruct (analyzeLicenseFiles_spec host pkg options) as (Hnd & Hincl & _).
  rewrite <- (length_map lf_path).
  change 12%nat with (List.length LICENSE_FILE_PATTERNS).
  apply NoDup_incl_length; assumption.
Qed.

(** The fields of a detection in terms of the steps that produce them. *)
Lemma detection_parts options pkg a :
  detection host options pkg = Fulfilled a ->
  exists d,
    detectDeclaredLicense host pkg = Fulfilled d
    /\ an_name a = pkg_name pkg /\ an_version a = pkg_version pkg
    /\ licenseFiles a
       = analyzeLicenseFiles host pkg
           (match options with Some o => o | None => getDefaultOptions end)
    /\ copyrightStatements a
       = extractCopyrightStatements host pkg
           (match options with Some o => o | None => getDefaultOptions end)
    /\ detectionMethod a = determineDetectionMethod d (licenseFiles a)
    /\ primaryLicense a
       = fst (determinePrimaryLicense (consolidateLicenses d (licenseFiles a)) d)
    /\ licenses a
       = snd (determinePrimaryLicense (consolidateLicenses d (licenseFiles a)) d)
    /\ an_obligations a = calculateObligations (licenses a)
    /\ riskLevel a = assessLegalRisk (licenses a) (an_obligations a)
    /\ issues a = detectIssues pkg (licenses a) d (licenseFiles a).
Proof.
  unfold detection. destruct (detectDeclaredLicense host pkg) as [d|e]; [|discriminate].
  intros [= <-]. exists d. split; [reflexivity|].
  unfold analysisOf.
  destruct (determinePrimaryLicense _ d) as [primary sorted] eqn:Ed.
  cbn [an_name an_version primaryLicense licenses an_obligations riskLevel issues
       licenseFiles copyrightStatements detectionMethod].
  rewrite Ed. repeat split; reflexivity.
Qed.

(** X6: the licenses of an analysis the detector returns.  The analysis
    names the package; its licenses carry pairwise distinct identifiers,
    are at most thirteen, each with one of the confidences 1.0, 0.8 and
    0.9, and each the resolved declared license or the license of one of
    the analysis's files; and the identifier of every file of the analysis
    is among them with at least the file's confidence. *)
Theorem detection_licenses_well_formed :
  forall (options : option LicenseScanOptions) (pkg : Package) (a : LicenseAnalysis),
    detection host options pkg = Fulfilled a ->
    an_name a = pkg_name pkg /\ an_version a = pkg_version pkg
    /\ NoDup (map spdxId (licenses a))
    /\ (List.length (licenses a) <= 13)%nat
    /\ (forall l, In l (licenses a) ->
          detectorConfidence (confidence l)
          /\ (detectDeclaredLicense host pkg = Fulfilled (Some l)
              \/ exists f, In f (licenseFiles a) /\ l = lf_license f))
    /\ (forall f, In f (licenseFiles a) ->
          exists l, In l (licenses a)
                    /\ spdxId l = spdxId (lf_license f)
                    /\ (lf_confidence f <= confidence l)%Q).
Proof.
  intros options pkg a Hdet.
  destruct (detection_parts _ _ _ Hdet)
    as (d & Hd & Hname & Hversion & Hfiles & _ & _ & _ & Hlicenses & _).
  set (o := match options with Some o => o | None => getDefaultOptions end) in *.
  pose proof (determinePrimaryLicense_Permutation
                (consolidateLicenses d (licenseFiles a)) d) as Hperm.
  rewrite <- Hlicenses in Hperm.
  split; [exact Hname|]. split; [exact Hversion|]. split; [|split; [|split]].
  - apply (Permutation_NoDup (l := map spdxId (consolidateLicenses d (licenseFiles a)))).
    + symmetry. now apply Permutation_map.
    + apply consolidateLicenses_NoDup.
  - rewrite (Permutation_length Hperm).
    pose proof (consolidateLicenses_length d (licenseFiles a)) as [Hlen _].
    pose proof (analyzeLicenseFiles_length pkg o) as H12.
    rewrite <- Hfiles in H12. destruct d; simpl in Hlen; lia.
  - intros l Hl. apply (Permutation_in _ Hperm) in Hl.
    apply consolidateLicenses_origin in Hl as [->|(f & Hf & ->)].
    + split; [|now left]. unfold detectorConfidence.
      destruct (detectDeclaredLicense_confidence host pkg l Hd); auto.
    + split; [|right; exists f; auto]. unfold detectorConfidence.
      rewrite Hfiles in Hf.
      destruct (analyzeLicenseFiles_confidences host pkg o f Hf); auto.
  - intros f Hf.
    destruct (consolidateLicenses_covers_files d (licenseFiles a) f)
      as (l & Hl & Hid & Hc); [|exact Hf|].
    { rewrite Hfiles. apply analyzeLicenseFiles_coherent. }
    exists l. split; [|auto].
    apply (Permutation_in _ (Permutation_sym Hperm)), Hl.
Qed.

(** X7: the primary license of an analysis the detector returns.  There
    is none exactly when the analysis has no license; it is one of the
    analysis's licenses; and when the declared expression resolves, it
    carries the identifier of the resolved license, with at least its
    confidence. *)
Theorem detection_primary_license :
  forall (options : option LicenseScanOptions) (pkg : Package) (a : LicenseAnalysis),
    detection host options pkg = Fulfilled a ->
    (primaryLicense a = None <-> licenses a = [])
    /\ (forall p, primaryLicense a = Some p -> In p (licenses a))
    /\ (forall d, detectDeclaredLicense host pkg = Fulfilled (Some d) ->
          exists p, primaryLicense a = Some p
                    /\ spdxId p = spdxId d
                    /\ (confidence d <= confidence p)%Q).
Proof.
  intros options pkg a Hdet.
  destruct (detection_parts _ _ _ Hdet)
    as (d & Hd & _ & _ & Hfiles & _ & _ & Hprimary & Hlicenses & _).
  set (ls := consolidateLicenses d (licenseFiles a)) in *.
  destruct (determinePrimaryLicense_member ls d) as [Hnone Hsome].
  pose proof (determinePrimaryLicense_Permutation ls d) as Hperm.
  rewrite <- Hlicenses in Hperm. rewrite <- Hprimary in Hnone, Hsome.
  split; [|split].
  - rewrite Hnone. split.
    + intros E. rewrite E in Hperm.
      now apply Permutation_sym, Permutation_nil in Hperm.
    + intros E. rewrite E in Hperm. now apply Permutation_nil in Hperm.
  - intros p Hp. apply (Permutation_in _ (Permutation_sym Hperm)), Hsome, Hp.
  - intros d0 Hd0. rewrite Hd in Hd0. injection Hd0 as ->.
    destruct (consolidateLicenses_covers_declared d0 (licenseFiles a))
      as (l & Hl & Hid & Hc).
    { rewrite Hfiles. apply analyzeLicenseFiles_coherent. }
    fold ls in Hl. exists l. split; [|auto].
    rewrite Hprimary. unfold determinePrimaryLicense.
    destruct ls as [|l1 [|l2 rest]] eqn:Els; [destruct Hl| |].
    + destruct Hl as [<-|[]]. reflexivity.
    + destruct (find (fun l => String.eqb (spdxId l) (spdxId d0)) (l1 :: l2 :: rest))
        as [found|] eqn:Ef.
      * apply find_some in Ef as [Hin Heq]. apply String.eqb_eq in Heq.
        cbn [fst]. f_equal.
        apply (same_id_same_license (l1 :: l2 :: rest)); try assumption.
        -- rewrite <- Els. apply consolidateLicenses_NoDup.
        -- congruence.
      * exfalso. apply (find_none _ _ Ef) in Hl.
        apply String.eqb_neq in Hl. contradiction.
Qed.

Lemma assessLegalRisk_nothing : assessLegalRisk [] [] = LegalRiskLevel.VERY_LOW.
Proof. reflexivity. Qed.

(** X8: an analysis without licenses.  The detector returns one exactly
    when the declared expression does not resolve and no file matches,
    which is exactly when it reports the detection method [manual]; such
    an analysis has no primary license and no obligation, is rated
    VERY_LOW, and carries the missing-license issue, followed by the
    unrecognized-license issue when an expression was declared, and
    nothing else.  No other analysis carries a missing-license issue. *)
Theorem detection_nothing_found :
  forall (options : option LicenseScanOptions) (pkg : Package) (a : LicenseAnalysis),
    detection host options pkg = Fulfilled a ->
    (licenses a = []
     <-> detectDeclaredLicense host pkg = Fulfilled None /\ licenseFiles a = [])
    /\ (licenses a = [] <-> detectionMethod a = manual)
    /\ (licenses a = [] <-> In missing_license (map issue_type (issues a)))
    /\ (licenses a = [] ->
        primaryLicense a = None
        /\ an_obligations a = []
        /\ riskLevel a = LegalRiskLevel.VERY_LOW
        /\ issues a
           = Spec.missingLicenseIssue
               :: (if truthy_opt (pkg_license pkg)
                   then [Spec.unrecognizedLicenseIssue pkg] else [])).
Proof.
  intros options pkg a Hdet.
  destruct (detection_parts _ _ _ Hdet)
    as (d & Hd & _ & _ & _ & _ & Hmethod & Hprimary & Hlicenses & Hobl & Hrisk & Hissues).
  set (ls := consolidateLicenses d (licenseFiles a)) in *.
  pose proof (determinePrimaryLicense_Permutation ls d) as Hperm.
  rewrite <- Hlicenses in Hperm.
  pose proof (consolidateLicenses_length d (licenseFiles a)) as [_ Hnil].
  fold ls in Hnil.
  assert (Hempty : licenses a = [] <-> d = None /\ licenseFiles a = []).
  { rewrite <- Hnil. split; intros E.
    - rewrite E in Hperm. now apply Permutation_nil in Hperm.
    - rewrite E in Hperm. now apply Permutation_sym, Permutation_nil in Hperm. }
  split; [|split; [|split]].
  - rewrite Hempty, Hd. split; intros [H1 H2]; split; congruence.
  - rewrite Hempty, Hmethod. unfold determineDetectionMethod.
    destruct d, (licenseFiles a); split; try discriminate; try tauto;
      intros [? ?]; discriminate.
  - rewrite Hissues, detectIssues_parts, !map_app, !in_app_iff. split.
    + intros ->. left. simpl. now left.
    + intros [H|[H|[H|H]]].
      * destruct (licenses a); [reflexivity|destruct H].
      * destruct (_ && _); simpl in H; [|destruct H].
        destruct H as [H|[]]. discriminate.
      * exfalso. apply in_map_iff in H as (i & Hty & Hi).
        apply in_flat_map in Hi as (l & _ & Hi).
        destruct (Spec.carriesDeprecatedIds l); [|destruct Hi].
        destruct Hi as [<-|[]]. discriminate.
      * exfalso. destruct d; [destruct H|].
        destruct (truthy_opt (pkg_license pkg)); [|destruct H].
        destruct H as [H|[]]. discriminate.
  - intros Hnone. destruct (proj1 Hempty Hnone) as [-> Hfiles].
    assert (Hls : ls = []) by (apply Hnil; auto).
    rewrite Hprimary, Hrisk, Hobl, Hissues, Hnone, Hls.
    split; [reflexivity|]. split; [reflexivity|]. split; [reflexivity|].
    rewrite detectIssues_parts. reflexivity.
Qed.

End AnalysisFacts.

(** ** When a detection fails *)

Section DetectionFailure.
Import Detector.
Context (host : Host) (run : Run).

Lemma detectDeclaredLicense_rejected pkg err :
  detectDeclaredLicense host pkg = Rejected err ->
  exists expr id,
    pkg_license pkg = Some expr /\ expr <> EmptyString
    /\ (id = trim host expr
        \/ exists part, In part (splitExpression host (trim host expr))
                        /\ id = trim host part)
    /\ getLicense host id = Rejected err.
Proof.
  unfold detectDeclaredLicense.
  destruct (pkg_license pkg) as [e|]; [|discriminate].
  destruct (truthy e) eqn:Et; cbn [negb]; [|discriminate].
  apply truthy_iff in Et.
  destruct (getLicense host (trim host e)) as [[record|]|err0] eqn:Eg;
    [discriminate| |].
  - intros Hloop.
    assert (Hpart : exists part, In part (splitExpression host (trim host e))
                                 /\ getLicense host (trim host part) = Rejected err).
    { revert Hloop.
      induction (splitExpression host (trim host e)) as [|part rest IH];
        [discriminate|].
      destruct (getLicense host (trim host part)) as [[record|]|err1] eqn:Ep.
      - discriminate.
      - intros H. destruct (IH H) as (p & Hp & Hg). exists p. split; [now right|exact Hg].
      - intros [= <-]. exists part. split; [now left|exact Ep]. }
    destruct Hpart as (part & Hpart & Hg).
    exists e, (trim host part). split; [reflexivity|]. split; [exact Et|].
    split; [right; exists part; auto|exact Hg].
  - intros [= <-]. exists e, (trim host e). auto.
Qed.

Lemma detectDeclaredLicense_fulfilled pkg :
  truthy_opt (pkg_license pkg) = false
  \/ (forall id err, getLicense host id <> Rejected err) ->
  exists d, detectDeclaredLicense host pkg = Fulfilled d.
Proof.
  intros Hcase.
  destruct (detectDeclaredLicense host pkg) as [d|err] eqn:Ed; [now exists d|].
  exfalso.
  destruct (detectDeclaredLicense_rejected _ _ Ed) as (expr & id & He & Hne & _ & Hg).
  destruct Hcase as [Hfalsy|Hstore].
  - rewrite He in Hfalsy. simpl in Hfalsy. apply truthy_iff in Hne. congruence.
  - exact (Hstore id err Hg).
Qed.

(** X9: a detection fails only through the lookup of the declared
    expression.  When [detectLicense] rejects, the package declares a
    non-empty expression, the store faulted on the trimmed expression or
    on one of its trimmed tokens, the rejection is that fault under the
    prefix "License detection failed for <name>: ", and the call has
    read the clock once and logged its start and the fault. *)
Theorem detectLicense_failure :
  forall (pkg : Package) (options : option LicenseScanOptions) (w : World)
         (e : Thrown),
    fst (detectLicense host run pkg options w) = Rejected e ->
    exists expr id err,
      pkg_license pkg = Some expr /\ expr <> EmptyString
      /\ (id = trim host expr
          \/ exists part, In part (splitExpression host (trim host expr))
                          /\ id = trim host part)
      /\ getLicense host id = Rejected err
      /\ e = detectionFailed pkg err
      /\ snd (detectLicense host run pkg options w)
         = mkWorld (S (ticks w))
                   (log w ++ [DetectorAnalyzing (pkg_name pkg) (pkg_version pkg);
                              DetectorFailed err]).
Proof.
  intros pkg options w e.
  unfold detectLicense, detectLicense_begin, detectLicense_resume,
    try_catch, bind, lift, Date_now, logger, ret, throw.
  destruct (detectDeclaredLicense host pkg) as [d|err] eqn:Ed;
    cbn -[analysisOf]; [discriminate|].
  intros [= <-].
  destruct (detectDeclaredLicense_rejected _ _ Ed) as (expr & id & He & Hne & Hid & Hg).
  exists expr, id, err. repeat (split; [assumption|]).
  split; [reflexivity|]. now rewrite <- app_assoc.
Qed.

Lemma metadata_analysisOf pkg o d s t :
  metadata (analysisOf host pkg o d s t) = mkMetadata t "LicenseDetector" "1.0.0" s.
Proof. unfold analysisOf. destruct (determinePrimaryLicense _ _). reflexivity. Qed.

(** X10: faults of the store and of the file system past the declared
    lookup are swallowed.  When the package declares no expression, or
    the store never faults, [detectLicense] returns an analysis, having
    read the clock three times and logged its start and its completion
    with the number of licenses of the analysis and the scan duration the
    analysis records. *)
Theorem detectLicense_succeeds :
  forall (pkg : Package) (options : option LicenseScanOptions) (w : World),
    truthy_opt (pkg_license pkg) = false
    \/ (forall id err, getLicense host id <> Rejected err) ->
    exists a,
      detectLicense host run pkg options w
      = (Fulfilled a,
         mkWorld (3 + ticks w)
                 (log w ++ [DetectorAnalyzing (pkg_name pkg) (pkg_version pkg);
                            DetectorCompleted (scanDuration (metadata a))
                                              (List.length (licenses a))]))
      /\ scanDuration (metadata a) = clock run (S (ticks w)) - clock run (ticks w)
      /\ analyzedAt (metadata a) = clock run (S (S (ticks w))).
Proof.
  intros pkg options w Hcase.
  destruct (detectDeclaredLicense_fulfilled pkg Hcase) as [d Hd].
  unfold detectLicense, detectLicense_begin, detectLicense_resume,
    try_catch, bind, lift, Date_now, logger, ret, throw.
  rewrite Hd. cbn -[analysisOf].
  eexists. rewrite metadata_analysisOf. cbn [scanDuration analyzedAt].
  split; [|split; reflexivity].
  rewrite <- app_assoc. reflexivity.
Qed.

End DetectionFailure.

(** ** The parts of a legal-risk report *)

Section ReportParts.
Import Detector Service.

Lemma filter_nonempty {A} (p : A -> bool) (l : list A) :
  (0 <? List.length (filter p l))%nat = true <-> exists x, In x l /\ p x = true.
Proof.
  rewrite Nat.ltb_lt. split.
  - intros Hlen. destruct (filter p l) as [|x xs] eqn:Ef; [simpl in Hlen; lia|].
    exists x. apply filter_In. rewrite Ef. now left.
  - intros (x & Hx & Hp).
    assert (Hin : In x (filter p l)) by (apply filter_In; auto).
    destruct (filter p l); [destruct Hin|simpl; lia].
Qed.

Lemma filter_empty {A} (p : A -> bool) (l : list A) :
  (0 <? List.length (filter p l))%nat = false <-> forall x, In x l -> p x = false.
Proof.
  rewrite <- Bool.not_true_iff_false, filter_nonempty. split.
  - intros Hno x Hx. destruct (p x) eqn:Ep; [|reflexivity].
    exfalso. apply Hno. now exists x.
  - intros Hall (x & Hx & Hp). rewrite (Hall x Hx) in Hp. discriminate.
Qed.

(** X11: the legal review.  A review is required exactly when its scope
    is not empty, and exactly when its urgency is not [low]; a scope area
    is never listed twice and the estimate is four hours per area, at most
    twelve; the urgency is [urgent] exactly for a CRITICAL overall risk or
    a factor of critical impact; and no review is required exactly when
    the overall risk is at most MEDIUM and no factor is critical or about
    license compatibility. *)
Theorem assessLegalReviewNeeds_summary :
  forall (overallRisk : LegalRiskLevel.t) (riskFactors : list RiskFactor),
    let review := assessLegalReviewNeeds overallRisk riskFactors in
    (required review = true <-> scope review <> [])
    /\ (required review = true <-> urgency review <> urg_low)
    /\ NoDup (scope review)
    /\ estimatedHours review = (4 * List.length (scope review))%nat
    /\ (estimatedHours review <= 12)%nat
    /\ (urgency review = urg_urgent
        <-> overallRisk = LegalRiskLevel.CRITICAL
            \/ exists f, In f riskFactors /\ rf_impact f = sev_critical)
    /\ (required review = false
        <-> (overallRisk = LegalRiskLevel.VERY_LOW
             \/ overallRisk = LegalRiskLevel.LOW
             \/ overallRisk = LegalRiskLevel.MEDIUM)
            /\ forall f, In f riskFactors ->
                         rf_impact f <> sev_critical
                         /\ rf_category f <> license_compatibility).
Proof.
  intros overallRisk riskFactors review. subst review.
  unfold assessLegalReviewNeeds.
  set (isCritical := fun f : RiskFactor =>
                       match rf_impact f with sev_critical => true | _ => false end).
  set (isCompatibility := fun f : RiskFactor =>
                            match rf_category f with
                            | license_compatibility => true
                            | _ => false
                            end).
  assert (Hcrit : forall f, isCritical f = true <-> rf_impact f = sev_critical)
    by (intros f; unfold isCritical; destruct (rf_impact f); split; congruence).
  assert (Hcomp : forall f, isCompatibility f = true
                            <-> rf_category f = license_compatibility)
    by (intros f; unfold isCompatibility; destruct (rf_category f); split; congruence).
  assert (Hsome : (exists f, In f riskFactors /\ rf_impact f = sev_critical)
                  <-> (0 <? List.length (filter isCritical riskFactors))%nat = true).
  { rewrite filter_nonempty. split; intros (f & Hf & H); exists f;
      (split; [exact Hf|now apply Hcrit]). }
  assert (Hnone : (forall f, In f riskFactors ->
                             rf_impact f <> sev_critical
                             /\ rf_category f <> license_compatibility)
                  <-> (0 <? List.length (filter isCritical riskFactors))%nat = false
                      /\ (0 <? List.length (filter isCompatibility riskFactors))%nat
                         = false).
  { rewrite !filter_empty. split.
    - intros H. split; intros f Hf; destruct (H f Hf) as [H1 H2].
      + destruct (isCritical f) eqn:E; [apply Hcrit in E; contradiction|reflexivity].
      + destruct (isCompatibility f) eqn:E; [apply Hcomp in E; contradiction|reflexivity].
    - intros [H1 H2] f Hf. split; intros E.
      + apply Hcrit in E. rewrite (H1 f Hf) in E. discriminate.
      + apply Hcomp in E. rewrite (H2 f Hf) in E. discriminate. }
  rewrite Hsome, Hnone.
  destruct (0 <? List.length (filter isCritical riskFactors))%nat,
           (0 <? List.length (filter isCompatibility riskFactors))%nat,
           overallRisk;
    cbn.
  all: split; [split; [discriminate || congruence|reflexivity || congruence]|].
  all: split; [split; [discriminate || congruence|reflexivity || congruence]|].
  all: split; [repeat (apply NoDup_cons; [cbn; intuition discriminate|]);
               apply NoDup_nil|].
  all: split; [reflexivity|].
  all: split; [lia|].
  all: split; [split; intros H; try reflexivity; try discriminate;
               try (now left); try (now right);
               destruct H as [H|H]; discriminate|].
  all: split; [intros H|intros [[H|[H|H]] [H1 H2]]];
    try reflexivity; try discriminate.
  all: split; [auto|split; reflexivity].
Qed.

Lemma category_is_copyleft (c : LicenseCategory.t) :
  String.eqb (LicenseCategory.value c) "copyleft" = true
  <-> c = LicenseCategory.COPYLEFT.
Proof. destruct c; cbn; split; congruence. Qed.

Lemma obligation_value_eqb (o t : ObligationType.t) :
  String.eqb (ObligationType.value o) (ObligationType.value t)
  = ObligationType.eqb o t.
Proof. destruct o, t; reflexivity. Qed.

(** X12: the risk factors.  At most three factors are reported, one per
    category and in the order compatibility, compliance, governance, each
    with a positive score: the compatibility factor exactly when the
    compatibility report lists a conflict (20 per conflict), the
    compliance factor exactly when an analysis has a copyleft license (10
    per such analysis), the governance factor exactly when an analysis has
    no license (15 per such analysis).  Only the compatibility factor is
    of critical impact. *)
Theorem identifyRiskFactors_structure :
  forall (licenseAnalyses : list LicenseAnalysis) (report : CompatibilityReport),
    let factors := identifyRiskFactors licenseAnalyses report in
    let copyleft :=
      filter (fun a => existsb (fun l => LicenseCategory.eqb (category l)
                                                           LicenseCategory.COPYLEFT)
                               (licenses a))
             licenseAnalyses in
    let unlicensed :=
      filter (fun a => match licenses a with [] => true | _ => false end)
             licenseAnalyses in
    map (fun f => (rf_category f, rf_riskScore f)) factors
    = (match conflicts report with
       | [] => []
       | _ => [(license_compatibility, 20 * List.length (conflicts report))%nat]
       end)
      ++ (match copyleft with
          | [] => []
          | _ => [(compliance, 10 * List.length copyleft)%nat]
          end)
      ++ (match unlicensed with
          | [] => []
          | _ => [(governance, 15 * List.length unlicensed)%nat]
          end)
    /\ (forall f, In f factors -> (0 < rf_riskScore f)%nat)
    /\ (forall f, In f factors ->
                  (rf_impact f = sev_critical
                   <-> rf_category f = license_compatibility)).
Proof.
  intros licenseAnalyses report factors copyleft unlicensed.
  subst factors. unfold identifyRiskFactors.
  assert (Hc : filter (fun a =>
                         existsb (fun l => String.eqb (LicenseCategory.value (category l))
                                                      "copyleft")
                                 (licenses a))
                      licenseAnalyses
               = copyleft).
  { apply filter_ext. intros a. induction (licenses a) as [|l ls IH]; [reflexivity|].
    simpl. rewrite IH. f_equal. destruct (category l); reflexivity. }
  assert (Hu : filter (fun a => (List.length (licenses a) =? 0)%nat) licenseAnalyses
               = unlicensed).
  { apply filter_ext. intros a. now destruct (licenses a). }
  rewrite Hc, Hu.
  destruct (conflicts report) as [|c cs], copyleft as [|a1 as1], unlicensed as [|a2 as2];
    cbn [List.length Nat.ltb Nat.leb app map rf_category rf_riskScore];
    (split; [repeat (f_equal; try apply Nat.mul_comm); reflexivity|]);
    (split; intros f Hf; simpl in Hf;
     repeat (destruct Hf as [<-|Hf]; [cbn; try lia; split; congruence|]);
     destruct Hf).
Qed.

(** X13: the patent risks.  One MEDIUM entry is reported per occurrence of
    a license whose obligations include the patent grant, in the order of
    the analyses and of their licenses; a license that occurs in several
    analyses is reported once per occurrence. *)
Theorem assessPatentRisks_per_occurrence :
  forall (licenseAnalyses : list LicenseAnalysis),
    map pr_license (assessPatentRisks licenseAnalyses)
    = filter (fun l => existsb (ObligationType.eqb ObligationType.PATENT_GRANT)
                               (obligations l))
             (flat_map licenses licenseAnalyses)
    /\ forall r, In r (assessPatentRisks licenseAnalyses) ->
                 pr_riskLevel r = LegalRiskLevel.MEDIUM
                 /\ In ObligationType.PATENT_GRANT (obligations (pr_license r)).
Proof.
  intros licenseAnalyses. unfold assessPatentRisks.
  set (grants := fun l : License =>
                   existsb (ObligationType.eqb ObligationType.PATENT_GRANT)
                           (obligations l)).
  set (entry := fun l : License =>
                  if grants l
                  then [mkPatentRisk l ["Patent grant and termination clauses"%string]
                          "License includes patent provisions that may affect patent strategy"
                          LegalRiskLevel.MEDIUM]
                  else []).
  rewrite (fold_left_emit _ (fun a => flat_map entry (licenses a))).
  2:{ intros acc a. apply fold_left_emit. intros acc' l. unfold entry, grants.
      assert (He : existsb (fun o => String.eqb (ObligationType.value o) "patent_grant")
                           (obligations l)
                   = existsb (ObligationType.eqb ObligationType.PATENT_GRANT)
                             (obligations l)).
      { induction (obligations l) as [|o os IH]; [reflexivity|]. simpl.
        rewrite IH. f_equal. now destruct o. }
      rewrite He. clear He.
      destruct (existsb _ _); [reflexivity|now rewrite app_nil_r]. }
  cbn [app]. split.
  - induction licenseAnalyses as [|a rest IH]; [reflexivity|].
    cbn [flat_map]. rewrite map_app, filter_app, IH. f_equal.
    induction (licenses a) as [|l ls IHl]; [reflexivity|].
    cbn [flat_map filter]. rewrite map_app, IHl. unfold entry.
    destruct (grants l); reflexivity.
  - intros r Hr. apply in_flat_map in Hr as (a & _ & Hr).
    apply in_flat_map in Hr as (l & _ & Hr). unfold entry in Hr.
    destruct (grants l) eqn:Eg; [|destruct Hr]. destruct Hr as [<-|[]].
    split; [reflexivity|]. cbn [pr_license].
    unfold grants in Eg. apply existsb_exists in Eg as (o & Ho & Heq).
    destruct o; try discriminate. exact Ho.
Qed.

Lemma prefix_iff (sub s : string) :
  String.prefix sub s = true <-> exists post, s = (sub ++ post)%string.
Proof.
  revert s. induction sub as [|a sub IH]; intros s.
  - destruct s; simpl; split; eauto.
  - destruct s as [|b s]; simpl.
    + split; [discriminate|]. intros (post & H). discriminate.
    + destruct (ascii_dec a b) as [->|Hne].
      * rewrite IH. split; intros (post & H); exists post; congruence.
      * split; [discriminate|]. intros (post & H). congruence.
Qed.

Lemma String_includes_iff (s sub : string) :
  String_includes s sub = true
  <-> exists pre post, s = (pre ++ sub ++ post)%string.
Proof.
  induction s as [|c s IH].
  - cbn [String_includes]. destruct (String.prefix sub EmptyString) eqn:Ep.
    + split; [|reflexivity]. intros _. apply prefix_iff in Ep as (post & H).
      exists EmptyString, post. exact H.
    + split; [discriminate|]. intros (pre & post & H).
      destruct pre; [|discriminate]. simpl in H.
      assert (Hp : String.prefix sub EmptyString = true)
        by (apply prefix_iff; now exists post).
      congruence.
  - cbn [String_includes]. destruct (String.prefix sub (String c s)) eqn:Ep.
    + split; [|reflexivity]. intros _. apply prefix_iff in Ep as (post & H).
      exists EmptyString, post. exact H.
    + rewrite IH. split.
      * intros (pre & post & ->). exists (String c pre), post. reflexivity.
      * intros (pre & post & H). destruct pre as [|c' pre].
        -- simpl in H.
           assert (Hp : String.prefix sub (String c s) = true)
             by (apply prefix_iff; now exists post).
           congruence.
        -- simpl in H. injection H as -> ->. now exists pre, post.
Qed.

(** X14: the jurisdiction risks.  At most one entry is reported, for the
    jurisdiction "Global" and at level HIGH, exactly when the identifier
    of some license of some analysis contains the text AGPL. *)
Theorem assessJurisdictionRisks_agpl :
  forall (licenseAnalyses : list LicenseAnalysis),
    (List.length (assessJurisdictionRisks licenseAnalyses) <= 1)%nat
    /\ (forall r, In r (assessJurisdictionRisks licenseAnalyses) ->
                  jurisdiction r = "Global"%string
                  /\ jr_riskLevel r = LegalRiskLevel.HIGH)
    /\ (assessJurisdictionRisks licenseAnalyses <> []
        <-> exists a l pre post,
              In a licenseAnalyses /\ In l (licenses a)
              /\ spdxId l = (pre ++ "AGPL" ++ post)%string).
Proof.
  intros licenseAnalyses. unfold assessJurisdictionRisks.
  destruct (existsb _ licenseAnalyses) eqn:Ea.
  - split; [simpl; lia|]. split.
    + intros r [<-|[]]. split; reflexivity.
    + split; [|discriminate]. intros _.
      apply existsb_exists in Ea as (a & Ha & El).
      apply existsb_exists in El as (l & Hl & Hinc).
      apply String_includes_iff in Hinc as (pre & post & Hid).
      exists a, l, pre, post. auto.
  - split; [simpl; lia|]. split; [intros r []|].
    split; [congruence|]. intros (a & l & pre & post & Ha & Hl & Hid). exfalso.
    assert (Ht : existsb (fun a => existsb (fun l => String_includes (spdxId l) "AGPL")
                                           (licenses a))
                         licenseAnalyses = true).
    { apply existsb_exists. exists a. split; [exact Ha|].
      apply existsb_exists. exists l. split; [exact Hl|].
      apply String_includes_iff. now exists pre, post. }
    congruence.
Qed.

Lemma quotient_by_no_analysis (s : float) :
  Prim2SF ((0 + s) / js_of_nat 0)%float
  = match Prim2SF s with
    | S754_zero _ | S754_nan => S754_nan
    | S754_infinity sign | S754_finite sign _ _ => S754_infinity sign
    end.
Proof.
  rewrite FloatAxioms.div_spec, FloatAxioms.add_spec.
  change (Prim2SF 0) with (S754_zero false).
  change (Prim2SF (js_of_nat 0)) with (S754_zero false).
  destruct (Prim2SF s) as [sign|sign| |sign m e]; try reflexivity;
    destruct sign; reflexivity.
Qed.

(** X15: the risk score of no analysis at all.  The division is by zero:
    a positive compatibility score gives the capped score 100 and the
    overall risk CRITICAL; a zero or negative compatibility score gives no
    finite score (NaN, minus infinity) and the overall risk VERY_LOW. *)
Theorem calculateRiskScore_no_analysis :
  forall (report : CompatibilityReport),
    let score := calculateRiskScore [] report in
    ((0 <? summary_riskScore report)%float = true ->
     score = 100%float /\ determineOverallRisk score = LegalRiskLevel.CRITICAL)
    /\ ((summary_riskScore report =? 0)%float = true ->
        score = PrimFloat.nan
        /\ determineOverallRisk score = LegalRiskLevel.VERY_LOW)
    /\ ((summary_riskScore report <? 0)%float = true ->
        score = PrimFloat.neg_infinity
        /\ determineOverallRisk score = LegalRiskLevel.VERY_LOW).
Proof.
  intros report score. subst score. unfold calculateRiskScore.
  cbn [fold_left List.length].
  pose proof (quotient_by_no_analysis (summary_riskScore report)) as Hq.
  set (s := summary_riskScore report) in *.
  split; [|split]; intros Hcase.
  - assert (Hinf : ((0 + s) / js_of_nat 0)%float = PrimFloat.infinity).
    { apply Prim2SF_inj. rewrite Hq.
      rewrite FloatAxioms.ltb_spec in Hcase.
      change (Prim2SF 0) with (S754_zero false) in Hcase.
      destruct (Prim2SF s) as [sign|sign| |sign m e]; try discriminate;
        destruct sign; try discriminate; reflexivity. }
    rewrite Hinf. split; reflexivity.
  - assert (Hnan : ((0 + s) / js_of_nat 0)%float = PrimFloat.nan).
    { apply Prim2SF_inj. rewrite Hq.
      rewrite FloatAxioms.eqb_spec in Hcase.
      change (Prim2SF 0) with (S754_zero false) in Hcase.
      destruct (Prim2SF s) as [sign|sign| |sign m e]; try discriminate;
        try reflexivity; destruct sign; discriminate. }
    rewrite Hnan. split; reflexivity.
  - assert (Hinf : ((0 + s) / js_of_nat 0)%float = PrimFloat.neg_infinity).
    { apply Prim2SF_inj. rewrite Hq.
      rewrite FloatAxioms.ltb_spec in Hcase.
      change (Prim2SF 0) with (S754_zero false) in Hcase.
      destruct (Prim2SF s) as [sign|sign| |sign m e]; try discriminate;
        destruct sign; try discriminate; reflexivity. }
    rewrite Hinf. split; reflexivity.
Qed.

End ReportParts.

(** ** The legal-risk report as a whole *)

Section ReportFacts.
Import Detector Service.
Context (host : Host) (run : Run).

Lemma In_fulfilledValues {A B} (f : A -> Outcome B) (l : list A) (x : B) :
  In x (fulfilledValues (map f l)) <-> exists p, In p l /\ f p = Fulfilled x.
Proof.
  unfold fulfilledValues. rewrite in_flat_map. split.
  - intros (r & Hr & Hx). apply in_map_iff in Hr as (p & <- & Hp).
    exists p. split; [exact Hp|]. destruct (f p); [|destruct Hx].
    destruct Hx as [->|[]]. reflexivity.
  - intros (p & Hp & Hf). exists (f p). split; [now apply in_map|].
    rewrite Hf. now left.
Qed.

(** Every analysis of a batch is, up to the clock, the detection of one
    of the packages. *)
Lemma analyses_from_detection options packages analyses :
  map forget analyses = fulfilledValues (map (detection host options) packages) ->
  (forall a, In a analyses ->
             exists pkg, In pkg packages
                         /\ detection host options pkg = Fulfilled (forget a))
  /\ (forall pkg a0, In pkg packages -> detection host options pkg = Fulfilled a0 ->
                     exists a, In a analyses /\ forget a = a0).
Proof.
  intros Hres. split.
  - intros a Ha. apply In_fulfilledValues. rewrite <- Hres. now apply in_map.
  - intros pkg a0 Hpkg Hdet.
    assert (Hin : In a0 (map forget analyses)).
    { rewrite Hres. apply In_fulfilledValues. now exists pkg. }
    apply in_map_iff in Hin as (a & Ha & Hin). now exists a.
Qed.

(** The fields of the report in terms of the steps that produce them. *)
Lemma assessLegalRisk_fields packages options w report w' :
  Service.assessLegalRisk host run packages options w = (Fulfilled report, w') ->
  exists analyses compatibility,
    map forget analyses = fulfilledValues (map (detection host options) packages)
    /\ generateCompatibilityReport host packages analyses options
       = Fulfilled compatibility
    /\ riskScore report = calculateRiskScore analyses compatibility
    /\ overallRisk report = determineOverallRisk (riskScore report)
    /\ riskFactors report = identifyRiskFactors analyses compatibility
    /\ jurisdictionRisks report = assessJurisdictionRisks analyses
    /\ patentRisks report = assessPatentRisks analyses
    /\ complianceRequirements report = generateComplianceRequirements analyses
    /\ legalReview report
       = assessLegalReviewNeeds (overallRisk report) (riskFactors report).
Proof.
  unfold Service.assessLegalRisk, try_catch, bind, lift, Date_now, logger, ret, throw.
  cbn [fst snd].
  match goal with
  | |- context [analyzeLicenses host run packages options ?w1] =>
      destruct (analyzeLicenses_spec host run options packages w1)
        as (analyses & w2 & d & -> & Hres & _)
  end.
  destruct (generateCompatibilityReport host packages analyses options)
    as [compatibility|e] eqn:Ec; [|discriminate].
  intros Hrun. injection Hrun as Hreport _.
  exists analyses, compatibility. subst report.
  split; [exact Hres|]. split; [exact Ec|].
  cbn [riskScore overallRisk riskFactors jurisdictionRisks patentRisks
       complianceRequirements legalReview].
  repeat split; reflexivity.
Qed.

Lemma identifyRiskFactors_flags analyses compatibility :
  let factors := identifyRiskFactors analyses compatibility in
  (0 <? List.length
          (filter (fun f => match rf_impact f with sev_critical => true | _ => false end)
                  factors))%nat
  = (0 <? List.length (conflicts compatibility))%nat
  /\ (0 <? List.length
             (filter (fun f => match rf_category f with
                               | license_compatibility => true
                               | _ => false
                               end)
                     factors))%nat
     = (0 <? List.length (conflicts compatibility))%nat
  /\ (In license_compatibility (map rf_category factors)
      <-> conflicts compatibility <> []).
Proof.
  intros factors. subst factors. unfold identifyRiskFactors.
  assert (Hne : conflicts compatibility <> []
                <-> (0 <? List.length (conflicts compatibility))%nat = true).
  { rewrite Nat.ltb_lt. destruct (conflicts compatibility); simpl; split;
      try congruence; try lia; intros _; discriminate. }
  rewrite Hne.
  destruct (0 <? List.length (conflicts compatibility))%nat,
           (0 <? List.length (filter _ analyses))%nat,
           (0 <? List.length (filter _ analyses))%nat;
    cbn; (split; [reflexivity|]); (split; [reflexivity|]);
    split; intros H; try reflexivity; try discriminate; try (now left);
    repeat (destruct H as [H|H]; try discriminate); destruct H.
Qed.

(** X16: the legal review of a report.  Its urgency is never [high]: the
    only factor about license compatibility the service produces is of
    critical impact, which makes the review urgent.  The review covers
    license compatibility exactly when the report has the compatibility
    factor; it then also covers critical risk mitigation and is estimated
    at eight hours or more.  The urgency is [urgent] exactly for a
    CRITICAL overall risk or a report with the compatibility factor. *)
Theorem assessLegalRisk_legal_review :
  forall (packages : list Package) (options : option LicenseScanOptions)
         (w w' : World) (report : LegalRiskReport),
    Service.assessLegalRisk host run packages options w = (Fulfilled report, w') ->
    let review := legalReview report in
    let conflicting :=
      In license_compatibility (map rf_category (riskFactors report)) in
    urgency review <> urg_high
    /\ (In "License compatibility analysis"%string (scope review) <-> conflicting)
    /\ (conflicting ->
        urgency review = urg_urgent
        /\ In "Critical risk mitigation"%string (scope review)
        /\ (8 <= estimatedHours review)%nat)
    /\ (urgency review = urg_urgent
        <-> overallRisk report = LegalRiskLevel.CRITICAL \/ conflicting).
Proof.
  intros packages options w w' report Hrun review conflicting.
  subst review conflicting.
  destruct (assessLegalRisk_fields _ _ _ _ _ Hrun)
    as (analyses & compatibility & _ & _ & _ & _ & Hfactors & _ & _ & _ & Hreview).
  rewrite Hreview, Hfactors.
  destruct (identifyRiskFactors_flags analyses compatibility) as (Hc & Hk & Hin).
  cbv zeta in Hc, Hk, Hin. rewrite Hin.
  assert (Hne : conflicts compatibility <> []
                <-> (0 <? List.length (conflicts compatibility))%nat = true).
  { rewrite Nat.ltb_lt. destruct (conflicts compatibility); simpl; split;
      try congruence; try lia; intros _; discriminate. }
  rewrite Hne. unfold assessLegalReviewNeeds. rewrite Hc, Hk.
  destruct (0 <? List.length (conflicts compatibility))%nat,
           (overallRisk report); cbn.
  all: split; [discriminate|].
  all: split; [split; intros H; try reflexivity; try discriminate; try tauto;
               repeat (destruct H as [H|H]; try discriminate); destruct H|].
  all: split; [intros H;
               first [discriminate|split; [reflexivity|split; [tauto|lia]]]|].
  all: split; intros H; try reflexivity; try discriminate; try tauto.
  all: destruct H as [H|H]; discriminate.
Qed.

Lemma has_obligation_type (t : ObligationType.t) (analyses : list LicenseAnalysis) :
  existsb (fun a => existsb (fun o => String.eqb (ObligationType.value (ob_type o))
                                                 (ObligationType.value t))
                            (an_obligations a))
          analyses = true
  <-> exists a, In a analyses /\ In t (map ob_type (an_obligations a)).
Proof.
  rewrite existsb_exists. split.
  - intros (a & Ha & Ho). exists a. split; [exact Ha|].
    apply existsb_exists in Ho as (o & Ho & Heq).
    rewrite obligation_value_eqb in Heq.
    apply in_map_iff. exists o. split; [|exact Ho].
    destruct (ob_type o), t; simpl in Heq; congruence.
  - intros (a & Ha & Ho). exists a. split; [exact Ha|].
    apply in_map_iff in Ho as (o & <- & Ho).
    apply existsb_exists. exists o. split; [exact Ho|].
    rewrite obligation_value_eqb. destruct (ob_type o); reflexivity.
Qed.

(** X17: the compliance requirements of a report.  At most two are
    listed, all pending and no one twice: attribution documentation
    exactly when the detection of some package yields a license with the
    attribution obligation, and source disclosure procedures exactly when
    it yields a license with the obligation to disclose source. *)
Theorem assessLegalRisk_compliance_requirements :
  forall (packages : list Package) (options : option LicenseScanOptions)
         (w w' : World) (report : LegalRiskReport),
    Service.assessLegalRisk host run packages options w = (Fulfilled report, w') ->
    let listed := map requirement (complianceRequirements report) in
    let detected (t : ObligationType.t) :=
      exists pkg a l,
        In pkg packages /\ detection host options pkg = Fulfilled a
        /\ In l (licenses a) /\ In t (obligations l) in
    (List.length listed <= 2)%nat
    /\ NoDup listed
    /\ (forall r, In r (complianceRequirements report) -> status r = rs_pending)
    /\ (In "Create and maintain attribution documentation"%string listed
        <-> detected ObligationType.ATTRIBUTION)
    /\ (In "Implement source code disclosure procedures"%string listed
        <-> detected ObligationType.DISCLOSE_SOURCE).
Proof.
  intros packages options w w' report Hrun listed detected.
  subst listed detected.
  destruct (assessLegalRisk_fields _ _ _ _ _ Hrun)
    as (analyses & compatibility & Hres & _ & _ & _ & _ & _ & _ & Hreq & _).
  destruct (analyses_from_detection _ _ _ Hres) as [Hfrom Hto].
  assert (Hdetected : forall t,
            (exists a, In a analyses /\ In t (map ob_type (an_obligations a)))
            <-> exists pkg a l,
                  In pkg packages /\ detection host options pkg = Fulfilled a
                  /\ In l (licenses a) /\ In t (obligations l)).
  { intros t. split.
    - intros (a & Ha & Ht). destruct (Hfrom a Ha) as (pkg & Hpkg & Hdet).
      destruct (detection_fields _ _ _ _ Hdet) as (d & _ & _ & _ & Hobl & _).
      cbn [forget an_obligations licenses] in Hobl. rewrite Hobl in Ht.
      apply (proj1 (proj2 (calculateObligations_spec _))) in Ht as (l & Hl & Hin).
      exists pkg, (forget a), l. auto.
    - intros (pkg & a0 & l & Hpkg & Hdet & Hl & Hin).
      destruct (Hto pkg a0 Hpkg Hdet) as (a & Ha & <-).
      exists a. split; [exact Ha|].
      destruct (detection_fields _ _ _ _ Hdet) as (d & _ & _ & _ & Hobl & _).
      cbn [forget an_obligations licenses] in Hobl, Hl. rewrite Hobl.
      apply (proj1 (proj2 (calculateObligations_spec _))). now exists l. }
  rewrite <- !Hdetected, <- !has_obligation_type, Hreq.
  unfold generateComplianceRequirements.
  change "attribution"%string
    with (ObligationType.value ObligationType.ATTRIBUTION).
  change "disclose_source"%string
    with (ObligationType.value ObligationType.DISCLOSE_SOURCE).
  destruct (existsb _ analyses), (existsb _ analyses); cbn.
  all: split; [lia|].
  all: split; [repeat (apply NoDup_cons; [cbn; intuition discriminate|]);
               apply NoDup_nil|].
  all: split; [intros r H; repeat (destruct H as [<-|H]; [reflexivity|]); destruct H|].
  all: split; split; intros H; try reflexivity; try discriminate; try (now left);
    try (right; now left);
    repeat (destruct H as [H|H]; try discriminate); destruct H.
Qed.

(** X18: the compatibility engine is the only step of [assessLegalRisk]
    that can fail.  The packages are analysed first; when the engine then
    throws, the call rejects with the very value thrown (no prefix is
    added) after logging it; when the engine returns, the call returns a
    report. *)
Theorem assessLegalRisk_engine_fault :
  forall (packages : list Package) (options : option LicenseScanOptions) (w : World),
    exists analyses,
      map forget analyses = fulfilledValues (map (detection host options) packages)
      /\ match generateCompatibilityReport host packages analyses options with
         | Fulfilled compatibility =>
             exists report,
               fst (Service.assessLegalRisk host run packages options w)
               = Fulfilled report
               /\ riskFactors report = identifyRiskFactors analyses compatibility
         | Rejected e =>
             fst (Service.assessLegalRisk host run packages options w) = Rejected e
             /\ exists entries,
                  log (snd (Service.assessLegalRisk host run packages options w))
                  = entries ++ [RiskFailed e]
         end.
Proof.
  intros packages options w.
  unfold Service.assessLegalRisk, try_catch, bind, lift, Date_now, logger, ret, throw.
  cbn [fst snd].
  match goal with
  | |- context [analyzeLicenses host run packages options ?w1] =>
      destruct (analyzeLicenses_spec host run options packages w1)
        as (analyses & w2 & d & -> & Hres & _)
  end.
  exists analyses. split; [exact Hres|].
  destruct (generateCompatibilityReport host packages analyses options)
    as [compatibility|e]; cbn [fst snd log].
  - eexists. split; reflexivity.
  - split; [reflexivity|]. eexists. reflexivity.
Qed.

End ReportFacts.

(** ** Compliance documents: formats and options *)

Section DocumentFormats.
Import Detector Service.
Context (host : Host) (run : Run).

Lemma generateTextDocument_returns analyses options w :
  exists document,
    generateTextDocument host run analyses options w
    = (Fulfilled document, mkWorld (S (ticks w)) (log w)).
Proof. unfold generateTextDocument, bind, Date_now, ret. eexists. reflexivity. Qed.

Lemma generateHtmlDocument_returns analyses options w :
  exists document,
    generateHtmlDocument host run analyses options w
    = (Fulfilled document, mkWorld (S (ticks w)) (log w)).
Proof. unfold generateHtmlDocument, bind, Date_now, ret. eexists. reflexivity. Qed.

Lemma generateMarkdownDocument_returns analyses options w :
  exists document,
    generateMarkdownDocument host run analyses options w
    = (Fulfilled document, mkWorld (S (ticks w)) (log w)).
Proof. unfold generateMarkdownDocument, bind, Date_now, ret. eexists. reflexivity. Qed.

Lemma generateJsonDocument_returns analyses options w :
  exists document,
    generateJsonDocument host run analyses options w
    = (Fulfilled document, mkWorld (S (ticks w)) (log w)).
Proof. unfold generateJsonDocument, bind, Date_now, ret. eexists. reflexivity. Qed.

(** X19: the formats of a compliance document.  For one of the formats
    text, html, markdown and json the call returns a document and its
    last log entry reports the completion with that format.  For any
    other format the packages are analysed all the same, batch by batch,
    and only then the call rejects with "Unsupported document format:
    <format>", after logging that error. *)
Theorem generateComplianceDocument_formats :
  forall (packages : list Package) (options : ComplianceDocumentOptions) (w : World),
    let supported := ["text"; "html"; "markdown"; "json"]%string in
    let result := generateComplianceDocument host run packages options w in
    (In (format options) supported ->
     exists document entries duration,
       fst result = Fulfilled document
       /\ log (snd result)
          = log w ++ DocumentStart (List.length packages) :: entries
              ++ [DocumentCompleted duration (format options)]
       /\ Spec.BatchedTrace packages (steps entries))
    /\ (~ In (format options) supported ->
        exists entries,
          fst result
          = Rejected (JsError ("Unsupported document format: " ++ format options))
          /\ log (snd result)
             = log w ++ DocumentStart (List.length packages) :: entries
                 ++ [DocumentFailed
                       (JsError ("Unsupported document format: " ++ format options))]
          /\ Spec.BatchedTrace packages (steps entries)).
Proof.
  intros packages options w supported result. subst supported result.
  unfold generateComplianceDocument, try_catch, bind, Date_now, logger, ret, throw.
  cbn [fst snd].
  match goal with
  | |- context [analyzeLicenses host run packages None ?w1] =>
      destruct (analyzeLicenses_spec host run None packages w1)
        as (analyses & w2 & d & -> & _ & Hlog & Htrace)
  end.
  cbn [log] in Hlog.
  destruct (generateTextDocument_returns analyses options w2) as [text Htext].
  destruct (generateHtmlDocument_returns analyses options w2) as [html Hhtml].
  destruct (generateMarkdownDocument_returns analyses options w2) as [md Hmd].
  destruct (generateJsonDocument_returns analyses options w2) as [json Hjson].
  assert (Hshape : forall last,
            (log w2 ++ [last])
            = log w ++ DocumentStart (List.length packages) :: d ++ [last]).
  { intros last. rewrite Hlog, <- !app_assoc. reflexivity. }
  destruct (String.eqb_spec (format options) "text") as [Et|Et];
    [|destruct (String.eqb_spec (format options) "html") as [Eh|Eh];
      [|destruct (String.eqb_spec (format options) "markdown") as [Em|Em];
        [|destruct (String.eqb_spec (format options) "json") as [Ej|Ej]]]].
  - rewrite Htext. cbn [fst snd log ticks]. split.
    + intros _. eexists text, d, _. split; [reflexivity|].
      split; [apply Hshape|exact Htrace].
    + intros Hno. exfalso. apply Hno. rewrite Et. simpl. tauto.
  - rewrite Hhtml. cbn [fst snd log ticks]. split.
    + intros _. eexists html, d, _. split; [reflexivity|].
      split; [apply Hshape|exact Htrace].
    + intros Hno. exfalso. apply Hno. rewrite Eh. simpl. tauto.
  - rewrite Hmd. cbn [fst snd log ticks]. split.
    + intros _. eexists md, d, _. split; [reflexivity|].
      split; [apply Hshape|exact Htrace].
    + intros Hno. exfalso. apply Hno. rewrite Em. simpl. tauto.
  - rewrite Hjson. cbn [fst snd log ticks]. split.
    + intros _. eexists json, d, _. split; [reflexivity|].
      split; [apply Hshape|exact Htrace].
    + intros Hno. exfalso. apply Hno. rewrite Ej. simpl. tauto.
  - cbn [fst snd log ticks]. split.
    + intros [H|[H|[H|[H|[]]]]]; congruence.
    + intros _. exists d. split; [reflexivity|].
      split; [apply Hshape|exact Htrace].
Qed.

(** X20: options without effect.  Two calls whose options agree on the
    format produce the same outcome and the same log when the format is
    json; for the other formats, when the options also agree on the
    grouping, the header and the footer and, for text only, on the license
    texts (grouped layout) or on the copyright notices (flat layout).  So
    html and markdown never show license texts or copyright notices, the
    flat text layout never shows license texts, and the grouped one never
    shows copyright notices. *)
Theorem generateComplianceDocument_ignored_options :
  forall (packages : list Package) (o1 o2 : ComplianceDocumentOptions) (w : World),
    format o1 = format o2 ->
    (format o1 = "json"%string
     \/ (groupByLicense o1 = groupByLicense o2
         /\ customHeader o1 = customHeader o2
         /\ customFooter o1 = customFooter o2
         /\ (format o1 = "text"%string ->
             if groupByLicense o1
             then includeLicenseTexts o1 = includeLicenseTexts o2
             else includeCopyrightNotices o1 = includeCopyrightNotices o2))) ->
    generateComplianceDocument host run packages o1 w
    = generateComplianceDocument host run packages o2 w.
Proof.
  intros packages [f1 g1 t1 c1 h1 b1] [f2 g2 t2 c2 h2 b2] w Hformat Hcase.
  cbn [format groupByLicense includeLicenseTexts includeCopyrightNotices
       customHeader customFooter] in Hformat, Hcase.
  subst f2.
  unfold generateComplianceDocument. cbn [format].
  assert (Hdoc : forall analyses,
            (if String.eqb f1 "text"
             then generateTextDocument host run analyses
                    (mkDocumentOptions f1 g1 t1 c1 h1 b1)
             else if String.eqb f1 "html"
             then generateHtmlDocument host run analyses
                    (mkDocumentOptions f1 g1 t1 c1 h1 b1)
             else if String.eqb f1 "markdown"
             then generateMarkdownDocument host run analyses
                    (mkDocumentOptions f1 g1 t1 c1 h1 b1)
             else if String.eqb f1 "json"
             then generateJsonDocument host run analyses
                    (mkDocumentOptions f1 g1 t1 c1 h1 b1)
             else throw (JsError ("Unsupported document format: " ++ f1)%string))
            = (if String.eqb f1 "text"
               then generateTextDocument host run analyses
                      (mkDocumentOptions f1 g2 t2 c2 h2 b2)
               else if String.eqb f1 "html"
               then generateHtmlDocument host run analyses
                      (mkDocumentOptions f1 g2 t2 c2 h2 b2)
               else if String.eqb f1 "markdown"
               then generateMarkdownDocument host run analyses
                      (mkDocumentOptions f1 g2 t2 c2 h2 b2)
               else if String.eqb f1 "json"
               then generateJsonDocument host run analyses
                      (mkDocumentOptions f1 g2 t2 c2 h2 b2)
               else throw (JsError ("Unsupported document format: " ++ f1)%string))).
  { intros analyses. destruct Hcase as [->|(<- & <- & <- & Htext)].
    - reflexivity.
    - destruct (String.eqb_spec f1 "text") as [Et|_].
      + specialize (Htext Et). unfold generateTextDocument.
        cbn [groupByLicense includeLicenseTexts includeCopyrightNotices
             customHeader customFooter].
        destruct g1; now rewrite Htext.
      + reflexivity. }
  unfold try_catch, bind. 
  destruct (Date_now run w) as [[startTime|e] w1]; [|reflexivity].
  destruct (logger _ w1) as [[u|e] w2]; [|reflexivity].
  destruct (analyzeLicenses host run packages None w2) as [[analyses|e] w3];
    [|reflexivity].
  now rewrite Hdoc.
Qed.

End DocumentFormats.

(** ** The allow list of a policy *)

Section AllowList.
Import Detector Service.

Lemma includes_agree (l1 l2 : list string) (s : string) :
  (In s l1 <-> In s l2) -> includes l1 s = includes l2 s.
Proof.
  intros H. destruct (includes l1 s) eqn:E1, (includes l2 s) eqn:E2;
    try reflexivity.
  - apply includes_iff, H, includes_iff in E1. congruence.
  - apply includes_iff, H, includes_iff in E2. congruence.
Qed.

(** X21: the allow list is not a whitelist.  It is consulted only for a
    license that is on the review list: two policies that differ in their
    allow lists, but agree on which licenses under review are allowed,
    give the same result on the same packages, whatever the clock and the
    scheduling of either call.  In particular a license that is not on
    the allow list is no violation as such, and a prohibited license stays
    one when it is allowed. *)
Theorem validatePolicy_allow_list :
  forall (host : Host) (run1 run2 : Run) (packages : list Package)
         (p1 p2 : LicensePolicy) (w1 w2 : World),
    prohibitedLicenses p1 = prohibitedLicenses p2 ->
    reviewRequiredLicenses p1 = reviewRequiredLicenses p2 ->
    categoryRules p1 = categoryRules p2 ->
    maximumRiskLevel p1 = maximumRiskLevel p2 ->
    (forall id, In id (reviewRequiredLicenses p1) ->
                (In id (allowedLicenses p1) <-> In id (allowedLicenses p2))) ->
    fst (validatePolicy host run1 packages p1 w1)
    = fst (validatePolicy host run2 packages p2 w2).
Proof.
  intros host run1 run2 packages p1 p2 w1 w2 Hp Hr Hc Hm Hallowed.
  destruct (validatePolicy_spec host run1 packages p1 w1)
    as (analyses1 & w1' & Hres1 & ->).
  destruct (validatePolicy_spec host run2 packages p2 w2)
    as (analyses2 & w2' & Hres2 & ->).
  cbn [fst].
  assert (Hsame : checkAnalyses p1 analyses1 = checkAnalyses p2 analyses2).
  { rewrite <- (checkAnalyses_forget p1 analyses1),
            <- (checkAnalyses_forget p2 analyses2), Hres1, Hres2.
    rewrite !checkAnalyses_flat.
    apply flat_map_ext. intros a. apply flat_map_ext. intros l.
    unfold checkedViolations. rewrite <- Hp, <- Hr, <- Hc, <- Hm.
    destruct (includes (reviewRequiredLicenses p1) (spdxId l)) eqn:Er;
      [|reflexivity].
    apply includes_iff in Er.
    now rewrite (includes_agree _ _ _ (Hallowed _ Er)). }
  now rewrite Hsame.
Qed.

End AllowList.

(** ** Failures reported by a batch *)

Section BatchFailures.
Import Detector Service.
Context (host : Host) (run : Run) (options : option LicenseScanOptions).

Lemma itemFailures_app (l1 l2 : list LogEvent) :
  itemFailures (l1 ++ l2) = itemFailures l1 ++ itemFailures l2.
Proof. unfold itemFailures. apply flat_map_app. Qed.

Lemma itemFailures_reported (reasons : list Thrown) :
  itemFailures (map BatchItemFailed reasons) = reasons.
Proof. induction reasons as [|r rs IH]; simpl; [reflexivity|now rewrite IH]. Qed.

Lemma rejectedReasons_forget (results : list (Outcome LicenseAnalysis)) :
  rejectedReasons (map forgetOutcome results) = rejectedReasons results.
Proof.
  induction results as [|[v|e] rs IH]; simpl; [reflexivity|exact IH|now rewrite IH].
Qed.

Lemma rejectedReasons_app {A} (l1 l2 : list (Outcome A)) :
  rejectedReasons (l1 ++ l2) = rejectedReasons l1 ++ rejectedReasons l2.
Proof. unfold rejectedReasons. apply flat_map_app. Qed.

Lemma length_rejectedReasons {A B} (f : A -> Outcome B) (l : list A) :
  List.length (rejectedReasons (map f l))
  = List.length (filter (fun x => negb (isFulfilled (f x))) l).
Proof.
  induction l as [|x xs IH]; simpl; [reflexivity|].
  destruct (f x); simpl; now rewrite IH.
Qed.

Lemma analyzeLicense_resume_quiet pkg startTime w :
  exists r w' delta,
    analyzeLicense_resume host run pkg options startTime w = (r, w')
    /\ forgetOutcome r = detection host options pkg
    /\ log w' = log w ++ delta
    /\ itemFailures delta = [].
Proof.
  unfold analyzeLicense_resume, detectLicense_resume, detection,
    try_catch, bind, lift, Date_now, logger, ret, throw.
  destruct (detectDeclaredLicense host pkg) as [d|e]; cbn -[analysisOf forget].
  - eexists _, _, [_; _]. split; [reflexivity|].
    split; [cbn [forgetOutcome]; now rewrite forget_analysisOf|].
    split; [now rewrite <- app_assoc|reflexivity].
  - eexists _, _, [_; _]. split; [reflexivity|].
    split; [reflexivity|].
    split; [now rewrite <- app_assoc|reflexivity].
Qed.

Lemma startBatch_quiet batch pos w :
  exists ps w' delta,
    startBatch run batch pos w = (ps, w')
    /\ map position ps = seq pos (List.length batch)
    /\ map pending_pkg ps = batch
    /\ log w' = log w ++ delta
    /\ itemFailures delta = [].
Proof.
  revert pos w. induction batch as [|pkg rest IH]; intros pos w; simpl.
  - exists [], w, []. rewrite app_nil_r. auto.
  - unfold analyzeLicense_begin, detectLicense_begin. simpl.
    match goal with
    | |- context [startBatch run rest (S pos) ?w1] =>
        destruct (IH (S pos) w1) as (ps & w' & delta & -> & Hpos & Hpkg & Hlog & Hquiet)
    end.
    eexists _, _, (_ :: _ :: delta). split; [reflexivity|]. simpl.
    split; [now rewrite Hpos|]. split; [now rewrite Hpkg|].
    split; [rewrite Hlog; simpl; now rewrite <- !app_assoc|].
    exact Hquiet.
Qed.

Lemma settleBatch_quiet order w :
  exists rs w' delta,
    settleBatch host run options order w = (rs, w')
    /\ map (fun r => (fst r, forgetOutcome (snd r))) rs
       = map (fun p => (position p, detection host options (pending_pkg p))) order
    /\ log w' = log w ++ delta
    /\ itemFailures delta = [].
Proof.
  revert w. induction order as [|p rest IH]; intros w; simpl.
  - exists [], w, []. rewrite app_nil_r. auto.
  - destruct (analyzeLicense_resume_quiet (pending_pkg p) (pending_start p) w)
      as (r & w1 & d1 & -> & Hr & Hlog1 & Hq1).
    destruct (IH w1) as (rs & w2 & d2 & -> & Hrs & Hlog2 & Hq2).
    exists ((position p, r) :: rs), w2, (d1 ++ d2).
    split; [reflexivity|]. simpl.
    split; [now rewrite Hr, Hrs|].
    split; [now rewrite Hlog2, Hlog1, app_assoc|].
    now rewrite itemFailures_app, Hq1, Hq2.
Qed.

(** One batch reports the failures of its packages by position. *)
Lemma processBatch_failures batch st :
  exists delta,
    log (snd (processBatch host run batch options st)) = log (snd st) ++ delta
    /\ itemFailures delta = rejectedReasons (map (detection host options) batch).
Proof.
  destruct st as [analyses w]. unfold processBatch.
  destruct (startBatch_quiet batch 0 w)
    as (ps & w1 & d1 & -> & Hpos & Hpkg & Hlog1 & Hq1).
  set (order := settle_order (scheduler run) Pending (ticks w1) ps).
  assert (Hperm : Permutation order ps) by apply settle_order_perm.
  destruct (settleBatch_quiet order w1)
    as (rs & w2 & d2 & -> & Hrs & Hlog2 & Hq2).
  rewrite collectBatch_spec. cbn [fst snd log].
  exists (d1 ++ d2 ++ map BatchItemFailed
                        (rejectedReasons (allSettled (List.length batch) rs))).
  split; [now rewrite Hlog2, Hlog1, <- !app_assoc|].
  rewrite !itemFailures_app, Hq1, Hq2, itemFailures_reported. cbn [app].
  rewrite <- rejectedReasons_forget, allSettled_forget, Hrs.
  unfold allSettled.
  rewrite (allSettled_by_position
             (fun p => detection host options (pending_pkg p)) ps order
             (List.length batch) Hperm Hpos).
  now rewrite <- Hpkg, map_map.
Qed.

Lemma analyzeLicenses_loop_failures packages i st :
  exists delta,
    log (snd (analyzeLicenses_loop host run packages options i st))
    = log (snd st) ++ delta
    /\ itemFailures delta
       = rejectedReasons (map (detection host options) (skipn i packages)).
Proof.
  funelim (analyzeLicenses_loop host run packages options i st).
  - clear Heqcall Heq. unfold batchSize in *.
    destruct H as (d2 & Hlog & Hq2).
    destruct (processBatch_failures (slice packages i (i + 10)) st)
      as (d1 & Hlog1 & Hq1).
    rewrite slice_firstn_skipn in *.
    exists (d1 ++ d2). split.
    + now rewrite Hlog, Hlog1, app_assoc.
    + rewrite itemFailures_app, Hq1, Hq2, <- rejectedReasons_app, <- map_app.
      replace (i + 10)%nat with (10 + i)%nat by lia.
      now rewrite <- skipn_skipn, firstn_skipn.
  - exists []. rewrite app_nil_r. split; [reflexivity|].
    rewrite skipn_all2 by lia. reflexivity.
Qed.

(** X22: the failures a batch run reports.  Whatever the scheduling, the
    log of [analyzeLicenses] holds one batch-item failure per package
    whose detection fails, in the order of the packages and carrying the
    error of that detection; together with the analyses returned they
    account for every package. *)
Theorem analyzeLicenses_failures_logged :
  forall (packages : list Package) (w : World),
    exists analyses w' delta,
      analyzeLicenses host run packages options w = (Fulfilled analyses, w')
      /\ log w' = log w ++ delta
      /\ itemFailures delta
         = rejectedReasons (map (detection host options) packages)
      /\ (List.length analyses + List.length (itemFailures delta)
          = List.length packages)%nat
      /\ forall reason, In reason (itemFailures delta) ->
           exists pkg err,
             In pkg packages /\ reason = detectionFailed pkg err.
Proof.
  intros packages w.
  unfold analyzeLicenses, try_catch, bind, Date_now, logger, ret.
  cbn [fst snd].
  match goal with
  | |- context [analyzeLicenses_loop host run packages options 0 ?st] =>
      destruct (analyzeLicenses_loop_failures packages 0 st) as (d & Hlog & Hq);
      destruct (analyzeLicenses_loop_spec host run options packages 0 st)
        as (d' & Hres & _);
      destruct (analyzeLicenses_loop host run packages options 0 st) as [analyses w1]
  end.
  cbn [fst snd log skipn map app] in *.
  eexists analyses, _, (_ :: d ++ [_]). split; [reflexivity|].
  assert (Hfail : itemFailures (BatchStart (List.length packages) :: d
                                  ++ [BatchCompleted
                                        (clock run (ticks w1) - clock run (ticks w))
                                        (List.length analyses)
                                        (List.length packages)])
                  = rejectedReasons (map (detection host options) packages)).
  { change (BatchStart (List.length packages) :: d ++ ?l)
      with ([BatchStart (List.length packages)] ++ d ++ l).
    rewrite !itemFailures_app, Hq. cbn. now rewrite app_nil_r. }
  split; [cbn [log]; rewrite Hlog, <- !app_assoc; reflexivity|].
  split; [exact Hfail|]. split.
  - rewrite Hfail, length_rejectedReasons.
    rewrite <- (length_map forget), Hres.
    apply length_fulfilledValues.
  - intros reason Hin. rewrite Hfail in Hin.
    unfold rejectedReasons in Hin. apply in_flat_map in Hin as (r & Hr & Hin).
    apply in_map_iff in Hr as (pkg & <- & Hpkg).
    unfold detection in Hin.
    destruct (detectDeclaredLicense host pkg) as [d0|err]; [destruct Hin|].
    destruct Hin as [<-|[]]. now exists pkg, err.
Qed.

End BatchFailures.

(** ** One package through the service *)

Section SinglePackage.
Import Detector Service.
Context (host : Host) (run : Run).

(** X23: [analyzeLicense] adds nothing to the detection but two log
    entries.  It returns the detector's analysis, or rethrows the
    detector's error as it is (the prefix "License detection failed for
    <name>: " is not added a second time); the log shows the start of the
    service call, the start of the detection, and then both completions
    with the number of licenses found, or both failures, the detector's
    with the fault of the store and the service's with the error
    rethrown. *)
Theorem analyzeLicense_outcome :
  forall (pkg : Package) (options : option LicenseScanOptions) (w : World),
    let result := analyzeLicense host run pkg options w in
    let started :=
      [AnalyzeStart (pkg_name pkg) (pkg_version pkg);
       DetectorAnalyzing (pkg_name pkg) (pkg_version pkg)] in
    forgetOutcome (fst result) = detection host options pkg
    /\ match detectDeclaredLicense host pkg with
       | Fulfilled _ =>
           exists a,
             fst result = Fulfilled a
             /\ scanDuration (metadata a)
                = clock run (S (ticks w)) - clock run (ticks w)
             /\ snd result
                = mkWorld (3 + ticks w)
                    (log w ++ started
                       ++ [DetectorCompleted (scanDuration (metadata a))
                                             (List.length (licenses a));
                           AnalyzeCompleted (pkg_name pkg)
                                            (List.length (licenses a))])
       | Rejected err =>
           fst result = Rejected (detectionFailed pkg err)
           /\ snd result
              = mkWorld (1 + ticks w)
                  (log w ++ started
                     ++ [DetectorFailed err;
                         AnalyzeFailed (pkg_name pkg) (detectionFailed pkg err)])
       end.
Proof.
  intros pkg options w result started. subst result started.
  unfold analyzeLicense, analyzeLicense_begin, analyzeLicense_resume,
    detectLicense_begin, detectLicense_resume, detection,
    try_catch, bind, lift, Date_now, logger, ret, throw.
  destruct (detectDeclaredLicense host pkg) as [d|err]; cbn -[analysisOf forget].
  - split; [now rewrite forget_analysisOf|].
    eexists. split; [reflexivity|].
    rewrite (metadata_analysisOf host). cbn [scanDuration].
    split; [reflexivity|]. now rewrite <- !app_assoc.
  - split; [reflexivity|]. split; [reflexivity|]. now rewrite <- !app_assoc.
Qed.

End SinglePackage.

(** ** Scan options *)

Section ScanOptions.
Import Detector Service.
Context (host : Host) (run : Run).

Lemma analyzeLicense_resume_options pkg o1 o2 startTime w :
  analyzeLicense_resume host run pkg o1 startTime w
  = analyzeLicense_resume host run pkg o2 startTime w.
Proof. reflexivity. Qed.

Lemma settleBatch_options o1 o2 order w :
  settleBatch host run o1 order w = settleBatch host run o2 order w.
Proof.
  revert w. induction order as [|p rest IH]; intros w; [reflexivity|].
  cbn [settleBatch]. rewrite (analyzeLicense_resume_options _ o1 o2).
  destruct (analyzeLicense_resume host run (pending_pkg p) o2 (pending_start p) w)
    as [result w1].
  now rewrite IH.
Qed.

Lemma processBatch_options o1 o2 batch st :
  processBatch host run batch o1 st = processBatch host run batch o2 st.
Proof.
  unfold processBatch. destruct st as [analyses w].
  destruct (startBatch run batch 0 w) as [pending w1].
  now rewrite (settleBatch_options o1 o2).
Qed.

Lemma analyzeLicenses_loop_options packages o1 o2 :
  forall n i st,
    (List.length packages - i = n)%nat ->
    analyzeLicenses_loop host run packages o1 i st
    = analyzeLicenses_loop host run packages o2 i st.
Proof.
  induction n as [n IH] using lt_wf_ind. intros i st Hn.
  rewrite (analyzeLicenses_loop_unfold_eq host run packages o1),
          (analyzeLicenses_loop_unfold_eq host run packages o2).
  unfold analyzeLicenses_loop_unfold.
  destruct (lt_dec i (List.length packages)) as [Hlt|Hge]; [|reflexivity].
  cbn. rewrite (processBatch_options o1 o2).
  apply (IH (List.length packages - (i + batchSize))%nat);
    [unfold batchSize; lia|reflexivity].
Qed.

(** X24: the scan options have no effect on an analysis.  Whatever
    options are passed (scan patterns, ignore patterns, confidence
    threshold, cache), [detectLicense], [analyzeLicense] and
    [analyzeLicenses] return the same result and write the same log as
    with any other options, or with none: the candidate file names and
    the confidences are fixed in the detector. *)
Theorem scan_options_ignored :
  forall (o1 o2 : option LicenseScanOptions) (w : World),
    (forall pkg,
        detectLicense host run pkg o1 w = detectLicense host run pkg o2 w
        /\ analyzeLicense host run pkg o1 w = analyzeLicense host run pkg o2 w)
    /\ (forall packages,
          analyzeLicenses host run packages o1 w
          = analyzeLicenses host run packages o2 w).
Proof.
  intros o1 o2 w. split.
  - intros pkg. split; reflexivity.
  - intros packages.
    unfold analyzeLicenses, try_catch, bind, Date_now, logger, ret.
    cbn [fst snd].
    now rewrite (analyzeLicenses_loop_options packages o1 o2 _ 0 _ eq_refl).
Qed.

End ScanOptions.

(** ** Further instances on the sample data *)

Lemma consolidateLicenses_deduplicates_witness :
  Forall coherentFile
    [mkLicenseFile "LICENSE" (withConfidence Examples.MIT (9 # 10)) (9 # 10);
     mkLicenseFile "COPYING" (withConfidence Examples.GPL3 (8 # 10)) (8 # 10)]
  /\ NoDup
       (map spdxId
          (Detector.consolidateLicenses
             (Some (withConfidence Examples.MIT (8 # 10)))
             [mkLicenseFile "LICENSE" (withConfidence Examples.MIT (9 # 10)) (9 # 10);
              mkLicenseFile "COPYING" (withConfidence Examples.GPL3 (8 # 10))
                            (8 # 10)])).
Proof.
  assert (Hfiles : Forall coherentFile
            [mkLicenseFile "LICENSE" (withConfidence Examples.MIT (9 # 10)) (9 # 10);
             mkLicenseFile "COPYING" (withConfidence Examples.GPL3 (8 # 10))
                           (8 # 10)]).
  { repeat constructor; vm_compute; discriminate. }
  split; [exact Hfiles|].
  apply (proj1 (consolidateLicenses_deduplicates
                  (Some (withConfidence Examples.MIT (8 # 10))) _ Hfiles)).
Defined.

Lemma detection_licenses_well_formed_witness :
  detection Examples.sampleHost None Examples.pkgDual
  = Fulfilled Examples.dualAnalysis
  /\ NoDup (map spdxId (licenses Examples.dualAnalysis))
  /\ (List.length (licenses Examples.dualAnalysis) <= 13)%nat.
Proof.
  assert (Hdet : detection Examples.sampleHost None Examples.pkgDual
                 = Fulfilled Examples.dualAnalysis) by reflexivity.
  split; [exact Hdet|].
  pose proof (detection_licenses_well_formed Examples.sampleHost None
                Examples.pkgDual Examples.dualAnalysis Hdet)
    as (_ & _ & Hnodup & Hlen & _).
  split; [exact Hnodup|exact Hlen].
Defined.

Lemma detection_primary_license_witness :
  detection Examples.sampleHost None Examples.pkgDual
  = Fulfilled Examples.dualAnalysis
  /\ (primaryLicense Examples.dualAnalysis = None
      <-> licenses Examples.dualAnalysis = []).
Proof.
  assert (Hdet : detection Examples.sampleHost None Examples.pkgDual
                 = Fulfilled Examples.dualAnalysis) by reflexivity.
  split; [exact Hdet|].
  apply (proj1 (detection_primary_license Examples.sampleHost None
                  Examples.pkgDual Examples.dualAnalysis Hdet)).
Defined.

Lemma detection_nothing_found_witness :
  detection Examples.sampleHost None Examples.pkgBare
  = Fulfilled Examples.bareAnalysis
  /\ (licenses Examples.bareAnalysis = []
      <-> detectionMethod Examples.bareAnalysis = manual).
Proof.
  assert (Hdet : detection Examples.sampleHost None Examples.pkgBare
                 = Fulfilled Examples.bareAnalysis) by reflexivity.
  split; [exact Hdet|].
  apply (proj1 (proj2 (detection_nothing_found Examples.sampleHost None
                         Examples.pkgBare Examples.bareAnalysis Hdet))).
Defined.

Lemma detectLicense_failure_witness :
  fst (Detector.detectLicense Examples.sampleHost Examples.run1
         Examples.pkgFaulty None Examples.world0)
  = Rejected (JsError "License detection failed for broken: license database unavailable")
  /\ exists expr id err,
       pkg_license Examples.pkgFaulty = Some expr /\ expr <> EmptyString
       /\ (id = trim Examples.sampleHost expr
           \/ exists part,
                In part (splitExpression Examples.sampleHost
                           (trim Examples.sampleHost expr))
                /\ id = trim Examples.sampleHost part)
       /\ getLicense Examples.sampleHost id = Rejected err
       /\ JsError "License detection failed for broken: license database unavailable"
          = Detector.detectionFailed Examples.pkgFaulty err
       /\ snd (Detector.detectLicense Examples.sampleHost Examples.run1
                 Examples.pkgFaulty None Examples.world0)
          = mkWorld (S (ticks Examples.world0))
              (log Examples.world0
                 ++ [DetectorAnalyzing (pkg_name Examples.pkgFaulty)
                                       (pkg_version Examples.pkgFaulty);
                     DetectorFailed err]).
Proof.
  assert (Hfail : fst (Detector.detectLicense Examples.sampleHost Examples.run1
                         Examples.pkgFaulty None Examples.world0)
                  = Rejected (JsError "License detection failed for broken: license database unavailable"))
    by (vm_compute; reflexivity).
  split; [exact Hfail|].
  apply (detectLicense_failure Examples.sampleHost Examples.run1
           Examples.pkgFaulty None Examples.world0 _ Hfail).
Defined.

Lemma detectLicense_succeeds_witness :
  truthy_opt (pkg_license Examples.pkgBare) = false
  /\ exists a,
       fst (Detector.detectLicense Examples.sampleHost Examples.run1
              Examples.pkgBare None Examples.world0)
       = Fulfilled a.
Proof.
  assert (Hnone : truthy_opt (pkg_license Examples.pkgBare) = false) by reflexivity.
  split; [exact Hnone|].
  destruct (detectLicense_succeeds Examples.sampleHost Examples.run1
              Examples.pkgBare None Examples.world0 (or_introl Hnone))
    as (a & Hrun & _).
  exists a. now rewrite Hrun.
Defined.

Lemma assessLegalRisk_legal_review_witness :
  exists report w',
    Service.assessLegalRisk Examples.sampleHost Examples.run1
      [Examples.pkgMIT; Examples.pkgGPL] None Examples.world0
    = (Fulfilled report, w')
    /\ Service.urgency (Service.legalReview report) <> Service.urg_high.
Proof.
  assert (Hrun : exists report w',
            Service.assessLegalRisk Examples.sampleHost Examples.run1
              [Examples.pkgMIT; Examples.pkgGPL] None Examples.world0
            = (Fulfilled report, w'))
    by (eexists _, _; vm_compute; reflexivity).
  destruct Hrun as (report & w' & Hrun).
  exists report, w'. split; [exact Hrun|].
  apply (proj1 (assessLegalRisk_legal_review Examples.sampleHost Examples.run1
                  _ _ _ _ _ Hrun)).
Defined.

Lemma assessLegalRisk_compliance_requirements_witness :
  exists report w',
    Service.assessLegalRisk Examples.sampleHost Examples.run1
      [Examples.pkgMIT; Examples.pkgGPL] None Examples.world0
    = (Fulfilled report, w')
    /\ (List.length
          (map Service.requirement (Service.complianceRequirements report))
        <= 2)%nat.
Proof.
  assert (Hrun : exists report w',
            Service.assessLegalRisk Examples.sampleHost Examples.run1
              [Examples.pkgMIT; Examples.pkgGPL] None Examples.world0
            = (Fulfilled report, w'))
    by (eexists _, _; vm_compute; reflexivity).
  destruct Hrun as (report & w' & Hrun).
  exists report, w'. split; [exact Hrun|].
  apply (proj1 (assessLegalRisk_compliance_requirements Examples.sampleHost
                  Examples.run1 _ _ _ _ _ Hrun)).
Defined.

Lemma generateComplianceDocument_ignored_options_witness :
  format Examples.groupedJson = format Examples.flatJson
  /\ Service.generateComplianceDocument Examples.sampleHost Examples.run1
       [Examples.pkgMIT; Examples.pkgGPL] Examples.groupedJson Examples.world0
     = Service.generateComplianceDocument Examples.sampleHost Examples.run1
         [Examples.pkgMIT; Examples.pkgGPL] Examples.flatJson Examples.world0.
Proof.
  split; [reflexivity|].
  apply generateComplianceDocument_ignored_options; [reflexivity|].
  left. reflexivity.
Defined.

Lemma validatePolicy_allow_list_witness :
  (forall id,
      In id (reviewRequiredLicenses Examples.strictPolicy) ->
      (In id (allowedLicenses Examples.strictPolicy)
       <-> In id ["Apache-2.0"%string]))
  /\ fst (Service.validatePolicy Examples.sampleHost Examples.run1
            Examples.twelvePackages Examples.strictPolicy Examples.world0)
     = fst (Service.validatePolicy Examples.sampleHost Examples.run2
              Examples.twelvePackages
              (mkPolicy "lenient" ["GPL-3.0-only"%string] ["MIT"%string]
                 ["Apache-2.0"%string]
                 (categoryRules Examples.strictPolicy) LegalRiskLevel.LOW)
              Examples.world0).
Proof.
  assert (Hallowed : forall id,
            In id (reviewRequiredLicenses Examples.strictPolicy) ->
            (In id (allowedLicenses Examples.strictPolicy)
             <-> In id ["Apache-2.0"%string])).
  { intros id [<-|[]]. simpl. split; [intros []|intros [H|[]]; discriminate]. }
  split; [exact Hallowed|].
  apply validatePolicy_allow_list; try reflexivity. exact Hallowed.
Defined.
